(** * Vulnerability reconciliation and analysis: a shallow embedding

    This development embeds the reconciliation core of the vulnerability
    pipeline (entity model, NVD normaliser, cleaning service, merge,
    correlation analyser, risk scorer, impact report and graph loader) as
    Rocq functions and proves properties of them.

    Conventions of the embedding.
    - A Python [str] is a [string]; every [ascii] stands for the code point
      of the same number (0..255), and the character predicates below are
      Python's on those code points.
    - A Python [float] score is an exact rational ([Q]).
    - A [datetime] is an integer time stamp ([Z]); only its order is used.
    - A [dict] used as a map is a [gmap]; an [Optional] field is an [option].
    - A function that can raise returns a [result].
    - A collaborator is a parameter: the relational database is a state
      with a query and an update, the graph connector is the list of the
      calls made on it. *)

From Stdlib Require Import Ascii String ZArith QArith Qround Lqa List Sorted.
From stdpp Require Import base option list gmap strings.

Open Scope Z_scope.
Open Scope stdpp_scope.

(** ** Exceptions *)

Inductive exn : Type :=
| ValueError (msg : string)
| KeyError (key : string)
| IndexError
| TypeError.

Inductive result (A : Type) : Type :=
| Ok (a : A)
| Raise (e : exn).

Arguments Ok {A} a.
Arguments Raise {A} e.

#[global] Instance result_bind : MBind result :=
  fun A B (k : A -> result B) (r : result A) =>
    match r with
    | Ok a => k a
    | Raise e => Raise e
    end.

(** ** Python string primitives *)

Module PyStr.

(** [str.isspace] on one code point: TAB..CR, FS..US, SPACE, NEL, NBSP. *)
Definition isspace (c : ascii) : bool :=
  let n := N_of_ascii c in
  ((9 <=? n) && (n <=? 13) || (28 <=? n) && (n <=? 32)
   || (n =? 133) || (n =? 160))%N.

(** [str.isprintable] on one code point: everything except the control
    characters (0..31, 127..159), NBSP (160) and the soft hyphen (173). *)
Definition isprintable (c : ascii) : bool :=
  let n := N_of_ascii c in
  ((32 <=? n) && (n <=? 126) || (161 <=? n) && negb (n =? 173))%N.

(** [str.lower] on one code point: A..Z and the Latin-1 capitals
    (192..222 except the multiplication sign 215) move up by 32. *)
Definition lower_char (c : ascii) : ascii :=
  let n := N_of_ascii c in
  if ((65 <=? n) && (n <=? 90)
      || (192 <=? n) && (n <=? 222) && negb (n =? 215))%N
  then ascii_of_N (n + 32) else c.

Fixpoint lower (s : string) : string :=
  match s with
  | EmptyString => EmptyString
  | String c r => String (lower_char c) (lower r)
  end.

(** Truth value of a [str]: non-empty. *)
Definition truthy (s : string) : bool :=
  match s with
  | EmptyString => false
  | String _ _ => true
  end.

(** Truth value of an [Optional[str]]: present and non-empty. *)
Definition truthy_opt (o : option string) : bool :=
  match o with
  | Some s => truthy s
  | None => false
  end.

Fixpoint lstrip_by (p : ascii -> bool) (s : string) : string :=
  match s with
  | EmptyString => EmptyString
  | String c r => if p c then lstrip_by p r else s
  end.

Fixpoint rstrip_by (p : ascii -> bool) (s : string) : string :=
  match s with
  | EmptyString => EmptyString
  | String c r =>
      match rstrip_by p r with
      | EmptyString => if p c then EmptyString else String c EmptyString
      | r' => String c r'
      end
  end.

(** [s.strip()] *)
Definition strip (s : string) : string :=
  rstrip_by isspace (lstrip_by isspace s).

(** [s.rstrip('/')] *)
Definition rstrip_slash (s : string) : string :=
  rstrip_by (Ascii.eqb "/"%char) s.

(** [s.startswith(p)] *)
Definition startswith (p s : string) : bool := String.prefix p s.

(** [k in s] for two strings: [k] occurs in [s] as a substring. *)
Fixpoint contains (k s : string) : bool :=
  String.prefix k s ||
  match s with
  | EmptyString => false
  | String _ r => contains k r
  end.

(** [s.split(sep)] for a one-character separator. *)
Fixpoint split_on (sep : ascii) (s : string) : list string :=
  match s with
  | EmptyString => [EmptyString]
  | String c r =>
      if Ascii.eqb c sep then EmptyString :: split_on sep r
      else match split_on sep r with
           | w :: ws => String c w :: ws
           | [] => [String c EmptyString]
           end
  end.

(** [s.split()]: the maximal runs of non-whitespace characters. *)
Fixpoint split (s : string) : list string :=
  match s with
  | EmptyString => []
  | String c r =>
      if isspace c then split r
      else match r with
           | EmptyString => [String c EmptyString]
           | String c' _ =>
               if isspace c' then String c EmptyString :: split r
               else match split r with
                    | w :: ws => String c w :: ws
                    | [] => [String c EmptyString]
                    end
           end
  end.

(** [sep.join(ws)] *)
Definition join (sep : string) (ws : list string) : string :=
  String.concat sep ws.

(** [''.join(c for c in s if p(c))] *)
Fixpoint filter_chars (p : ascii -> bool) (s : string) : string :=
  match s with
  | EmptyString => EmptyString
  | String c r => if p c then String c (filter_chars p r) else filter_chars p r
  end.

(** [x in xs] for a list of strings. *)
Definition mem (x : string) (xs : list string) : bool :=
  existsb (String.eqb x) xs.

(** [s] does not contain the character [c]. *)
Definition char_free (c : ascii) (s : string) : Prop :=
  ~ In c (list_ascii_of_string s).

End PyStr.

(** ** Entity model (src/models/entities.py) *)

(** A value of type [Any]: JSON-like payload kept for audit.  A nested
    list or dictionary is kept as its serialised text. *)
Inductive Any : Type :=
| ANone
| ABool (b : bool)
| ANum (q : Q)
| AStr (s : string)
| ANested (text : string).

Module Reference.
Record t : Type := mk {
  url : string;
  source : string;
  type : string;
  tags : list string
}.
Definition set_url (r : t) (u : string) : t :=
  mk u (source r) (type r) (tags r).
End Reference.

Module CVSSMetrics.
Record t : Type := mk {
  version : string;
  vector_string : string;
  base_score : Q;
  base_severity : option string;
  exploitability_score : option Q;
  impact_score : option Q;
  status : option string
}.
End CVSSMetrics.

Module Version.
Record t : Type := mk {
  version : string;
  release : option string;
  architecture : option string;
  status : string;
  repositories : list string
}.
Definition set_version (v : t) (s : string) : t :=
  mk s (release v) (architecture v) (status v) (repositories v).
End Version.

Module Package.
Record t : Type := mk {
  name : string;
  ecosystem : option string;
  platform : option string;
  versions : list Version.t;
  affected_versions : list string;
  fixed_versions : list string
}.

(** [Package.is_affected]: [version in self.affected_versions]. *)
Definition is_affected (self : t) (version : string) : bool :=
  PyStr.mem version (affected_versions self).

(** Two package entries that differ at most in the order of their
    affected-version and fixed-version lists (the order of [list(set(...))]
    is unspecified in Python). *)
Definition same_up_to_order (p q : t) : Prop :=
  name p = name q
  /\ ecosystem p = ecosystem q
  /\ platform p = platform q
  /\ versions p = versions q
  /\ affected_versions p ≡ₚ affected_versions q
  /\ fixed_versions p ≡ₚ fixed_versions q.
End Package.

Module Vulnerability.
Record t : Type := mk {
  id : string;
  source : string;
  title : option string;
  description : option string;
  published_date : option Z;
  last_modified_date : option Z;
  discovered_date : option Z;
  severity : option string;
  cvss_v3 : option CVSSMetrics.t;
  cvss_v2 : option CVSSMetrics.t;
  status : string;
  scope : option string;
  affected_packages : list Package.t;
  affected_configurations : list (gmap string Any);
  references : list Reference.t;
  patches : list (gmap string string);
  notes : list string;
  raw_data : gmap string Any
}.

(** [patch['url'] for patch in patches]; a patch without the key raises. *)
Fixpoint patch_urls (ps : list (gmap string string)) : result (list string) :=
  match ps with
  | [] => Ok []
  | p :: ps' =>
      match p !! "url" with
      | Some u => us ← patch_urls ps'; Ok (u :: us)
      | None => Raise (KeyError "url")
      end
  end.

(** The loop over [other.affected_packages]: [existing_packages] is built
    once from [self] and is not extended inside the loop. *)
Definition merge_packages (mine theirs : list Package.t) : list Package.t :=
  let existing_packages : gset string := list_to_set (map Package.name mine) in
  mine ++ filter (fun p => Package.name p ∉ existing_packages) theirs.

(** The loop over [other.references]: [existing_refs] grows with every
    reference that is appended. *)
Fixpoint merge_references_loop (existing_refs : gset string)
    (acc theirs : list Reference.t) : list Reference.t :=
  match theirs with
  | [] => acc
  | r :: rs =>
      if bool_decide (Reference.url r ∈ existing_refs)
      then merge_references_loop existing_refs acc rs
      else merge_references_loop ({[Reference.url r]} ∪ existing_refs) (acc ++ [r]) rs
  end.

Definition merge_references (mine theirs : list Reference.t) : list Reference.t :=
  merge_references_loop (list_to_set (map Reference.url mine)) mine theirs.

(** The loop over [other.patches]: [existing_patches] is built once. *)
Fixpoint merge_patches_loop (existing_patches : gset string)
    (acc theirs : list (gmap string string)) : result (list (gmap string string)) :=
  match theirs with
  | [] => Ok acc
  | p :: ps =>
      match p !! "url" with
      | None => Raise (KeyError "url")
      | Some u =>
          if bool_decide (u ∈ existing_patches)
          then merge_patches_loop existing_patches acc ps
          else merge_patches_loop existing_patches (acc ++ [p]) ps
      end
  end.

Definition merge_patches (mine theirs : list (gmap string string))
  : result (list (gmap string string)) :=
  urls ← patch_urls mine;
  merge_patches_loop (list_to_set urls) mine theirs.

(** [self.notes.extend([n for n in other.notes if n not in self.notes])]:
    the comprehension is evaluated before [extend] runs. *)
Definition merge_notes (mine theirs : list string) : list string :=
  mine ++ filter (fun n => PyStr.mem n mine = false) theirs.

(** Truth value of an [Optional[datetime]] / [Optional[CVSSMetrics]]:
    an object of either class is always true. *)
Definition present {A : Type} (o : option A) : bool :=
  match o with Some _ => true | None => false end.

Definition merge_title (mine theirs : option string) : option string :=
  if PyStr.truthy_opt theirs && negb (PyStr.truthy_opt mine) then theirs else mine.

Definition merge_last_modified (mine theirs : option Z) : option Z :=
  match theirs with
  | Some o =>
      match mine with
      | None => Some o
      | Some s => if (s <? o)%Z then Some o else Some s
      end
  | None => mine
  end.

Definition merge_cvss (mine theirs : option CVSSMetrics.t) : option CVSSMetrics.t :=
  if present theirs && negb (present mine) then theirs else mine.

(** [Vulnerability.merge]: the state of [self] after [self.merge(other)],
    or the exception it raises. *)
Definition merge (self other : t) : result t :=
  if negb (String.eqb (id self) (id other))
  then Raise (ValueError "Cannot merge vulnerabilities with different IDs")
  else
    let title' := merge_title (title self) (title other) in
    let description' := merge_title (description self) (description other) in
    let last_modified_date' :=
      merge_last_modified (last_modified_date self) (last_modified_date other) in
    let cvss_v3' := merge_cvss (cvss_v3 self) (cvss_v3 other) in
    let cvss_v2' := merge_cvss (cvss_v2 self) (cvss_v2 other) in
    let affected_packages' :=
      merge_packages (affected_packages self) (affected_packages other) in
    let references' := merge_references (references self) (references other) in
    patches' ← merge_patches (patches self) (patches other);
    let notes' := merge_notes (notes self) (notes other) in
    (* dict.update: the keys of [other] overwrite those of [self] *)
    let raw_data' := raw_data other ∪ raw_data self in
    Ok (mk (id self) (source self) title' description'
           (published_date self) last_modified_date' (discovered_date self)
           (severity self) cvss_v3' cvss_v2' (status self) (scope self)
           affected_packages' (affected_configurations self)
           references' patches' notes' raw_data').

(** Every patch entry of the record has a [url] key. *)
Definition patches_have_url (v : t) : Prop :=
  Forall (fun p : gmap string string => is_Some (p !! "url")) (patches v).

End Vulnerability.

(** ** Cleaning service (src/services/cleaner.py) *)

Module CleanerService.

(** The text after the first [>] of [s], if there is one. *)
Fixpoint after_gt (s : string) : option string :=
  match s with
  | EmptyString => None
  | String c r => if Ascii.eqb c ">"%char then Some r else after_gt r
  end.

(** [re.sub(r'<[^>]+>', '', s)], scanning from the left.  At a [<] the
    pattern matches when the next character exists and is not [>] and a
    [>] follows later; the match then ends at the first such [>].
    Otherwise the [<] is copied.  [fuel] bounds the number of scan steps. *)
Fixpoint strip_tags_from (fuel : nat) (s : string) : string :=
  match fuel with
  | O => s
  | S fuel' =>
      match s with
      | EmptyString => EmptyString
      | String c r =>
          if Ascii.eqb c "<"%char then
            match r with
            | EmptyString => String c EmptyString
            | String c1 r1 =>
                if Ascii.eqb c1 ">"%char then String c (strip_tags_from fuel' r)
                else match after_gt r1 with
                     | Some rest => strip_tags_from fuel' rest
                     | None => String c (strip_tags_from fuel' r)
                     end
            end
          else String c (strip_tags_from fuel' r)
      end
  end.

Definition strip_tags (s : string) : string :=
  strip_tags_from (String.length s) s.

(** [' '.join(s.split())] *)
Definition collapse_whitespace (s : string) : string :=
  PyStr.join " " (PyStr.split s).

Definition clean_description (desc : option string) : option string :=
  if negb (PyStr.truthy_opt desc) then None
  else
    match desc with
    | None => None
    | Some d =>
        let d1 := strip_tags d in
        let d2 := collapse_whitespace d1 in
        let d3 := PyStr.filter_chars PyStr.isprintable d2 in
        Some d3
    end.

(** The URL normalisation inside [clean_references]. *)
Definition normalize_url (u : string) : string :=
  let url := PyStr.rstrip_slash (PyStr.strip u) in
  if negb (PyStr.startswith "http://" url || PyStr.startswith "https://" url)
  then "https://" +:+ url
  else url.

Fixpoint clean_references_loop (seen_urls : gset string)
    (refs : list Reference.t) : list Reference.t :=
  match refs with
  | [] => []
  | ref :: rest =>
      if negb (PyStr.truthy (Reference.url ref))
      then clean_references_loop seen_urls rest
      else
        let url := normalize_url (Reference.url ref) in
        if bool_decide (url ∈ seen_urls)
        then clean_references_loop seen_urls rest
        else Reference.set_url ref url
               :: clean_references_loop ({[url]} ∪ seen_urls) rest
  end.

Definition clean_references (refs : list Reference.t) : list Reference.t :=
  clean_references_loop ∅ refs.

Fixpoint clean_versions_loop (seen_versions : gset string)
    (vers : list Version.t) : list Version.t :=
  match vers with
  | [] => []
  | ver :: rest =>
      let version := PyStr.strip (Version.version ver) in
      if PyStr.truthy version && negb (bool_decide (version ∈ seen_versions))
      then Version.set_version ver version
             :: clean_versions_loop ({[version]} ∪ seen_versions) rest
      else clean_versions_loop seen_versions rest
  end.

(** [list(set(v.strip() for v in vs if v.strip()))].  Python leaves the
    order of the resulting list unspecified; the model takes the order in
    which [elements] lists the set. *)
Definition clean_version_strings (vs : list string) : list string :=
  elements (list_to_set (C := gset string)
              (map PyStr.strip
                   (filter (fun v => PyStr.truthy (PyStr.strip v) = true) vs))).

Definition clean_package (pkg : Package.t) : Package.t :=
  let name := PyStr.lower (PyStr.strip (Package.name pkg)) in
  let ecosystem :=
    if PyStr.truthy_opt (Package.ecosystem pkg)
    then (fun e => PyStr.lower (PyStr.strip e)) <$> Package.ecosystem pkg
    else Package.ecosystem pkg in
  Package.mk name ecosystem (Package.platform pkg)
    (clean_versions_loop ∅ (Package.versions pkg))
    (clean_version_strings (Package.affected_versions pkg))
    (clean_version_strings (Package.fixed_versions pkg)).

Fixpoint clean_patches_loop (seen_urls : gset string)
    (patches : list (gmap string string)) : list (gmap string string) :=
  match patches with
  | [] => []
  | patch :: rest =>
      let url := PyStr.strip (default "" (patch !! "url")) in
      if PyStr.truthy url && negb (bool_decide (url ∈ seen_urls))
      then patch :: clean_patches_loop ({[url]} ∪ seen_urls) rest
      else clean_patches_loop seen_urls rest
  end.

Definition clean_notes (notes : list string) : list string :=
  map PyStr.strip (filter (fun note => PyStr.truthy (PyStr.strip note) = true) notes).

Definition clean_vulnerability (vuln : Vulnerability.t) : Vulnerability.t :=
  Vulnerability.mk
    (Vulnerability.id vuln)
    (Vulnerability.source vuln)
    (Vulnerability.title vuln)
    (clean_description (Vulnerability.description vuln))
    (Vulnerability.published_date vuln)
    (Vulnerability.last_modified_date vuln)
    (Vulnerability.discovered_date vuln)
    (Vulnerability.severity vuln)
    (Vulnerability.cvss_v3 vuln)
    (Vulnerability.cvss_v2 vuln)
    (Vulnerability.status vuln)
    (Vulnerability.scope vuln)
    (map clean_package (Vulnerability.affected_packages vuln))
    (Vulnerability.affected_configurations vuln)
    (clean_references (Vulnerability.references vuln))
    (clean_patches_loop ∅ (Vulnerability.patches vuln))
    (clean_notes (Vulnerability.notes vuln))
    (Vulnerability.raw_data vuln).

(** [merge_vulnerabilities]: fold [merge] over the tail, starting from the
    first record. *)
Fixpoint merge_into (base : Vulnerability.t) (rest : list Vulnerability.t)
  : result Vulnerability.t :=
  match rest with
  | [] => Ok base
  | vuln :: rest' =>
      base' ← Vulnerability.merge base vuln;
      merge_into base' rest'
  end.

Definition merge_vulnerabilities (vulns : list Vulnerability.t)
  : result Vulnerability.t :=
  match vulns with
  | [] => Raise (ValueError "Empty vulnerability list")
  | base :: rest => merge_into base rest
  end.

(** *** Notions used to state and prove the properties of cleaning *)

Fixpoint all_chars (p : ascii -> bool) (s : string) : bool :=
  match s with
  | EmptyString => true
  | String c r => p c && all_chars p r
  end.

(** A word: non-empty and without whitespace. *)
Definition word (w : string) : Prop :=
  w <> "" /\ all_chars (fun c => negb (PyStr.isspace c)) w = true.

(** No tag is left: every [<] is directly followed by [>] or by a text
    without [>]. *)
Fixpoint tag_free (s : string) : Prop :=
  match s with
  | EmptyString => True
  | String c r =>
      if Ascii.eqb c "<"%char then
        match r with
        | EmptyString => True
        | String c1 _ =>
            if Ascii.eqb c1 ">"%char then tag_free r else after_gt r = None
        end
      else tag_free r
  end.

(** [squeezed t s]: [s] is [t] with some whitespace characters dropped and
    the others replaced by a space. *)
Inductive squeezed : string -> string -> Prop :=
| squeezed_nil : squeezed EmptyString EmptyString
| squeezed_keep c t s :
    PyStr.isspace c = false -> squeezed t s -> squeezed (String c t) (String c s)
| squeezed_drop c t s :
    PyStr.isspace c = true -> squeezed t s -> squeezed (String c t) s
| squeezed_space c t s :
    PyStr.isspace c = true -> squeezed t s -> squeezed (String c t) (String " " s).

(** The common shape of the three de-duplicating loops: an entry without
    key is dropped, an entry whose key was seen is dropped, any other entry
    is kept after [upd] and its key is recorded. *)
Fixpoint dedup_by {A : Type} (key : A -> option string) (upd : A -> string -> A)
    (seen : gset string) (xs : list A) : list A :=
  match xs with
  | [] => []
  | x :: rest =>
      match key x with
      | None => dedup_by key upd seen rest
      | Some k =>
          if bool_decide (k ∈ seen) then dedup_by key upd seen rest
          else upd x k :: dedup_by key upd ({[k]} ∪ seen) rest
      end
  end.

(** An entry that the loop would keep unchanged. *)
Definition settled {A : Type} (key : A -> option string)
    (upd : A -> string -> A) (y : A) : Prop :=
  exists k, key y = Some k /\ upd y k = y.

Definition patch_key (p : gmap string string) : option string :=
  let url := PyStr.strip (default "" (p !! "url")) in
  if PyStr.truthy url then Some url else None.

Definition version_key (v : Version.t) : option string :=
  let version := PyStr.strip (Version.version v) in
  if PyStr.truthy version then Some version else None.

Definition reference_key (r : Reference.t) : option string :=
  if PyStr.truthy (Reference.url r)
  then Some (normalize_url (Reference.url r)) else None.

(** A description on which cleaning twice is cleaning once: it has no
    non-printable character other than whitespace, and it does not clean
    to the empty text. *)
Definition description_stable (d : option string) : Prop :=
  match d with
  | None => True
  | Some s =>
      all_chars (fun c => PyStr.isprintable c || PyStr.isspace c) s = true
      /\ clean_description (Some s) <> Some ""
  end.

(** A URL on which normalising twice is normalising once: trimmed and
    without its trailing slashes it is not empty and does not end in
    whitespace. *)
Definition url_stable (u : string) : Prop :=
  PyStr.rstrip_slash (PyStr.strip u) <> ""
  /\ PyStr.rstrip_by PyStr.isspace (PyStr.rstrip_slash (PyStr.strip u))
     = PyStr.rstrip_slash (PyStr.strip u).

Definition references_stable (refs : list Reference.t) : Prop :=
  Forall (fun r => PyStr.truthy (Reference.url r) = true ->
                   url_stable (Reference.url r)) refs.

End CleanerService.

(** ** A model of [networkx.Graph]

    The node dictionary keeps insertion order; every node carries its
    attribute [type] (absent for a node created implicitly by [add_edge])
    and its ordered neighbour dictionary. *)

Module nx.

Record node : Type := mk_node {
  node_id : string;
  node_type : option string;
  node_adj : list string
}.

Definition Graph : Type := list node.

Definition empty : Graph := [].

Definition node_ids (g : Graph) : list string := node_id <$> g.

Definition has_node (g : Graph) (n : string) : bool :=
  bool_decide (n ∈ node_ids g).

(** [g.add_node(n, type=ty)]: a new node goes last; an existing node only
    has its attribute updated. *)
Definition add_node (g : Graph) (n ty : string) : Graph :=
  if has_node g n
  then (fun x => if bool_decide (node_id x = n)
                 then mk_node (node_id x) (Some ty) (node_adj x) else x) <$> g
  else g ++ [mk_node n (Some ty) []].

(** Implicit creation of an endpoint by [add_edge]. *)
Definition touch_node (g : Graph) (n : string) : Graph :=
  if has_node g n then g else g ++ [mk_node n None []].

(** [g._adj[u][v] = {}]: [v] joins the neighbours of [u] unless it is
    already among them. *)
Definition link_node (u v : string) (x : node) : node :=
  if bool_decide (node_id x = u)
  then if bool_decide (v ∈ node_adj x) then x
       else mk_node (node_id x) (node_type x) (node_adj x ++ [v])
  else x.

Definition link (g : Graph) (u v : string) : Graph := link_node u v <$> g.

Definition add_edge (g : Graph) (u v : string) : Graph :=
  link (link (touch_node (touch_node g u) v) u v) v u.

(** Iteration over [g.edges]: every node in order, every neighbour not
    yet visited as a node. *)
Fixpoint edges_from (seen : gset string) (g : Graph) : list (string * string) :=
  match g with
  | [] => []
  | x :: rest =>
      ((fun nbr => (node_id x, nbr)) <$> filter (fun nbr => nbr ∉ seen) (node_adj x))
      ++ edges_from ({[node_id x]} ∪ seen) rest
  end.

Definition edges (g : Graph) : list (string * string) := edges_from ∅ g.

(** [[{'id': n, 'type': g.nodes[n]['type']} for n in g.nodes]] *)
Fixpoint nodes_data (g : Graph) : result (list (string * string)) :=
  match g with
  | [] => Ok []
  | x :: rest =>
      match node_type x with
      | None => Raise (KeyError "type")
      | Some ty => ns ← nodes_data rest; Ok ((node_id x, ty) :: ns)
      end
  end.


(** Well-formed graphs: one entry per node, no repeated neighbour, no
    self-loop, every node typed. *)
Definition wf_node (x : node) : Prop :=
  NoDup (node_adj x) /\ (node_id x ∉ node_adj x) /\ is_Some (node_type x).

Definition wf (g : Graph) : Prop :=
  NoDup (node_ids g) /\ Forall wf_node g.

End nx.

(** ** Analysis service (src/services/analyzer.py) *)

Module AnalyzerService.

(** *** Correlation analysis *)

Record GraphData : Type := mk_graph_data {
  nodes : list (string * string);
  edges : list (string * string)
}.

Record CorrelationReport : Type := mk_correlation {
  similar_groups : list (list string);
  package_graph : GraphData
}.

(** [v.description and len(v.description.split()) > 3] *)
Definition usable_description (v : Vulnerability.t) : option string :=
  match Vulnerability.description v with
  | Some d =>
      if PyStr.truthy d && (3 <? length (PyStr.split d))%nat then Some d else None
  | None => None
  end.

Definition descriptions (vulns : list Vulnerability.t) : list string :=
  omap usable_description vulns.

(** The inner loop over [j]. *)
Definition similar_indices (similarity_matrix : nat -> nat -> Q)
    (min_similarity : Q) (n i : nat) : list nat :=
  List.filter
    (fun j => negb (i =? j)%nat && Qle_bool min_similarity (similarity_matrix i j))
    (seq 0 n).

(** One turn of the outer loop over [i].  [None] stands for an exception
    (an index outside [vulns]). *)
Definition cluster_step (vulns : list Vulnerability.t)
    (similarity_matrix : nat -> nat -> Q) (min_similarity : Q) (n : nat)
    (st : option (list (list Vulnerability.t) * gset nat)) (i : nat)
  : option (list (list Vulnerability.t) * gset nat) :=
  '(groups, used_indices) ← st;
  if bool_decide (i ∈ used_indices) then Some (groups, used_indices)
  else
    let similar := similar_indices similarity_matrix min_similarity n i in
    match similar with
    | [] => Some (groups, used_indices)
    | _ =>
        anchor ← vulns !! i;
        others ← mapM (fun j => vulns !! j) similar;
        Some (groups ++ [anchor :: others],
              list_to_set similar ∪ ({[i]} ∪ used_indices))
    end.

(** The [try] block.  [tfidf_cosine] is the composition of
    [TfidfVectorizer.fit_transform] and [cosine_similarity]; it answers
    [None] when it raises.  Any exception leaves [similar_groups] empty. *)
Definition cluster (tfidf_cosine : list string -> option (nat -> nat -> Q))
    (min_similarity : Q) (vulns : list Vulnerability.t)
  : list (list Vulnerability.t) :=
  let ds := descriptions vulns in
  match tfidf_cosine ds with
  | None => []
  | Some similarity_matrix =>
      match fold_left (cluster_step vulns similarity_matrix min_similarity (length ds))
                      (seq 0 (length ds)) (Some ([], ∅)) with
      | Some (groups, _) => groups
      | None => []
      end
  end.

(** The block that adds the ecosystem node, and again the platform node:
    [if tag and not graph.has_node(tag)] the node is added with its kind
    and joined to the package. *)
Definition add_tag (graph : nx.Graph) (name : string) (tag : option string)
    (kind : string) : nx.Graph :=
  match tag with
  | Some t =>
      if PyStr.truthy t && negb (nx.has_node graph t)
      then nx.add_edge (nx.add_node graph t kind) name t
      else graph
  | None => graph
  end.

(** The package node is added unless a node of that name exists. *)
Definition add_name (graph : nx.Graph) (name : string) : nx.Graph :=
  if negb (nx.has_node graph name)
  then nx.add_node graph name "package" else graph.

(** The body of the loop over the packages of a vulnerability. *)
Definition add_package (graph : nx.Graph) (pkg : Package.t) : nx.Graph :=
  let name := Package.name pkg in
  let g1 := add_name graph name in
  let g2 := add_tag g1 name (Package.ecosystem pkg) "ecosystem" in
  add_tag g2 name (Package.platform pkg) "platform".

Definition all_packages (vulns : list Vulnerability.t) : list Package.t :=
  concat (map Vulnerability.affected_packages vulns).

Definition graph_of (pkgs : list Package.t) : nx.Graph :=
  fold_left add_package pkgs nx.empty.


Definition build_graph (vulns : list Vulnerability.t) : nx.Graph :=
  graph_of (all_packages vulns).

Definition analyze_correlations
    (tfidf_cosine : list string -> option (nat -> nat -> Q))
    (min_similarity : Q) (vulns : list Vulnerability.t)
  : result CorrelationReport :=
  match descriptions vulns with
  | [] => Ok (mk_correlation [] (mk_graph_data [] []))
  | _ =>
      let groups := cluster tfidf_cosine min_similarity vulns in
      let graph := build_graph vulns in
      ns ← nx.nodes_data graph;
      Ok (mk_correlation (map (map Vulnerability.id) groups)
                         (mk_graph_data ns (nx.edges graph)))
  end.

(** What the clustering loop has built after its first [k] turns: the
    groups are the clusters of [anchors], [used] collects their members,
    and a position below [k] is an anchor exactly when it has a match and
    lies in no cluster of an earlier anchor. *)
Definition cluster_inv (vulns : list Vulnerability.t)
    (similarity_matrix : nat -> nat -> Q) (min_similarity : Q) (n k : nat)
    (st : list (list Vulnerability.t) * gset nat) (anchors : list nat) : Prop :=
  Forall2 (Forall2 (fun v i => vulns !! i = Some v)) st.1
          ((fun a => a :: similar_indices similarity_matrix min_similarity n a)
             <$> anchors)
  /\ (forall x, x ∈ st.2 <->
        exists a, a ∈ anchors
                  /\ (x = a \/ x ∈ similar_indices similarity_matrix min_similarity n a))
  /\ StronglySorted lt anchors
  /\ (forall a, a ∈ anchors -> (a < k)%nat)
  /\ (forall i, (i < k)%nat ->
        (i ∈ anchors <->
         similar_indices similarity_matrix min_similarity n i <> []
         /\ forall a, a ∈ anchors -> (a < i)%nat ->
              i ∉ similar_indices similarity_matrix min_similarity n a)).

(** *** Risk assessment *)

Record RiskReport : Type := mk_risk {
  risk_level : string;
  risk_score : Q;
  max_cvss_score : option Q;
  active_vulnerabilities : nat;
  fixed_vulnerabilities : nat;
  latest_vulnerability : option string;
  recommendation : string
}.

(** Rounding to the nearest integer, ties to even. *)
Definition round_half_even (q : Q) : Z :=
  let f := Qfloor q in
  match (q - inject_Z f ?= 1 # 2)%Q with
  | Lt => f
  | Gt => f + 1
  | Eq => if Z.even f then f else f + 1
  end.

(** [round(q, 2)] *)
Definition round2 (q : Q) : Q := (round_half_even (q * 100) # 100)%Q.

(** The version filter: a vulnerability is kept once for every package
    entry that matches. *)
Definition version_vulns (package_name version : string)
    (vulns : list Vulnerability.t) : list Vulnerability.t :=
  flat_map
    (fun vuln =>
       map (fun _ => vuln)
           (List.filter
              (fun pkg => String.eqb (Package.name pkg) package_name
                          && Package.is_affected pkg version)
              (Vulnerability.affected_packages vuln)))
    vulns.

Record RiskState : Type := mk_state {
  total_score : Q;
  max_score : Q;
  active_count : nat;
  fixed_count : nat;
  latest_vuln : option Vulnerability.t
}.

Definition newer (vuln latest : Vulnerability.t) : bool :=
  match Vulnerability.published_date vuln, Vulnerability.published_date latest with
  | Some a, Some b => (b <? a)%Z
  | _, _ => false
  end.

(** The best available CVSS base score of a vulnerability, if any. *)
Definition cvss_score (vuln : Vulnerability.t) : option Q :=
  match Vulnerability.cvss_v3 vuln with
  | Some m => Some (CVSSMetrics.base_score m)
  | None =>
      match Vulnerability.cvss_v2 vuln with
      | Some m => Some (CVSSMetrics.base_score m)
      | None => None
      end
  end.

Definition is_fixed (package_name : string) (vuln : Vulnerability.t) : bool :=
  existsb (fun pkg => String.eqb (Package.name pkg) package_name
                      && negb (bool_decide (Package.fixed_versions pkg = [])))
          (Vulnerability.affected_packages vuln).

(** One turn of the scoring loop. *)
Definition risk_step (package_name : string) (st : RiskState)
    (vuln : Vulnerability.t) : RiskState :=
  let latest :=
    match latest_vuln st with
    | None => Some vuln
    | Some l => if newer vuln l then Some vuln else Some l
    end in
  let fixed := is_fixed package_name vuln in
  let score := default 0%Q (cvss_score vuln) in
  mk_state (total_score st + score)%Q
           (if Qle_bool score (max_score st) then max_score st else score)
           (if fixed then active_count st else S (active_count st))
           (if fixed then S (fixed_count st) else fixed_count st)
           latest.

Definition level_of (risk_score : Q) : string :=
  if Qle_bool 7 risk_score then "high"
  else if Qle_bool 4 risk_score then "medium"
  else if negb (Qle_bool risk_score 0) then "low"
  else "unknown".

Definition recommendation_of (risk_level : string) : string :=
  if String.eqb risk_level "high" then
    "Immediate action recommended. Update to the latest version or implement security controls."
  else if String.eqb risk_level "medium" then
    "Update recommended. Review and patch vulnerabilities based on your security policy."
  else if String.eqb risk_level "low" then
    "Monitor for updates. Update during your regular maintenance window."
  else
    "No known vulnerabilities. Continue monitoring for new security advisories.".

(** [assess_risk]; [db_vulns] is what [db.get_affected_packages] answers
    for [package_name]. *)
Definition assess_risk (db_vulns : list Vulnerability.t)
    (package_name : string) (version : option string) : RiskReport :=
  match db_vulns with
  | [] => mk_risk "unknown" 0 None 0 0 None "No known vulnerabilities"
  | _ =>
      let vulns :=
        match version with
        | Some ver => if PyStr.truthy ver
                      then version_vulns package_name ver db_vulns else db_vulns
        | None => db_vulns
        end in
      let st := fold_left (risk_step package_name) vulns
                          (mk_state 0 0 0 0 None) in
      let score :=
        match vulns with
        | [] => 0%Q
        | _ => (total_score st / inject_Z (Z.of_nat (length vulns)))%Q
        end in
      let level := level_of score in
      mk_risk level (round2 score) (Some (round2 (max_score st)))
              (active_count st) (fixed_count st)
              (Vulnerability.id <$> latest_vuln st)
              (recommendation_of level)
  end.

End AnalyzerService.

(** ** Raw NVD records

    The JSON document of one CVE as the NVD API answers it.  A key that
    may be missing is an [option]; the readers below apply the defaults
    of [dict.get]. *)

Module Raw.

Record Description : Type := mk_description {
  lang : option string;
  value : option string
}.

Record CvssData : Type := mk_cvss_data {
  cd_version : option string;
  vectorString : option string;
  baseScore : option Q;
  cd_baseSeverity : option string
}.

Record Metric : Type := mk_metric {
  cvssData : option CvssData;
  baseSeverity : option string;
  exploitabilityScore : option Q;
  impactScore : option Q
}.

Record Metrics : Type := mk_metrics {
  cvssMetricV31 : option (list Metric);
  cvssMetricV30 : option (list Metric);
  cvssMetricV2 : option (list Metric)
}.

Record Weakness : Type := mk_weakness {
  description : option (list Description)
}.

Record Reference : Type := mk_reference {
  url : option string;
  source : option string;
  tags : option (list string)
}.

Record CpeMatch : Type := mk_cpe_match {
  cpe23Uri : option string;
  criteria : option string;
  vulnerable : option bool;
  versionStartIncluding : option string;
  versionStartExcluding : option string;
  versionEndIncluding : option string;
  versionEndExcluding : option string
}.

(** A configuration node: its own matches and its child nodes (an absent
    key reads as the empty list). *)
#[warnings="-register-all"]
Inductive Node : Type :=
| mk_node (cpeMatch : list CpeMatch) (children : list Node).

Record Configuration : Type := mk_configuration {
  nodes : list Node
}.

Record Cve : Type := mk_cve {
  id : option string;
  published : option string;
  lastModified : option string;
  vulnStatus : option string;
  descriptions : option (list Description);
  metrics : option Metrics;
  weaknesses : option (list Weakness);
  references : option (list Reference);
  configurations : option (list Configuration)
}.

Definition empty_cve : Cve :=
  mk_cve None None None None None None None None None.

Definition empty_metrics : Metrics := mk_metrics None None None.

Definition empty_metric : Metric := mk_metric None None None None.

Definition empty_cvss_data : CvssData := mk_cvss_data None None None None.

Record Record_ : Type := mk_record {
  cve : option Cve
}.

(** The record has no [id] key. *)
Definition lacks_identifier (data : Record_) : Prop :=
  id (default empty_cve (cve data)) = None.

(** The value under [metrics.cvssMetricV31], if the key is there. *)
Definition metrics_v31 (data : Record_) : option (list Metric) :=
  cvssMetricV31 (default empty_metrics (metrics (default empty_cve (cve data)))).

End Raw.

(** ** NVD model (src/models/nvd.py) *)

Module NVD.

Record NVDData : Type := mk {
  id : option string;
  published : Z;
  lastModified : Z;
  vulnStatus : option string;
  descriptions : list Raw.Description;
  metrics : Raw.Metrics;
  references : list Raw.Reference;
  configurations : list Raw.Configuration
}.

(** [datetime.fromisoformat(x)]: a missing value is a [TypeError], a
    string that is not a date a [ValueError]. *)
Definition parse_date (fromisoformat : string -> option Z)
    (x : option string) : result Z :=
  match x with
  | None => Raise TypeError
  | Some s =>
      match fromisoformat s with
      | Some t => Ok t
      | None => Raise (ValueError "Invalid isoformat string")
      end
  end.

(** [NVDData.from_dict] *)
Definition from_dict (fromisoformat : string -> option Z)
    (data : Raw.Record_) : result NVDData :=
  let cve := default Raw.empty_cve (Raw.cve data) in
  published ← parse_date fromisoformat (Raw.published cve);
  lastModified ← parse_date fromisoformat (Raw.lastModified cve);
  Ok (mk (Raw.id cve) published lastModified (Raw.vulnStatus cve)
         (default [] (Raw.descriptions cve))
         (default Raw.empty_metrics (Raw.metrics cve))
         (default [] (Raw.references cve))
         (default [] (Raw.configurations cve))).

(** [pkg.versions.append(ver)] on the first package called [pkg_name]. *)
Fixpoint append_version (pkg_name : string) (ver : Version.t)
    (packages : list Package.t) : list Package.t :=
  match packages with
  | [] => []
  | p :: ps =>
      if String.eqb (Package.name p) pkg_name
      then Package.mk (Package.name p) (Package.ecosystem p) (Package.platform p)
             (Package.versions p ++ [ver])
             (Package.affected_versions p) (Package.fixed_versions p) :: ps
      else p :: append_version pkg_name ver ps
  end.

(** The body of the loop over [cpeMatch] in [process_node]. *)
Definition process_cpe_match (packages : list Package.t)
    (cpe_match : Raw.CpeMatch) : list Package.t :=
  let cpe := default "" (Raw.cpe23Uri cpe_match) in
  if negb (PyStr.truthy cpe) then packages
  else
    match PyStr.split_on ":" cpe with
    | _ :: _ :: part :: vendor :: product :: rest =>
        let version := match rest with v :: _ => v | [] => "*" end in
        let pkg_name := vendor +:+ "/" +:+ product in
        let packages1 :=
          if existsb (fun p => String.eqb (Package.name p) pkg_name) packages
          then packages
          else packages ++ [Package.mk pkg_name (Some "cpe") (Some part) [] [] []] in
        if negb (String.eqb version "*")
        then append_version pkg_name
               (Version.mk version None None
                  (if default true (Raw.vulnerable cpe_match)
                   then "affected" else "fixed") [])
               packages1
        else packages1
    | _ => packages   (* fewer than 5 segments *)
    end.

(** [process_node]: the matches of the node, then its children in order. *)
Fixpoint process_node (node : Raw.Node) (packages : list Package.t)
  : list Package.t :=
  match node with
  | Raw.mk_node cpeMatch children =>
      fold_left (fun acc child => process_node child acc) children
                (fold_left process_cpe_match cpeMatch packages)
  end.

(** [NVDData._extract_affected_packages] *)
Definition _extract_affected_packages (configurations : list Raw.Configuration)
  : list Package.t :=
  fold_left
    (fun acc config =>
       fold_left (fun acc' node => process_node node acc') (Raw.nodes config) acc)
    configurations [].

End NVD.

(** ** NVD object of the graph loader (source/model/NVD_OBJ.py) *)

Module NVD_OBJ.

Record RefDict : Type := mk_ref {
  url : string;
  source : string;
  tags : list string
}.

Record NVDData : Type := mk {
  cve_id : string;
  description : string;
  published_date : string;
  last_modified_date : string;
  cvss_v3_vector : string;
  cvss_v3_base_score : Q;
  cwe_id : option string;
  references : list RefDict;
  configurations : list Raw.Configuration
}.

(** [next((d.get('value', '') for d in ds if d.get('lang') == 'en'), '')] *)
Definition english_description (ds : list Raw.Description) : string :=
  match List.find (fun d => bool_decide (Raw.lang d = Some "en")) ds with
  | Some d => default "" (Raw.value d)
  | None => ""
  end.

(** The first English weakness description starting with [CWE-], cut at
    its first colon and trimmed. *)
Definition first_cwe (ws : list Raw.Weakness) : option string :=
  match
    List.find
      (fun d => bool_decide (Raw.lang d = Some "en")
                && PyStr.startswith "CWE-" (default "" (Raw.value d)))
      (flat_map (fun w => default [] (Raw.description w)) ws)
  with
  | Some d =>
      Some (PyStr.strip
              (hd "" (PyStr.split_on ":" (default "" (Raw.value d)))))
  | None => None
  end.

(** [NVDData.from_json] *)
Definition from_json (data : Raw.Record_) : result NVDData :=
  let cve_item := default Raw.empty_cve (Raw.cve data) in
  let description := english_description (default [] (Raw.descriptions cve_item)) in
  metrics ←
    match default [Raw.empty_metric]
            (Raw.cvssMetricV31 (default Raw.empty_metrics (Raw.metrics cve_item))) with
    | m :: _ => Ok m
    | [] => Raise IndexError
    end;
  let cvss_data := default Raw.empty_cvss_data (Raw.cvssData metrics) in
  let cwe_id := first_cwe (default [] (Raw.weaknesses cve_item)) in
  let references :=
    map (fun ref => mk_ref (default "" (Raw.url ref))
                           (default "" (Raw.source ref))
                           (default [] (Raw.tags ref)))
        (default [] (Raw.references cve_item)) in
  Ok (mk (default "" (Raw.id cve_item))
         description
         (default "" (Raw.published cve_item))
         (default "" (Raw.lastModified cve_item))
         (default "" (Raw.vectorString cvss_data))
         (default 0%Q (Raw.baseScore cvss_data))
         cwe_id
         references
         (default [] (Raw.configurations cve_item))).

End NVD_OBJ.

(** ** Patch classification (source/model/entities.py) *)

Module Patch.

Definition patch_keywords : list string :=
  ["patch"; "fix"; "update"; "resolve"; "mitigate"].

(** [Patch.is_likely_patch] *)
Definition is_likely_patch (url : string) (tags : list string) : bool :=
  let url_lower := PyStr.lower url in
  existsb (fun keyword => PyStr.contains keyword url_lower) patch_keywords
  || PyStr.mem "Patch" tags.

End Patch.

(** ** What the specification says, where it differs from the code

    The definitions of this module follow the words of the specification;
    they are compared with the code below. *)

Module Spec.

(** Section 4.5: the arithmetic mean of the best-available base scores,
    vulnerabilities without a score being excluded from numerator and
    denominator. *)
Definition risk_score (vulns : list Vulnerability.t) : Q :=
  let scores := omap AnalyzerService.cvss_score vulns in
  match scores with
  | [] => 0%Q
  | _ => (fold_right Qplus 0 scores / inject_Z (Z.of_nat (length scores)))%Q
  end.

(** Section 4.5: [high] from 7.0, [medium] from 4.0, [low] above 0. *)
Definition risk_level (score : Q) : string :=
  if Qle_bool 7 score then "high"
  else if Qle_bool 4 score then "medium"
  else if negb (Qle_bool score 0) then "low"
  else "unknown".

(** Section 4.1: the URL or the tag set contains a keyword (case-insensitive
    substring match), or the tag set has an explicit [Patch] tag. *)
Definition is_likely_patch (url : string) (tags : list string) : bool :=
  existsb
    (fun keyword =>
       PyStr.contains keyword (PyStr.lower url)
       || existsb (fun tag => PyStr.contains keyword (PyStr.lower tag)) tags)
    Patch.patch_keywords
  || PyStr.mem "Patch" tags.

(** Section 4.4: the matches of an anchor are the not-yet-assigned records
    whose similarity to it reaches the threshold. *)
Definition unassigned_matches (similarity_matrix : nat -> nat -> Q)
    (min_similarity : Q) (n : nat) (used : gset nat) (i : nat) : list nat :=
  List.filter
    (fun j => negb (i =? j)%nat && negb (bool_decide (j ∈ used))
              && Qle_bool min_similarity (similarity_matrix i j))
    (seq 0 n).

Definition cluster_step (similarity_matrix : nat -> nat -> Q)
    (min_similarity : Q) (n : nat) (st : list (list nat) * gset nat) (i : nat)
  : list (list nat) * gset nat :=
  let '(groups, used) := st in
  if bool_decide (i ∈ used) then st
  else
    match unassigned_matches similarity_matrix min_similarity n used i with
    | [] => st
    | ms => (groups ++ [i :: ms], list_to_set ms ∪ ({[i]} ∪ used))
    end.

(** The clusters of section 4.4, as lists of positions in the input. *)
Definition clusters (similarity_matrix : nat -> nat -> Q)
    (min_similarity : Q) (n : nat) : list (list nat) :=
  fst (fold_left (cluster_step similarity_matrix min_similarity n)
                 (seq 0 n) ([], ∅)).

(** Section 8: the later of two optional time stamps. *)
Definition max_date (a b : option Z) : option Z :=
  match a, b with
  | Some x, Some y => Some (Z.max x y)
  | Some x, None => Some x
  | None, y => y
  end.

End Spec.

(** ** Sample data *)

Module Samples.

Definition vuln (id : string) : Vulnerability.t :=
  Vulnerability.mk id "NVD" None None None None None None None None
    "unknown" None [] [] [] [] [] ∅.

Definition cvss3 (score : Q) : CVSSMetrics.t :=
  CVSSMetrics.mk "3.1" "" score None None None None.

Definition with_v3 (v : Vulnerability.t) (score : Q) : Vulnerability.t :=
  Vulnerability.mk (Vulnerability.id v) (Vulnerability.source v)
    (Vulnerability.title v) (Vulnerability.description v)
    (Vulnerability.published_date v) (Vulnerability.last_modified_date v)
    (Vulnerability.discovered_date v) (Vulnerability.severity v)
    (Some (cvss3 score)) (Vulnerability.cvss_v2 v)
    (Vulnerability.status v) (Vulnerability.scope v)
    (Vulnerability.affected_packages v) (Vulnerability.affected_configurations v)
    (Vulnerability.references v) (Vulnerability.patches v)
    (Vulnerability.notes v) (Vulnerability.raw_data v).

Definition with_text (v : Vulnerability.t) (title description : option string)
  : Vulnerability.t :=
  Vulnerability.mk (Vulnerability.id v) (Vulnerability.source v)
    title description
    (Vulnerability.published_date v) (Vulnerability.last_modified_date v)
    (Vulnerability.discovered_date v) (Vulnerability.severity v)
    (Vulnerability.cvss_v3 v) (Vulnerability.cvss_v2 v)
    (Vulnerability.status v) (Vulnerability.scope v)
    (Vulnerability.affected_packages v) (Vulnerability.affected_configurations v)
    (Vulnerability.references v) (Vulnerability.patches v)
    (Vulnerability.notes v) (Vulnerability.raw_data v).

Definition with_packages (v : Vulnerability.t) (pkgs : list Package.t)
  : Vulnerability.t :=
  Vulnerability.mk (Vulnerability.id v) (Vulnerability.source v)
    (Vulnerability.title v) (Vulnerability.description v)
    (Vulnerability.published_date v) (Vulnerability.last_modified_date v)
    (Vulnerability.discovered_date v) (Vulnerability.severity v)
    (Vulnerability.cvss_v3 v) (Vulnerability.cvss_v2 v)
    (Vulnerability.status v) (Vulnerability.scope v)
    pkgs (Vulnerability.affected_configurations v)
    (Vulnerability.references v) (Vulnerability.patches v)
    (Vulnerability.notes v) (Vulnerability.raw_data v).

Definition with_references (v : Vulnerability.t) (refs : list Reference.t)
  : Vulnerability.t :=
  Vulnerability.mk (Vulnerability.id v) (Vulnerability.source v)
    (Vulnerability.title v) (Vulnerability.description v)
    (Vulnerability.published_date v) (Vulnerability.last_modified_date v)
    (Vulnerability.discovered_date v) (Vulnerability.severity v)
    (Vulnerability.cvss_v3 v) (Vulnerability.cvss_v2 v)
    (Vulnerability.status v) (Vulnerability.scope v)
    (Vulnerability.affected_packages v) (Vulnerability.affected_configurations v)
    refs (Vulnerability.patches v)
    (Vulnerability.notes v) (Vulnerability.raw_data v).

Definition pkg (name : string) (ecosystem platform : option string) : Package.t :=
  Package.mk name ecosystem platform [] [] [].

Definition ref (url : string) : Reference.t :=
  Reference.mk url "unknown" "other" [].

(** Three vulnerabilities of one package, scored 9.0, 5.0 and not at all. *)
Definition scored_9_5_none : list Vulnerability.t :=
  [ with_v3 (with_packages (vuln "CVE-1") [pkg "lodash" (Some "npm") None]) 9;
    with_v3 (with_packages (vuln "CVE-2") [pkg "lodash" (Some "npm") None]) 5;
    with_packages (vuln "CVE-3") [pkg "lodash" (Some "npm") None] ].

(** The two references of the usage note at the end of cleaner.py. *)
Definition two_schemes : list Reference.t :=
  [ ref "example.com/a"; ref "http://example.com/a" ].

(** Two records of one vulnerability with different titles and
    descriptions. *)
Definition first_a : Vulnerability.t :=
  with_text (vuln "CVE-1") (Some "A") (Some "first").

Definition first_b : Vulnerability.t :=
  with_text (vuln "CVE-1") (Some "B") (Some "second").

Definition cpe_match (cpe : string) : Raw.CpeMatch :=
  Raw.mk_cpe_match (Some cpe) None None None None None None.

Definition one_match (cpe : string) : list Raw.Configuration :=
  [ Raw.mk_configuration [ Raw.mk_node [ cpe_match cpe ] [] ] ].

(** A record without identifier: dates and an English description only. *)
Definition no_id_record : Raw.Record_ :=
  Raw.mk_record
    (Some (Raw.mk_cve None (Some "2024-01-01T00:00:00") (Some "2024-01-02T00:00:00")
             (Some "Analyzed")
             (Some [Raw.mk_description (Some "en") (Some "Buffer overflow in widget")])
             None None None None)).

Definition described (id description : string) (pkgs : list Package.t)
  : Vulnerability.t :=
  with_packages (with_text (vuln id) None (Some description)) pkgs.

(** Three advisories with usable descriptions, and a similarity matrix
    standing for the answer of the vectoriser: the second advisory
    resembles the first and the third (0.85), the first and the third do
    not resemble each other (0.45). *)
Definition chain : list Vulnerability.t :=
  [ described "CVE-1" "heap overflow in image parser" [];
    described "CVE-2" "heap overflow in image decoder" [];
    described "CVE-3" "stack overflow in image decoder" [] ].

Definition chain_similarity (i j : nat) : Q :=
  if (i =? j)%nat then 1
  else if (i + j =? 2)%nat then 45 # 100
  else 85 # 100.

Definition chain_cosine (ds : list string) : option (nat -> nat -> Q) :=
  Some chain_similarity.

(** A vectoriser that raises. *)
Definition failing_cosine (ds : list string) : option (nat -> nat -> Q) :=
  None.


(** Two packages of one ecosystem. *)
Definition shared_ecosystem : list Vulnerability.t :=
  [ described "CVE-1" "prototype pollution in merge helper"
      [pkg "lodash" (Some "npm") None; pkg "minimist" (Some "npm") None] ].

(** An advisory without description in front of two similar ones. *)
Definition misaligned : list Vulnerability.t :=
  [ vuln "CVE-0";
    described "CVE-1" "heap overflow in image parser" [];
    described "CVE-2" "heap overflow in image decoder" [] ].

(** Descriptions and references on which a second cleaning changes the
    record again. *)
Definition tag_only : Vulnerability.t :=
  with_text (vuln "CVE-1") None (Some "<br>").

Definition control_char : Vulnerability.t :=
  with_text (vuln "CVE-1") None (Some ("a " +:+ String "000" " b")).

Definition slash_only : Vulnerability.t :=
  with_references (vuln "CVE-1") [ref "/"].

(** A record with markup and a double space in its description. *)
Definition tidy : Vulnerability.t :=
  with_references
    (with_text (vuln "CVE-1") None (Some "Buffer <b>overflow</b>  in parser"))
    two_schemes.

End Samples.

(** ** Notions used to state the properties of merging *)

Module Merging.

Definition package_names (ps : list Package.t) : list string := Package.name <$> ps.

Definition reference_urls (rs : list Reference.t) : list string := Reference.url <$> rs.

(** The first non-empty text of a list, or its head when there is none. *)
Definition first_text (t0 : option string) (rest : list (option string))
  : option string :=
  match List.find PyStr.truthy_opt (t0 :: rest) with
  | Some t => t
  | None => t0
  end.

(** The first score object of a list. *)
Definition first_cvss (cs : list (option CVSSMetrics.t)) : option CVSSMetrics.t :=
  match List.find Vulnerability.present cs with
  | Some c => c
  | None => None
  end.

(** The latest of a list of optional time stamps. *)
Definition latest_date (ds : list (option Z)) : option Z :=
  foldr Spec.max_date None ds.

(** The key under which [clean_vulnerability] de-duplicates a patch. *)
Definition patch_url (p : gmap string string) : string :=
  PyStr.strip (default "" (p !! "url")).

End Merging.

(** ** Cleaning a whole database (src/services/cleaner.py, [clean_all]) *)

Module CleanAll.

(** The statistics dictionary. *)
Record Stats : Type := mk_stats {
  total : nat;
  cleaned : nat;
  merged : nat;
  failed : nat
}.

Definition add_cleaned (s : Stats) (n : nat) : Stats :=
  mk_stats (total s) (cleaned s + n) (merged s) (failed s).

Definition add_merged (s : Stats) : Stats :=
  mk_stats (total s) (cleaned s) (merged s + 1) (failed s).

Definition add_failed (s : Stats) : Stats :=
  mk_stats (total s) (cleaned s) (merged s) (failed s + 1).

(** [vuln_groups.setdefault(vuln.id, []).append(vuln)] on a dictionary kept
    in insertion order. *)
Fixpoint group_append (groups : list (string * list Vulnerability.t))
    (vuln : Vulnerability.t) : list (string * list Vulnerability.t) :=
  match groups with
  | [] => [(Vulnerability.id vuln, [vuln])]
  | (k, g) :: rest =>
      if String.eqb k (Vulnerability.id vuln) then (k, g ++ [vuln]) :: rest
      else (k, g) :: group_append rest vuln
  end.

Definition group_by_id (vulns : list Vulnerability.t)
  : list (string * list Vulnerability.t) :=
  fold_left group_append vulns [].

Section Database.

(** The database is a collaborator: a state [DB], a query that may raise
    and an update that either raises, leaving the state as it was (the
    session is rolled back), or yields the next state. *)
Context {DB : Type}.
Variable get_vulnerabilities :
  DB -> option string -> option Z -> option Z -> result (list Vulnerability.t).
Variable update_vulnerability : DB -> Vulnerability.t -> result DB.

(** One turn of the loop over the groups, with its [try]/[except]. *)
Definition clean_group (st : Stats * DB) (group : list Vulnerability.t)
  : Stats * DB :=
  let '(stats, db) := st in
  let cleaned_group := CleanerService.clean_vulnerability <$> group in
  let stats := add_cleaned stats (length cleaned_group) in
  if (1 <? length cleaned_group)%nat then
    match CleanerService.merge_vulnerabilities cleaned_group with
    | Raise _ => (add_failed stats, db)
    | Ok merged_vuln =>
        let stats := add_merged stats in
        match update_vulnerability db merged_vuln with
        | Raise _ => (add_failed stats, db)
        | Ok db' => (stats, db')
        end
    end
  else
    match cleaned_group with
    | [] => (add_failed stats, db)
    | first :: _ =>
        match update_vulnerability db first with
        | Raise _ => (add_failed stats, db)
        | Ok db' => (stats, db')
        end
    end.

Definition clean_all (db : DB) (start_date end_date : option Z)
    (source : option string) : result (Stats * DB) :=
  vulns ← get_vulnerabilities db source start_date end_date;
  let stats := mk_stats (length vulns) 0 0 0 in
  Ok (fold_left clean_group (snd <$> group_by_id vulns) (stats, db)).

(** The state after a call of the update, which leaves it as it was when
    it raises. *)
Definition apply_update (db : DB) (v : Vulnerability.t) : DB :=
  match update_vulnerability db v with
  | Ok db' => db'
  | Raise _ => db
  end.

End Database.

(** *** Notions used to state the properties of [clean_all] *)

Definition with_id (k : string) (vulns : list Vulnerability.t)
  : list Vulnerability.t :=
  filter (fun v => Vulnerability.id v = k) vulns.

Definition group_sizes (groups : list (string * list Vulnerability.t)) : list nat :=
  (fun kg => length (snd kg)) <$> groups.

(** A group is not empty and all its records carry its key. *)
Definition uniform (kg : string * list Vulnerability.t) : Prop :=
  snd kg <> [] /\ Forall (fun v => Vulnerability.id v = fst kg) (snd kg).

(** [r] is the record that [clean_all] sends to the database for the
    group: the merge of its cleaned records. *)
Definition written (kg : string * list Vulnerability.t) (r : Vulnerability.t) : Prop :=
  CleanerService.merge_vulnerabilities (CleanerService.clean_vulnerability <$> snd kg)
  = Ok r
  /\ Vulnerability.id r = fst kg.

End CleanAll.

(** ** Notions used to state the properties of the package extraction *)

Module Extraction.

(** The matches of a node and of its descendants, in the order in which
    [process_node] visits them. *)
Fixpoint node_matches (node : Raw.Node) : list Raw.CpeMatch :=
  match node with
  | Raw.mk_node cpeMatch children => cpeMatch ++ flat_map node_matches children
  end.

Definition all_matches (configurations : list Raw.Configuration)
  : list Raw.CpeMatch :=
  flat_map (fun config => flat_map node_matches (Raw.nodes config)) configurations.

(** What every package built by [_extract_affected_packages] looks like. *)
Definition cpe_package (p : Package.t) : Prop :=
  Package.ecosystem p = Some "cpe"
  /\ is_Some (Package.platform p)
  /\ Package.affected_versions p = []
  /\ Package.fixed_versions p = []
  /\ Forall (fun v => Version.version v <> "*"
                      /\ (Version.status v = "affected" \/ Version.status v = "fixed"))
            (Package.versions p).

End Extraction.

(** ** Impact and statistics reports (src/services/analyzer.py) *)

Module Reports.

(** [counts[key] += 1] on a [Counter] or a [defaultdict(int)]. *)
Definition increment (counts : gmap string nat) (key : string) : gmap string nat :=
  <[key := S (default 0%nat (counts !! key))]> counts.

(** [Counter(xs)] *)
Definition Counter (xs : list string) : gmap string nat :=
  fold_left increment xs ∅.

Record ImpactReport : Type := mk_impact {
  total_vulnerabilities : nat;
  severity_distribution : gmap string nat;
  affected_versions : gmap string nat;
  fixed_versions : gmap string nat;
  impact_score : Q
}.

(** The vulnerabilities that [analyze_impacts] looks at; the two arguments
    are what [db.get_affected_packages] and [db.get_vulnerabilities]
    answer. *)
Definition impact_vulns (get_affected_packages : string -> list Vulnerability.t)
    (get_vulnerabilities : list Vulnerability.t)
    (package_name ecosystem : option string) : list Vulnerability.t :=
  if PyStr.truthy_opt package_name
  then get_affected_packages (default "" package_name)
  else
    if PyStr.truthy_opt ecosystem
    then List.filter
           (fun v => existsb (fun p => bool_decide (Package.ecosystem p = ecosystem))
                             (Vulnerability.affected_packages v))
           get_vulnerabilities
    else get_vulnerabilities.

(** The package entries whose versions are counted. *)
Definition counted_packages (package_name ecosystem : option string)
    (vulns : list Vulnerability.t) : list Package.t :=
  List.filter
    (fun pkg =>
       negb (PyStr.truthy_opt package_name
             && negb (bool_decide (Some (Package.name pkg) = package_name)))
       && negb (PyStr.truthy_opt ecosystem
                && negb (bool_decide (Package.ecosystem pkg = ecosystem))))
    (flat_map Vulnerability.affected_packages vulns).

(** The loop that adds up the scores: the running total and the number of
    scored vulnerabilities. *)
Definition impact_step (acc : Q * nat) (vuln : Vulnerability.t) : Q * nat :=
  match Vulnerability.cvss_v3 vuln with
  | Some m => (fst acc + CVSSMetrics.base_score m, S (snd acc))%Q
  | None =>
      match Vulnerability.cvss_v2 vuln with
      | Some m => (fst acc + CVSSMetrics.base_score m, S (snd acc))%Q
      | None => acc
      end
  end.

(** [analyze_impacts] *)
Definition analyze_impacts (get_affected_packages : string -> list Vulnerability.t)
    (get_vulnerabilities : list Vulnerability.t)
    (package_name ecosystem : option string) : ImpactReport :=
  let vulns := impact_vulns get_affected_packages get_vulnerabilities
                 package_name ecosystem in
  match vulns with
  | [] => mk_impact 0 ∅ ∅ ∅ 0
  | _ =>
      let severity_counts :=
        Counter (List.filter PyStr.truthy (omap Vulnerability.severity vulns)) in
      let pkgs := counted_packages package_name ecosystem vulns in
      let affected := fold_left increment (flat_map Package.affected_versions pkgs) ∅ in
      let fixed := fold_left increment (flat_map Package.fixed_versions pkgs) ∅ in
      let '(total_score, count) := fold_left impact_step vulns (0%Q, 0%nat) in
      let score :=
        if (0 <? count)%nat then (total_score / inject_Z (Z.of_nat count))%Q else 0%Q in
      mk_impact (length vulns) severity_counts affected fixed
                (AnalyzerService.round2 score)
  end.

(** The branch of [get_score_distribution] (nested in
    [analyze_statistics]) that a score takes. *)
Definition bucket (score : Q) : string :=
  if Qle_bool score (39 # 10) then "0-3.9"
  else if Qle_bool score (69 # 10) then "4.0-6.9"
  else if Qle_bool score (89 # 10) then "7.0-8.9"
  else "9.0-10.0".

Definition get_score_distribution (scores : list Q) : gmap string nat :=
  fold_left (fun dist score => increment dist (bucket score)) scores ∅.

(** *** Notions used to state the properties of the reports *)

(** The number of times [key] occurs in [xs]. *)
Definition occurrences (key : string) (xs : list string) : nat :=
  length (List.filter (String.eqb key) xs).

Definition bucket_labels : list string :=
  ["0-3.9"; "4.0-6.9"; "7.0-8.9"; "9.0-10.0"].

Definition sum_scores (scores : list Q) : Q := fold_right Qplus 0%Q scores.

(** The score that [assess_risk] adds for a vulnerability: its best
    available base score, or 0. *)
Definition score_of (vuln : Vulnerability.t) : Q :=
  default 0%Q (AnalyzerService.cvss_score vuln).

(** The records that the scoring loop of [assess_risk] visits. *)
Definition considered (db_vulns : list Vulnerability.t) (package_name : string)
    (version : option string) : list Vulnerability.t :=
  match version with
  | Some ver => if PyStr.truthy ver
                then AnalyzerService.version_vulns package_name ver db_vulns
                else db_vulns
  | None => db_vulns
  end.

(** A group with at least two members. *)
Definition has_pair {A : Type} (g : list A) : Prop := (2 <= length g)%nat.

End Reports.

(** ** Graph loader (source/model/entities.py) *)

Module Loader.

Record Component : Type := mk_component {
  cpe23Uri : string;
  vendor : string;
  product : string
}.

Record Version : Type := mk_version {
  version : string;
  v_cpe23Uri : string;
  version_start_including : option string;
  version_start_excluding : option string;
  version_end_including : option string;
  version_end_excluding : option string
}.

Record Patch : Type := mk_patch {
  patch_id : string;
  patch_url : string
}.

(** A call of a method of the Neo4j connector. *)
Inductive Call : Type :=
| create_component (component : Component)
| create_version (version : Version)
| create_patch (patch : Patch)
| create_relationship (from_key from_value to_key to_value relationship_type : string).

(** The matches the loop of [process_component] runs over for one node:
    its own, or, when it has none, those of its children. *)
Definition cpe_matches (node : Raw.Node) : list Raw.CpeMatch :=
  match node with
  | Raw.mk_node cpeMatch children =>
      match cpeMatch with
      | [] => flat_map (fun child => match child with
                                     | Raw.mk_node ms _ => ms
                                     end) children
      | _ => cpeMatch
      end
  end.

(** The body of the loop over [cpe_matches]: the calls made for one
    match. *)
Definition process_cpe_match (cve_id : string) (cpe_match : Raw.CpeMatch)
  : list Call :=
  if default true (Raw.vulnerable cpe_match) then
    match Raw.criteria cpe_match with
    | Some uri =>
        if PyStr.truthy uri then
          match PyStr.split_on ":" uri with
          | _ :: _ :: _ :: vendor :: product :: version_str :: _ =>
              let version_str :=
                if String.eqb version_str "*" then "All Versions" else version_str in
              [ create_component (mk_component uri vendor product);
                create_version
                  (mk_version version_str uri
                     (Raw.versionStartIncluding cpe_match)
                     (Raw.versionStartExcluding cpe_match)
                     (Raw.versionEndIncluding cpe_match)
                     (Raw.versionEndExcluding cpe_match));
                create_relationship "cve_id" cve_id "cpe23Uri" uri "AFFECTS" ]
          | _ => []
          end
        else []
    | None => []
    end
  else [].

(** [Component.process_component]: the calls it makes on the connector,
    in order. *)
Definition process_component (nvd_obj : NVD_OBJ.NVDData) : list Call :=
  flat_map
    (fun config_wrapper =>
       flat_map
         (fun node =>
            flat_map (process_cpe_match (NVD_OBJ.cve_id nvd_obj)) (cpe_matches node))
         (Raw.nodes config_wrapper))
    (NVD_OBJ.configurations nvd_obj).


(** A well-formed group of three calls for one CPE name. *)
Definition affects_triple (cve_id : string) (calls : list Call) : Prop :=
  exists uri vendor product version si se ei ee,
    calls = [ create_component (mk_component uri vendor product);
              create_version (mk_version version uri si se ei ee);
              create_relationship "cve_id" cve_id "cpe23Uri" uri "AFFECTS" ]
    /\ version <> "*"
    /\ (5 < length (PyStr.split_on ":" uri))%nat
    /\ PyStr.split_on ":" uri !! 3%nat = Some vendor
    /\ PyStr.split_on ":" uri !! 4%nat = Some product.

End Loader.

(** ** Sample data of the further properties *)

Module Examples.

Definition with_patches (v : Vulnerability.t) (patches : list (gmap string string))
    (notes : list string) : Vulnerability.t :=
  Vulnerability.mk (Vulnerability.id v) (Vulnerability.source v)
    (Vulnerability.title v) (Vulnerability.description v)
    (Vulnerability.published_date v) (Vulnerability.last_modified_date v)
    (Vulnerability.discovered_date v) (Vulnerability.severity v)
    (Vulnerability.cvss_v3 v) (Vulnerability.cvss_v2 v)
    (Vulnerability.status v) (Vulnerability.scope v)
    (Vulnerability.affected_packages v) (Vulnerability.affected_configurations v)
    (Vulnerability.references v) patches notes (Vulnerability.raw_data v).

Definition patch (url : string) : gmap string string := {[ "url" := url ]}.

(** A record with one patch and one note. *)
Definition patched : Vulnerability.t :=
  with_patches (Samples.vuln "CVE-1") [patch "https://example.com/fix.diff"] ["see advisory"].

(** Two records of one vulnerability with overlapping packages, references
    and notes. *)
Definition record_a : Vulnerability.t :=
  with_patches
    (Samples.with_references
       (Samples.with_packages (Samples.vuln "CVE-1")
          [Samples.pkg "lodash" (Some "npm") None])
       [Samples.ref "https://example.com/a"])
    [] ["first seen"].

Definition record_b : Vulnerability.t :=
  with_patches
    (Samples.with_references
       (Samples.with_packages (Samples.vuln "CVE-1")
          [Samples.pkg "lodash" (Some "npm") None;
           Samples.pkg "minimist" (Some "npm") None])
       [Samples.ref "https://example.com/a"; Samples.ref "https://example.com/b"])
    [] ["first seen"; "confirmed"].

(** Their merge. *)
Definition merged_ab : Vulnerability.t :=
  match Vulnerability.merge record_a record_b with
  | Ok r => r
  | Raise _ => record_a
  end.

(** A package with a version that needs trimming and an affected-version
    list with a blank entry. *)
Definition untidy_package : Package.t :=
  Package.mk " Lodash " (Some "NPM") None
    [Version.mk " 1.0 " None None "affected" []] ["1.0 "; " "] [].

(** A database kept as the list of the records written to it, whose query
    answers the two records of [Samples.first_a] and [Samples.first_b]. *)
Definition log_query (db : list Vulnerability.t) (source : option string)
    (start_date end_date : option Z) : result (list Vulnerability.t) :=
  Ok [Samples.first_a; Samples.first_b].

Definition log_update (db : list Vulnerability.t) (v : Vulnerability.t)
  : result (list Vulnerability.t) :=
  Ok (db ++ [v]).

(** A date parser that accepts every text. *)
Definition any_date (s : string) : option Z := Some 0.

(** A record in the format of the NVD API 2.0, whose matches carry the
    key [criteria] and no key [cpe23Uri]. *)
Definition criteria_match (cpe : string) : Raw.CpeMatch :=
  Raw.mk_cpe_match None (Some cpe) None None None None None.

Definition api2_object : NVD_OBJ.NVDData :=
  NVD_OBJ.mk "CVE-1" "" "" "" "" 0 None []
    [ Raw.mk_configuration
        [ Raw.mk_node [criteria_match "cpe:2.3:a:acme:widget:1.2:*:*:*:*:*:*:*"] [] ] ].

End Examples.

(** * Properties *)

(** ** Frame of [clean_vulnerability] *)

(** C10: [clean_vulnerability] rewrites only the description, the
    references, the affected packages, the patches and the notes; the
    identifier, source, title, severity, both CVSS objects, the three
    dates, status, scope, affected configurations and raw data of the
    record are those of its argument. *)
Theorem clean_vulnerability_frame (v : Vulnerability.t) :
  let v' := CleanerService.clean_vulnerability v in
  Vulnerability.id v' = Vulnerability.id v
  /\ Vulnerability.source v' = Vulnerability.source v
  /\ Vulnerability.title v' = Vulnerability.title v
  /\ Vulnerability.severity v' = Vulnerability.severity v
  /\ Vulnerability.cvss_v2 v' = Vulnerability.cvss_v2 v
  /\ Vulnerability.cvss_v3 v' = Vulnerability.cvss_v3 v
  /\ Vulnerability.published_date v' = Vulnerability.published_date v
  /\ Vulnerability.last_modified_date v' = Vulnerability.last_modified_date v
  /\ Vulnerability.discovered_date v' = Vulnerability.discovered_date v
  /\ Vulnerability.status v' = Vulnerability.status v
  /\ Vulnerability.scope v' = Vulnerability.scope v
  /\ Vulnerability.affected_configurations v'
     = Vulnerability.affected_configurations v
  /\ Vulnerability.raw_data v' = Vulnerability.raw_data v.
Proof.
  destruct v; cbn.
  repeat split.
Qed.

(** ** Risk scoring *)

(** C1, evaluated on the package whose vulnerabilities are scored 9.0, 5.0
    and not at all: [assess_risk] divides the sum 14.0 by the number of
    vulnerabilities (3), so it reports the score 4.67 and the level
    [medium]; the mean over the scored vulnerabilities is 7.0, level
    [high]. *)
Theorem assess_risk_counts_unscored :
  let r := AnalyzerService.assess_risk Samples.scored_9_5_none "lodash" None in
  (AnalyzerService.risk_score r == 467 # 100)%Q
  /\ AnalyzerService.risk_level r = "medium"
  /\ (Spec.risk_score Samples.scored_9_5_none == 7)%Q
  /\ Spec.risk_level (Spec.risk_score Samples.scored_9_5_none) = "high".
Proof.
  repeat split; vm_compute; reflexivity.
Qed.

(** ** Reference cleaning *)

(** C5, evaluated on the references [example.com/a] and
    [http://example.com/a]: the first receives the scheme [https://], the
    second keeps [http://], the two normalised URLs differ and both
    references are kept. *)
Theorem clean_references_keeps_both_schemes :
  CleanerService.clean_references Samples.two_schemes
  = [ Samples.ref "https://example.com/a"; Samples.ref "http://example.com/a" ].
Proof.
  vm_compute. reflexivity.
Qed.

(** ** Substrings and membership *)

Lemma prefix_app (k s : string) :
  String.prefix k s = true <-> exists post, s = k +:+ post.
Proof.
  revert s. induction k as [|c k IH]; intros [|d s]; simpl.
  - split; [intros _; by exists "" | done].
  - split; [intros _; by exists (String d s) | done].
  - split; [discriminate | intros [post H]; discriminate].
  - destruct (ascii_dec c d) as [->|Hne].
    + rewrite IH. split; intros [post H]; exists post.
      * by rewrite H.
      * by inversion H.
    + split; [discriminate|]. intros [post H]. inversion H. congruence.
Qed.

Lemma contains_spec (k s : string) :
  PyStr.contains k s = true <-> exists pre post, s = pre +:+ k +:+ post.
Proof.
  induction s as [|c s IH]; cbn [PyStr.contains].
  - rewrite orb_false_r, prefix_app. split.
    + intros [post H]. exists "", post. exact H.
    + intros [pre [post H]]. destruct pre; simpl in H; [|discriminate].
      by exists post.
  - rewrite orb_true_iff, prefix_app, IH. split.
    + intros [[post H]|[pre [post H]]].
      * exists "", post. exact H.
      * exists (String c pre), post. simpl. by rewrite H.
    + intros [pre [post H]]. destruct pre as [|d pre]; simpl in H.
      * left. by exists post.
      * right. inversion H. by exists pre, post.
Qed.

Lemma mem_spec (x : string) (xs : list string) :
  PyStr.mem x xs = true <-> x ∈ xs.
Proof.
  unfold PyStr.mem. rewrite existsb_exists, list_elem_of_In. split.
  - intros [y [Hin Heq]]. apply String.eqb_eq in Heq. by subst.
  - intros Hin. exists x. split; [done | apply String.eqb_refl].
Qed.

(** ** Patch classification *)

(** C9, as the specification words it, fails on a reference whose URL has
    no keyword and whose only tag is the lower-case [patch]: the tag set
    contains a keyword, yet the reference is not classified as a patch. *)
Lemma keyword_in_tag_is_ignored :
  Patch.is_likely_patch "https://example.com/advisory" ["patch"] = false
  /\ Spec.is_likely_patch "https://example.com/advisory" ["patch"] = true.
Proof.
  split; vm_compute; reflexivity.
Qed.

(** C9, amended: a reference is classified as a likely patch link if and
    only if its lower-cased URL contains one of the keywords patch, fix,
    update, resolve, mitigate as a substring, or its tag list contains the
    exact tag [Patch]; keywords inside tags do not count. *)
Theorem is_likely_patch_iff (url : string) (tags : list string) :
  Patch.is_likely_patch url tags = true <->
  (exists keyword, keyword ∈ Patch.patch_keywords
     /\ exists pre post, PyStr.lower url = pre +:+ keyword +:+ post)
  \/ "Patch" ∈ tags.
Proof.
  unfold Patch.is_likely_patch.
  rewrite orb_true_iff, mem_spec, existsb_exists.
  split; (intros [H|H]; [left|by right]).
  - destruct H as [k [Hin Hc]]. exists k. split.
    + by apply list_elem_of_In.
    + by apply contains_spec.
  - destruct H as [k [Hin Hc]]. exists k. split.
    + by apply list_elem_of_In.
    + by apply contains_spec.
Qed.

(** ** CPE decomposition *)








(** ** Records without identifier *)

(** C8, as stated, fails on a record that has dates and a description but
    no [id]: [from_json] does not fail, it answers a record whose
    identifier is the empty string. *)
Lemma from_json_defaults_missing_id :
  Raw.lacks_identifier Samples.no_id_record
  /\ exists d, NVD_OBJ.from_json Samples.no_id_record = Ok d
               /\ NVD_OBJ.cve_id d = "".
Proof.
  split; [reflexivity|].
  eexists. split; reflexivity.
Qed.

(** C8, amended: for a raw record without identifier no normaliser raises
    a malformed-record condition.  [from_json] answers a record whose
    [cve_id] is the empty string (its only failure is the index error on
    an empty [cvssMetricV31] list), and [from_dict] answers a record whose
    [id] is absent whenever both dates are present and well formed. *)
Theorem missing_identifier_defaults (fromisoformat : string -> option Z)
    (data : Raw.Record_) :
  Raw.lacks_identifier data ->
  (NVD_OBJ.from_json data = Raise IndexError
   \/ exists d, NVD_OBJ.from_json data = Ok d /\ NVD_OBJ.cve_id d = "")
  /\ (Raw.metrics_v31 data <> Some [] ->
      exists d, NVD_OBJ.from_json data = Ok d /\ NVD_OBJ.cve_id d = "")
  /\ (forall t1 t2 s1 s2,
        Raw.published (default Raw.empty_cve (Raw.cve data)) = Some s1 ->
        Raw.lastModified (default Raw.empty_cve (Raw.cve data)) = Some s2 ->
        fromisoformat s1 = Some t1 -> fromisoformat s2 = Some t2 ->
        exists d, NVD.from_dict fromisoformat data = Ok d /\ NVD.id d = None).
Proof.
  unfold Raw.lacks_identifier, Raw.metrics_v31. intros Hid.
  assert (Hjson : forall m ms,
            default [Raw.empty_metric]
              (Raw.cvssMetricV31
                 (default Raw.empty_metrics
                    (Raw.metrics (default Raw.empty_cve (Raw.cve data)))))
            = m :: ms ->
            exists d, NVD_OBJ.from_json data = Ok d /\ NVD_OBJ.cve_id d = "").
  { intros m ms Hm. unfold NVD_OBJ.from_json. cbv zeta. rewrite Hm.
    eexists. split; [reflexivity|]. cbn [NVD_OBJ.cve_id]. by rewrite Hid. }
  split; [|split].
  - destruct (default [Raw.empty_metric]
      (Raw.cvssMetricV31
         (default Raw.empty_metrics
            (Raw.metrics (default Raw.empty_cve (Raw.cve data)))))) as [|m ms] eqn:E.
    + left. unfold NVD_OBJ.from_json. cbv zeta. by rewrite E.
    + right. by eapply Hjson.
  - intros Hne.
    destruct (Raw.cvssMetricV31
         (default Raw.empty_metrics
            (Raw.metrics (default Raw.empty_cve (Raw.cve data))))) as [[|m ms]|] eqn:E.
    + done.
    + eapply Hjson. reflexivity.
    + eapply Hjson. reflexivity.
  - intros t1 t2 s1 s2 Hp Hl H1 H2. unfold NVD.from_dict. cbv zeta.
    rewrite Hp, Hl. unfold NVD.parse_date. rewrite H1, H2.
    eexists. split; [reflexivity|]. exact Hid.
Qed.

(** The record of [Samples.no_id_record], with a date parser that accepts
    every string. *)
Lemma missing_identifier_defaults_witness :
  (exists d, NVD_OBJ.from_json Samples.no_id_record = Ok d
             /\ NVD_OBJ.cve_id d = "")
  /\ (exists d, NVD.from_dict (fun _ => Some 0) Samples.no_id_record = Ok d
                /\ NVD.id d = None).
Proof.
  destruct (missing_identifier_defaults (fun _ => Some 0) Samples.no_id_record)
    as (_ & Hjson & Hdict); [reflexivity|].
  split.
  - apply Hjson. discriminate.
  - apply (Hdict 0 0 "2024-01-01T00:00:00" "2024-01-02T00:00:00"); reflexivity.
Defined.

(** ** Merging two records *)

Lemma patch_urls_ok (ps : list (gmap string string)) :
  Forall (fun p : gmap string string => is_Some (p !! "url")) ps ->
  exists us, Vulnerability.patch_urls ps = Ok us.
Proof.
  induction 1 as [|p ps [u Hu] _ [us IH]]; simpl.
  - by exists [].
  - rewrite Hu, IH. by eexists.
Qed.

Lemma merge_patches_loop_ok (existing : gset string)
    (theirs acc : list (gmap string string)) :
  Forall (fun p : gmap string string => is_Some (p !! "url")) theirs ->
  exists r, Vulnerability.merge_patches_loop existing acc theirs = Ok r.
Proof.
  intros H. revert acc. induction H as [|p ps [u Hu] _ IH]; intros acc; simpl.
  - by eexists.
  - rewrite Hu. destruct (bool_decide (u ∈ existing)); apply IH.
Qed.

Lemma merge_patches_ok (mine theirs : list (gmap string string)) :
  Forall (fun p : gmap string string => is_Some (p !! "url")) mine ->
  Forall (fun p : gmap string string => is_Some (p !! "url")) theirs ->
  exists r, Vulnerability.merge_patches mine theirs = Ok r.
Proof.
  intros Hm Ht. unfold Vulnerability.merge_patches.
  destruct (patch_urls_ok mine Hm) as [us ->]. cbn.
  by apply merge_patches_loop_ok.
Qed.

Lemma merge_last_modified_max (a b : option Z) :
  Vulnerability.merge_last_modified a b = Spec.max_date a b.
Proof.
  destruct a as [x|], b as [y|]; simpl; try done.
  destruct (Z.ltb_spec x y); f_equal; lia.
Qed.

Lemma max_date_comm (a b : option Z) : Spec.max_date a b = Spec.max_date b a.
Proof. destruct a, b; simpl; try done. f_equal; lia. Qed.

Lemma merge_title_sym (a b : option string) :
  a = b \/ PyStr.truthy_opt a <> PyStr.truthy_opt b ->
  Vulnerability.merge_title a b = Vulnerability.merge_title b a.
Proof.
  unfold Vulnerability.merge_title. intros [->|H]; [done|].
  destruct (PyStr.truthy_opt a), (PyStr.truthy_opt b); done.
Qed.

Lemma merge_title_keeps (a b : option string) :
  PyStr.truthy_opt a = true -> Vulnerability.merge_title a b = a.
Proof.
  unfold Vulnerability.merge_title. intros ->. by rewrite andb_false_r.
Qed.

(** C2, as stated, fails on two records of one vulnerability whose titles
    and descriptions are both non-empty and different: each order keeps
    the text of its first record. *)
Lemma merge_text_depends_on_order :
  Vulnerability.id Samples.first_a = Vulnerability.id Samples.first_b
  /\ exists ab ba,
       Vulnerability.merge Samples.first_a Samples.first_b = Ok ab
       /\ Vulnerability.merge Samples.first_b Samples.first_a = Ok ba
       /\ Vulnerability.title ab <> Vulnerability.title ba
       /\ Vulnerability.description ab <> Vulnerability.description ba.
Proof.
  split; [reflexivity|].
  eexists _, _. split; [reflexivity|]. split; [reflexivity|].
  split; discriminate.
Qed.

(** C2, amended: for two records with the same identifier (whose patch
    entries all carry a URL) merging succeeds in either order; the result
    has the common identifier, and its [last_modified_date] is the
    maximum of the two inputs in both orders.  Title and description are
    the same in both orders when the two inputs agree on the field or
    exactly one of them has a non-empty value; a non-empty value of the
    first record is always kept. *)
Theorem merge_either_order (a b : Vulnerability.t) :
  Vulnerability.id a = Vulnerability.id b ->
  Vulnerability.patches_have_url a -> Vulnerability.patches_have_url b ->
  exists ab ba,
    Vulnerability.merge a b = Ok ab /\ Vulnerability.merge b a = Ok ba
    /\ Vulnerability.id ab = Vulnerability.id a
    /\ Vulnerability.id ba = Vulnerability.id a
    /\ Vulnerability.last_modified_date ab
       = Spec.max_date (Vulnerability.last_modified_date a)
                       (Vulnerability.last_modified_date b)
    /\ Vulnerability.last_modified_date ba
       = Spec.max_date (Vulnerability.last_modified_date a)
                       (Vulnerability.last_modified_date b)
    /\ (Vulnerability.title a = Vulnerability.title b
        \/ PyStr.truthy_opt (Vulnerability.title a)
           <> PyStr.truthy_opt (Vulnerability.title b) ->
        Vulnerability.title ab = Vulnerability.title ba)
    /\ (Vulnerability.description a = Vulnerability.description b
        \/ PyStr.truthy_opt (Vulnerability.description a)
           <> PyStr.truthy_opt (Vulnerability.description b) ->
        Vulnerability.description ab = Vulnerability.description ba)
    /\ (PyStr.truthy_opt (Vulnerability.title a) = true ->
        Vulnerability.title ab = Vulnerability.title a)
    /\ (PyStr.truthy_opt (Vulnerability.description a) = true ->
        Vulnerability.description ab = Vulnerability.description a).
Proof.
  intros Hid Ha Hb.
  destruct (merge_patches_ok _ _ Ha Hb) as [pab Hab].
  destruct (merge_patches_ok _ _ Hb Ha) as [pba Hba].
  unfold Vulnerability.merge.
  rewrite <- Hid, String.eqb_refl. cbn [negb]. cbv zeta.
  rewrite Hab, Hba. cbn [mbind result_bind].
  eexists _, _. split; [reflexivity|]. split; [reflexivity|].
  cbn [Vulnerability.id Vulnerability.last_modified_date Vulnerability.title
       Vulnerability.description].
  repeat split.
  - apply merge_last_modified_max.
  - rewrite merge_last_modified_max. apply max_date_comm.
  - apply merge_title_sym.
  - apply merge_title_sym.
  - apply merge_title_keeps.
  - apply merge_title_keeps.
Qed.

(** The two sample records share their identifier and have no patches. *)
Lemma merge_either_order_witness :
  exists ab ba,
    Vulnerability.merge Samples.first_a Samples.first_b = Ok ab
    /\ Vulnerability.merge Samples.first_b Samples.first_a = Ok ba
    /\ Vulnerability.id ab = "CVE-1" /\ Vulnerability.id ba = "CVE-1"
    /\ Vulnerability.last_modified_date ab = None
    /\ Vulnerability.title ab = Some "A".
Proof.
  destruct (merge_either_order Samples.first_a Samples.first_b)
    as (ab & ba & Hab & Hba & Hi1 & Hi2 & Hd1 & _ & _ & _ & Ht & _).
  - reflexivity.
  - apply Forall_nil_2.
  - apply Forall_nil_2.
  - exists ab, ba. repeat split; try assumption.
    apply Ht. reflexivity.
Defined.

(** ** The relationship graph *)

Import CleanerService AnalyzerService.

Lemma has_node_true (g : nx.Graph) (n : string) :
  nx.has_node g n = true <-> n ∈ nx.node_ids g.
Proof. unfold nx.has_node. apply bool_decide_eq_true. Qed.

Lemma has_node_false (g : nx.Graph) (n : string) :
  nx.has_node g n = false <-> n ∉ nx.node_ids g.
Proof. unfold nx.has_node. apply bool_decide_eq_false. Qed.

Lemma node_ids_app (g h : nx.Graph) :
  nx.node_ids (g ++ h) = nx.node_ids g ++ nx.node_ids h.
Proof. unfold nx.node_ids. apply fmap_app. Qed.

Lemma node_ids_link (g : nx.Graph) (u v : string) :
  nx.node_ids (nx.link g u v) = nx.node_ids g.
Proof.
  unfold nx.node_ids, nx.link. rewrite <- list_fmap_compose.
  apply list_fmap_ext. intros i x _. unfold compose, nx.link_node.
  repeat case_bool_decide; reflexivity.
Qed.

Lemma node_ids_add_node_new (g : nx.Graph) (n ty : string) :
  nx.has_node g n = false ->
  nx.add_node g n ty = g ++ [nx.mk_node n (Some ty) []].
Proof. unfold nx.add_node. by intros ->. Qed.

Lemma touch_node_present (g : nx.Graph) (n : string) :
  nx.has_node g n = true -> nx.touch_node g n = g.
Proof. unfold nx.touch_node. by intros ->. Qed.

Lemma add_edge_present (g : nx.Graph) (u v : string) :
  nx.has_node g u = true -> nx.has_node g v = true ->
  nx.add_edge g u v = nx.link (nx.link g u v) v u.
Proof.
  intros Hu Hv. unfold nx.add_edge.
  rewrite (touch_node_present g u Hu). by rewrite (touch_node_present g v Hv).
Qed.

Lemma wf_append (g : nx.Graph) (n ty : string) :
  nx.wf g -> n ∉ nx.node_ids g -> nx.wf (g ++ [nx.mk_node n (Some ty) []]).
Proof.
  intros [Hnd Hall] Hn. split.
  - rewrite node_ids_app. apply NoDup_app. split; [done|]. split.
    + intros x Hx Hx'. apply list_elem_of_singleton in Hx'. simpl in Hx'. by subst.
    + apply NoDup_singleton.
  - apply Forall_app. split; [done|]. apply Forall_singleton.
    repeat split; simpl.
    + apply NoDup_nil_2.
    + apply not_elem_of_nil.
    + by eexists.
Qed.

Lemma wf_link (g : nx.Graph) (u v : string) :
  nx.wf g -> u <> v -> nx.wf (nx.link g u v).
Proof.
  intros [Hnd Hall] Hne. split.
  - by rewrite node_ids_link.
  - unfold nx.link. apply Forall_fmap. eapply Forall_impl; [exact Hall|].
    intros x (Hadj & Hself & Hty). unfold compose, nx.link_node.
    repeat case_bool_decide; try done.
    repeat split; simpl.
    + apply NoDup_app. split; [done|]. split.
      * intros y Hy Hy'. apply list_elem_of_singleton in Hy'. by subst.
      * apply NoDup_singleton.
    + rewrite elem_of_app, list_elem_of_singleton. intros [?|?]; [done|congruence].
    + done.
Qed.


Lemma add_tag_new (g : nx.Graph) (name t kind : string) :
  nx.has_node g name = true -> nx.has_node g t = false ->
  nx.add_edge (nx.add_node g t kind) name t
  = nx.link (nx.link (g ++ [nx.mk_node t (Some kind) []]) name t) t name.
Proof.
  intros Hn Ht. rewrite node_ids_add_node_new by done.
  apply add_edge_present; apply has_node_true; rewrite node_ids_app, elem_of_app.
  - left. by apply has_node_true.
  - right. simpl. apply list_elem_of_singleton. done.
Qed.

Lemma node_ids_add_name (g : nx.Graph) (n x : string) :
  x ∈ nx.node_ids (AnalyzerService.add_name g n) <-> x ∈ nx.node_ids g \/ x = n.
Proof.
  unfold AnalyzerService.add_name.
  destruct (nx.has_node g n) eqn:E; cbn [negb].
  - apply has_node_true in E. split; [by left|]. intros [?| ->]; done.
  - rewrite node_ids_add_node_new by done.
    rewrite node_ids_app, elem_of_app. simpl. by rewrite list_elem_of_singleton.
Qed.

Lemma wf_add_name (g : nx.Graph) (n : string) :
  nx.wf g -> nx.wf (AnalyzerService.add_name g n).
Proof.
  intros Hwf. unfold AnalyzerService.add_name.
  destruct (nx.has_node g n) eqn:E; cbn [negb]; [done|].
  rewrite node_ids_add_node_new by done.
  apply wf_append; [done|]. by apply has_node_false.
Qed.

Lemma node_ids_add_tag (g : nx.Graph) (name : string) (tag : option string)
    (kind x : string) :
  nx.has_node g name = true ->
  x ∈ nx.node_ids (AnalyzerService.add_tag g name tag kind)
  <-> x ∈ nx.node_ids g \/ (tag = Some x /\ PyStr.truthy x = true).
Proof.
  intros Hn. unfold AnalyzerService.add_tag.
  destruct tag as [t|].
  2:{ split; [by left|]. intros [?|[? _]]; [done|discriminate]. }
  destruct (PyStr.truthy t) eqn:Et; cbn [andb].
  2:{ split; [by left|]. intros [?|[[= ->] ?]]; [done|congruence]. }
  destruct (nx.has_node g t) eqn:Eh; cbn [negb].
  - apply has_node_true in Eh. split; [by left|].
    intros [?|[[= ->] ?]]; done.
  - rewrite add_tag_new by done.
    rewrite !node_ids_link, node_ids_app, elem_of_app. simpl.
    rewrite list_elem_of_singleton. split.
    + intros [?| ->]; [by left|by right].
    + intros [?|[[= ->] ?]]; [by left|by right].
Qed.

Lemma wf_add_tag (g : nx.Graph) (name : string) (tag : option string)
    (kind : string) :
  nx.wf g -> nx.has_node g name = true ->
  nx.wf (AnalyzerService.add_tag g name tag kind).
Proof.
  intros Hwf Hn. unfold AnalyzerService.add_tag.
  destruct tag as [t|]; [|done].
  destruct (PyStr.truthy t); cbn [andb]; [|done].
  destruct (nx.has_node g t) eqn:Eh; cbn [negb]; [done|].
  rewrite add_tag_new by done.
  assert (name <> t) by (intros ->; congruence).
  apply wf_link; [|done]. apply wf_link; [|done].
  apply wf_append; [done|]. by apply has_node_false.
Qed.

Lemma has_node_add_name (g : nx.Graph) (n : string) :
  nx.has_node (AnalyzerService.add_name g n) n = true.
Proof. apply has_node_true, node_ids_add_name. by right. Qed.

Lemma has_node_add_tag (g : nx.Graph) (name : string) (tag : option string)
    (kind : string) :
  nx.has_node g name = true ->
  nx.has_node (AnalyzerService.add_tag g name tag kind) name = true.
Proof.
  intros Hn. apply has_node_true, node_ids_add_tag; [done|].
  left. by apply has_node_true.
Qed.


Lemma wf_add_package (g : nx.Graph) (p : Package.t) :
  nx.wf g -> nx.wf (AnalyzerService.add_package g p).
Proof.
  intros Hwf. unfold AnalyzerService.add_package. cbv zeta.
  apply wf_add_tag; [|apply has_node_add_tag, has_node_add_name].
  apply wf_add_tag; [|apply has_node_add_name].
  by apply wf_add_name.
Qed.

Lemma wf_fold (pkgs : list Package.t) (g : nx.Graph) :
  nx.wf g -> nx.wf (fold_left AnalyzerService.add_package pkgs g).
Proof.
  revert g. induction pkgs as [|p pkgs IH]; intros g Hwf; simpl; [done|].
  by apply IH, wf_add_package.
Qed.


Lemma wf_empty : nx.wf nx.empty.
Proof. split; [apply NoDup_nil_2 | apply Forall_nil_2]. Qed.

Lemma nodes_data_ok (g : nx.Graph) :
  nx.wf g -> exists ns, nx.nodes_data g = Ok ns /\ ns.*1 = nx.node_ids g.
Proof.
  intros [_ Hall]. induction Hall as [|x g (_ & _ & [ty Hty]) _ (ns & Hns & Hids)]; simpl.
  - by exists [].
  - rewrite Hty, Hns. eexists. split; [reflexivity|]. cbn. by rewrite Hids.
Qed.

(** *** Edges *)




























(** Two packages of one ecosystem: only the package that introduces the
    ecosystem node is joined to it. *)
Lemma shared_ecosystem_links_first_package_only :
  exists r,
    analyze_correlations Samples.failing_cosine (8 # 10) Samples.shared_ecosystem
    = Ok r
    /\ nodes (package_graph r)
       = [("lodash", "package"); ("npm", "ecosystem"); ("minimist", "package")]
    /\ edges (package_graph r) = [("lodash", "npm")].
Proof.
  eexists. split; [vm_compute; reflexivity|]. by split.
Qed.

(** ** Similarity clusters *)

Lemma elem_of_similar_indices (sim : nat -> nat -> Q) (thr : Q) (n i j : nat) :
  j ∈ similar_indices sim thr n i <-> (j < n)%nat /\ j <> i /\ (thr <= sim i j)%Q.
Proof.
  unfold similar_indices. rewrite list_elem_of_In, filter_In, in_seq.
  rewrite andb_true_iff, negb_true_iff, Nat.eqb_neq, Qle_bool_iff.
  split.
  - intros [[_ ?] [? ?]]. repeat split; [lia|congruence|done].
  - intros (? & ? & ?). repeat split; [lia|lia|congruence|done].
Qed.

Lemma descriptions_length (vulns : list Vulnerability.t) :
  Forall (fun v => is_Some (usable_description v)) vulns ->
  length (descriptions vulns) = length vulns.
Proof.
  unfold descriptions. induction 1 as [|v vs [d Hd] _ IH]; [done|].
  cbn. rewrite Hd. cbn. by rewrite IH.
Qed.

Lemma StronglySorted_snoc (l : list nat) (k : nat) :
  StronglySorted lt l -> (forall a, a ∈ l -> (a < k)%nat) ->
  StronglySorted lt (l ++ [k]).
Proof.
  induction 1 as [|a l Hs IH Hall]; intros Hlt; simpl.
  - constructor; constructor.
  - constructor.
    + apply IH. intros b Hb. apply Hlt, elem_of_cons. by right.
    + apply Forall_app. split; [done|]. apply Forall_singleton.
      apply Hlt, elem_of_cons. by left.
Qed.

Section Clustering.

Variable vulns : list Vulnerability.t.
Variable sim : nat -> nat -> Q.
Variable thr : Q.
Variable n : nat.
Hypothesis n_le : (n <= length vulns)%nat.

Local Abbreviation similar := (similar_indices sim thr n).

Lemma lookup_similar (i : nat) :
  exists others, mapM (fun j => vulns !! j) (similar i) = Some others
                 /\ Forall2 (fun v j => vulns !! j = Some v) others (similar i).
Proof.
  assert (H : Forall (fun j => is_Some (vulns !! j)) (similar i)).
  { apply Forall_forall. intros j Hj. apply elem_of_similar_indices in Hj as [Hj _].
    apply lookup_lt_is_Some. lia. }
  induction H as [|j js [v Hv] _ (others & Hm & HF)].
  - exists []. split; [done|constructor].
  - exists (v :: others). split.
    + cbn. rewrite Hv. cbn. rewrite Hm. done.
    + by constructor.
Qed.

Lemma cluster_fold (k : nat) :
  (k <= n)%nat ->
  exists st anchors,
    fold_left (cluster_step vulns sim thr n) (seq 0 k) (Some ([], ∅)) = Some st
    /\ cluster_inv vulns sim thr n k st anchors.
Proof.
  induction k as [|k IH]; intros Hk.
  - exists ([], ∅), []. split; [done|]. repeat split.
    + constructor.
    + intros H. by apply not_elem_of_empty in H.
    + intros (a & Ha & _). by apply elem_of_nil in Ha.
    + constructor.
    + intros a Ha. by apply elem_of_nil in Ha.
    + lia.
    + lia.
    + lia.
  - destruct IH as ([groups used] & anchors & Hfold & HF & Hused & Hsort & Hlt & Hiff);
      [lia|].
    rewrite seq_S, fold_left_app, Hfold. cbn [fold_left plus].
    unfold cluster_step at 1. cbn [mbind option_bind].
    cbn [fst snd] in *.
    assert (Hlater : forall i, (i < k)%nat ->
              (similar i <> [] /\
               forall a, a ∈ anchors ++ [k] -> (a < i)%nat -> i ∉ similar a)
              <-> (similar i <> [] /\
                   forall a, a ∈ anchors -> (a < i)%nat -> i ∉ similar a)).
    { intros i Hi. split; intros [Hne Hall]; (split; [done|]); intros a Ha Hai.
      - apply Hall; [|done]. apply elem_of_app. by left.
      - apply elem_of_app in Ha as [Ha|Ha]; [by apply Hall|].
        apply list_elem_of_singleton in Ha. lia. }
    assert (Hfresh : k ∉ anchors).
    { intros Hin. apply Hlt in Hin. lia. }
    case_bool_decide as Huk.
    { (* [k] is already in a cluster *)
      exists (groups, used), anchors. split; [done|].
      split; [done|]. split; [done|]. split; [done|]. split.
      { intros a Ha. apply Hlt in Ha. lia. }
      intros i Hi. destruct (decide (i = k)) as [->|Hik]; [|apply Hiff; lia].
      split; [done|]. intros [_ Hall].
      apply Hused in Huk as (a & Ha & [->|Hin]); [done|].
      exfalso. apply (Hall a); [done| |done]. by apply Hlt. }
    fold (similar k). destruct (similar k) as [|j js] eqn:Hsim.
    { (* nothing is similar to [k] *)
      exists (groups, used), anchors. split; [done|].
      split; [done|]. split; [done|]. split; [done|]. split.
      { intros a Ha. apply Hlt in Ha. lia. }
      intros i Hi. destruct (decide (i = k)) as [->|Hik]; [|apply Hiff; lia].
      split; [done|]. intros [Hne _]. done. }
    (* a new cluster around [k] *)
    rewrite <- Hsim.
    destruct (lookup_lt_is_Some_2 vulns k) as [anchor Hanchor]; [lia|].
    destruct (lookup_similar k) as (others & Hm & HFo).
    rewrite Hanchor. cbn [mbind option_bind]. rewrite Hm. cbn [mbind option_bind].
    eexists (_, _), (anchors ++ [k]). split; [reflexivity|].
    unfold cluster_inv. cbn [fst snd]. split; [|split; [|split; [|split]]].
    + rewrite fmap_app. apply Forall2_app; [done|].
      constructor; [|constructor]. by constructor.
    + intros x. rewrite !elem_of_union, elem_of_list_to_set, elem_of_singleton, Hused.
      split.
      * intros [Hx|[->|(a & Ha & Hx)]].
        -- exists k. split; [apply elem_of_app; right; by apply list_elem_of_singleton|].
           by right.
        -- exists k. split; [apply elem_of_app; right; by apply list_elem_of_singleton|].
           by left.
        -- exists a. split; [apply elem_of_app; by left|done].
      * intros (a & Ha & Hx). apply elem_of_app in Ha as [Ha|Ha].
        -- right; right. by exists a.
        -- apply list_elem_of_singleton in Ha as ->.
           destruct Hx as [->|Hx]; [right; by left|by left].
    + by apply StronglySorted_snoc.
    + intros a Ha. apply elem_of_app in Ha as [Ha|Ha].
      * apply Hlt in Ha. lia.
      * apply list_elem_of_singleton in Ha. lia.
    + intros i Hi. destruct (decide (i = k)) as [->|Hik].
      * split.
        -- intros _. split; [by rewrite Hsim|]. intros a Ha Hak Hin.
           apply elem_of_app in Ha as [Ha|Ha].
           ++ apply Huk, Hused. exists a. split; [done|by right].
           ++ apply list_elem_of_singleton in Ha. lia.
        -- intros _. apply elem_of_app. right. by apply list_elem_of_singleton.
      * rewrite Hlater by lia. rewrite <- Hiff by lia.
        rewrite elem_of_app, list_elem_of_singleton. split; [|by left].
        intros [?|?]; [done|lia].
Qed.

End Clustering.

(** C3, amended: when every vulnerability has a description of more than
    three words and the similarity matrix is computed, the clusters are
    those of an increasing list of anchors.  Each cluster lists the anchor
    followed, in input order, by every other record whose similarity to
    the anchor reaches the threshold, whether or not that record already
    belongs to an earlier cluster.  A record is an anchor exactly when it
    has such a match and belongs to no cluster of an earlier anchor; so a
    record without a match above the threshold produces no cluster. *)
Theorem similar_groups_characterised
    (tfidf_cosine : list string -> option (nat -> nat -> Q))
    (min_similarity : Q) (vulns : list Vulnerability.t)
    (similarity_matrix : nat -> nat -> Q) :
  Forall (fun v => is_Some (usable_description v)) vulns ->
  tfidf_cosine (descriptions vulns) = Some similarity_matrix ->
  exists r anchors,
    analyze_correlations tfidf_cosine min_similarity vulns = Ok r
    /\ Forall2 (Forall2 (fun s i => Vulnerability.id <$> vulns !! i = Some s))
         (similar_groups r)
         ((fun a => a :: similar_indices similarity_matrix min_similarity
                           (length vulns) a) <$> anchors)
    /\ StronglySorted lt anchors
    /\ (forall i,
          i ∈ anchors <->
          (i < length vulns)%nat
          /\ similar_indices similarity_matrix min_similarity (length vulns) i <> []
          /\ forall a, a ∈ anchors -> (a < i)%nat ->
               i ∉ similar_indices similarity_matrix min_similarity (length vulns) a)
    /\ (forall i j,
          j ∈ similar_indices similarity_matrix min_similarity (length vulns) i
          <-> (j < length vulns)%nat /\ j <> i
              /\ (min_similarity <= similarity_matrix i j)%Q).
Proof.
  intros Husable Hcos.
  pose proof (descriptions_length vulns Husable) as Hlen.
  destruct (cluster_fold vulns similarity_matrix min_similarity (length vulns)
              (le_n _) (length vulns) (le_n _))
    as ([groups used] & anchors & Hfold & HF & Hused & Hsort & Hlt & Hiff).
  cbn [fst snd] in *.
  unfold analyze_correlations.
  destruct (descriptions vulns) as [|d ds] eqn:Hd.
  { (* no vulnerability at all *)
    destruct vulns; [|done].
    exists (mk_correlation [] (mk_graph_data [] [])), [].
    split; [done|]. split; [constructor|]. split; [constructor|]. split.
    - split; [intros H; by apply elem_of_nil in H|]. cbn. lia.
    - intros i j. apply elem_of_similar_indices. }
  assert (Hwf : nx.wf (build_graph vulns)) by apply wf_fold, wf_empty.
  destruct (nodes_data_ok _ Hwf) as (ns & Hns & _).
  rewrite Hns. cbn [mbind result_bind].
  eexists _, anchors. split; [reflexivity|].
  cbn [similar_groups]. split; [|split; [done|split]].
  - rewrite <- Hd in Hlen, Hcos. unfold cluster. rewrite Hcos, Hlen, Hfold.
    change (map (map Vulnerability.id) groups)
      with (fmap (M := list) (fmap (M := list) Vulnerability.id) groups).
    apply Forall2_fmap_l. eapply Forall2_impl; [exact HF|].
    intros vs is_ Hvs. apply Forall2_fmap_l. eapply Forall2_impl; [exact Hvs|].
    intros v i Hv. cbn. by rewrite Hv.
  - intros i. split.
    + intros Hi. split; [by apply Hlt|]. by apply Hiff; [apply Hlt|].
    + intros (Hi & H). by apply Hiff.
  - intros i j. apply elem_of_similar_indices.
Qed.

(** The three advisories of [Samples.chain] all have a usable
    description. *)
Lemma similar_groups_characterised_witness :
  exists r anchors,
    analyze_correlations Samples.chain_cosine (8 # 10) Samples.chain = Ok r
    /\ StronglySorted lt anchors
    /\ (1%nat ∈ similar_indices Samples.chain_similarity (8 # 10) 3 0
        <-> (1 < 3)%nat /\ 1%nat <> 0%nat
            /\ (8 # 10 <= Samples.chain_similarity 0 1)%Q).
Proof.
  destruct (similar_groups_characterised Samples.chain_cosine (8 # 10)
              Samples.chain Samples.chain_similarity)
    as (r & anchors & Hr & _ & Hsorted & _ & Hsim).
  - repeat constructor; eexists; reflexivity.
  - reflexivity.
  - exists r, anchors. split; [exact Hr|]. split; [exact Hsorted|].
    apply (Hsim 0%nat 1%nat).
Defined.

(** C3, as stated, fails on three advisories where the second resembles
    the first and the third, and the first and the third do not resemble
    each other: the cluster formed around the third advisory contains the
    second, which the first cluster had already taken.  With matches
    restricted to records not yet assigned there is one cluster only. *)
Lemma assigned_record_joins_later_cluster :
  (exists r,
     analyze_correlations Samples.chain_cosine (8 # 10) Samples.chain = Ok r
     /\ similar_groups r = [["CVE-1"; "CVE-2"]; ["CVE-3"; "CVE-2"]])
  /\ Spec.clusters Samples.chain_similarity (8 # 10) 3 = [[0; 1]]%nat.
Proof.
  split.
  - eexists. split; [vm_compute; reflexivity|]. reflexivity.
  - vm_compute. reflexivity.
Qed.

(** The clusters are positions in the list of usable descriptions but are
    read in the list of all vulnerabilities: an advisory without
    description in front shifts every identifier. *)
Lemma skipped_record_shifts_cluster_identifiers :
  exists r,
    analyze_correlations Samples.chain_cosine (8 # 10) Samples.misaligned = Ok r
    /\ similar_groups r = [["CVE-0"; "CVE-1"]].
Proof.
  eexists. split; [vm_compute; reflexivity|]. reflexivity.
Qed.

(** ** Trimming and lower-casing *)

Lemma rstrip_by_idem (p : ascii -> bool) (s : string) :
  PyStr.rstrip_by p (PyStr.rstrip_by p s) = PyStr.rstrip_by p s.
Proof.
  induction s as [|c s IH]; simpl; [done|].
  destruct (PyStr.rstrip_by p s) as [|d t] eqn:E.
  - destruct (p c) eqn:Ec; simpl; [done|]. by rewrite Ec.
  - cbn [PyStr.rstrip_by]. cbn [PyStr.rstrip_by] in IH. by rewrite IH.
Qed.

Lemma lstrip_by_head (p : ascii -> bool) (s : string) :
  match PyStr.lstrip_by p s with
  | EmptyString => True
  | String c _ => p c = false
  end.
Proof.
  induction s as [|c s IH]; simpl; [done|].
  destruct (p c) eqn:E; [done|]. simpl. done.
Qed.

Lemma rstrip_by_head (p : ascii -> bool) (c : ascii) (s : string) :
  p c = false -> exists t, PyStr.rstrip_by p (String c s) = String c t.
Proof.
  intros Hc. simpl. destruct (PyStr.rstrip_by p s); [|by eexists].
  rewrite Hc. by eexists.
Qed.

Lemma lstrip_by_fixed (p : ascii -> bool) (c : ascii) (s : string) :
  p c = false -> PyStr.lstrip_by p (String c s) = String c s.
Proof. intros Hc. simpl. by rewrite Hc. Qed.

Lemma strip_head (s : string) :
  match PyStr.strip s with
  | EmptyString => True
  | String c _ => PyStr.isspace c = false
  end.
Proof.
  unfold PyStr.strip. pose proof (lstrip_by_head PyStr.isspace s) as H.
  destruct (PyStr.lstrip_by PyStr.isspace s) as [|c t]; [done|].
  destruct (rstrip_by_head PyStr.isspace c t H) as [t' ->]. done.
Qed.

Lemma strip_idem (s : string) : PyStr.strip (PyStr.strip s) = PyStr.strip s.
Proof.
  pose proof (strip_head s) as H. unfold PyStr.strip at 1.
  destruct (PyStr.strip s) as [|c t] eqn:E; [done|].
  rewrite lstrip_by_fixed by done. rewrite <- E. unfold PyStr.strip.
  apply rstrip_by_idem.
Qed.

Lemma isspace_lower_char (c : ascii) :
  PyStr.isspace (PyStr.lower_char c) = PyStr.isspace c.
Proof. destruct c as [[] [] [] [] [] [] [] []]; reflexivity. Qed.

Lemma lower_char_idem (c : ascii) :
  PyStr.lower_char (PyStr.lower_char c) = PyStr.lower_char c.
Proof. destruct c as [[] [] [] [] [] [] [] []]; reflexivity. Qed.

Lemma lower_idem (s : string) : PyStr.lower (PyStr.lower s) = PyStr.lower s.
Proof.
  induction s as [|c s IH]; simpl; [done|]. by rewrite lower_char_idem, IH.
Qed.

Lemma lstrip_lower (s : string) :
  PyStr.lstrip_by PyStr.isspace (PyStr.lower s)
  = PyStr.lower (PyStr.lstrip_by PyStr.isspace s).
Proof.
  induction s as [|c s IH]; simpl; [done|].
  rewrite isspace_lower_char. by destruct (PyStr.isspace c).
Qed.

Lemma rstrip_lower (s : string) :
  PyStr.rstrip_by PyStr.isspace (PyStr.lower s)
  = PyStr.lower (PyStr.rstrip_by PyStr.isspace s).
Proof.
  induction s as [|c s IH]; simpl; [done|].
  rewrite IH, isspace_lower_char.
  destruct (PyStr.rstrip_by PyStr.isspace s); simpl; [|done].
  by destruct (PyStr.isspace c).
Qed.

Lemma strip_lower (s : string) :
  PyStr.strip (PyStr.lower s) = PyStr.lower (PyStr.strip s).
Proof. unfold PyStr.strip. by rewrite lstrip_lower, rstrip_lower. Qed.

Lemma clean_name_idem (s : string) :
  PyStr.lower (PyStr.strip (PyStr.lower (PyStr.strip s)))
  = PyStr.lower (PyStr.strip s).
Proof. by rewrite strip_lower, strip_idem, lower_idem. Qed.

Section Dedup.

Context {A : Type}.
Variable key : A -> option string.
Variable upd : A -> string -> A.
Variable P : A -> Prop.
Hypothesis upd_stable :
  forall x k, P x -> key x = Some k ->
              key (upd x k) = Some k /\ upd (upd x k) k = upd x k.

Lemma dedup_by_out (seen : gset string) (xs : list A) :
  Forall P xs ->
  Forall (settled key upd) (dedup_by key upd seen xs)
  /\ NoDup (key <$> dedup_by key upd seen xs)
  /\ (forall y, y ∈ dedup_by key upd seen xs ->
                forall k, key y = Some k -> k ∉ seen).
Proof.
  intros HP. revert seen. induction HP as [|x xs Hx _ IH]; intros seen; simpl.
  - split; [constructor|]. split; [constructor|].
    intros y Hy. by apply elem_of_nil in Hy.
  - destruct (key x) as [k|] eqn:Ek; [|apply IH].
    case_bool_decide as Hk; [apply IH|].
    destruct (upd_stable x k Hx Ek) as [Hkey Hupd].
    destruct (IH ({[k]} ∪ seen)) as (IH1 & IH2 & IH3).
    split; [|split].
    + constructor; [by exists k|done].
    + cbn. rewrite Hkey. constructor; [|done].
      intros Hin. apply list_elem_of_fmap in Hin as (y & Hy & Hin).
      symmetry in Hy. apply (IH3 y Hin k Hy).
      apply elem_of_union. left. by apply elem_of_singleton.
    + intros y Hy k' Hk'. apply elem_of_cons in Hy as [->|Hy].
      * congruence.
      * intros Hin. apply (IH3 y Hy k' Hk'). apply elem_of_union. by right.
Qed.

Lemma dedup_by_fixed (seen : gset string) (l : list A) :
  Forall (settled key upd) l -> NoDup (key <$> l) ->
  (forall y, y ∈ l -> forall k, key y = Some k -> k ∉ seen) ->
  dedup_by key upd seen l = l.
Proof.
  intros HS. revert seen. induction HS as [|y l (k & Hk & Hu) _ IH];
    intros seen Hnd Hseen; simpl; [done|].
  cbn in Hnd. apply NoDup_cons in Hnd as [Hy Hnd].
  rewrite Hk. rewrite bool_decide_eq_false_2.
  2:{ apply (Hseen y); [apply elem_of_cons; by left|done]. }
  rewrite Hu. f_equal. apply IH; [done|].
  intros z Hz k' Hk'. rewrite elem_of_union, elem_of_singleton.
  intros [->|Hin].
  - apply Hy. rewrite Hk, <- Hk'. apply list_elem_of_fmap. by exists z.
  - apply (Hseen z) in Hin; [done|apply elem_of_cons; by right|done].
Qed.

Lemma dedup_by_idem (xs : list A) :
  Forall P xs ->
  dedup_by key upd ∅ (dedup_by key upd ∅ xs) = dedup_by key upd ∅ xs.
Proof.
  intros HP. destruct (dedup_by_out ∅ xs HP) as (H1 & H2 & H3).
  apply dedup_by_fixed; done.
Qed.

End Dedup.

Lemma clean_patches_loop_dedup (seen : gset string) (ps : list (gmap string string)) :
  CleanerService.clean_patches_loop seen ps
  = dedup_by patch_key (fun p _ => p) seen ps.
Proof.
  revert seen. induction ps as [|p ps IH]; intros seen; simpl; [done|].
  unfold patch_key. cbv zeta.
  destruct (PyStr.truthy _); cbn [andb]; [|apply IH].
  case_bool_decide; cbn [negb]; [apply IH|]. by rewrite IH.
Qed.

Lemma clean_versions_loop_dedup (seen : gset string) (vs : list Version.t) :
  CleanerService.clean_versions_loop seen vs
  = dedup_by version_key Version.set_version seen vs.
Proof.
  revert seen. induction vs as [|v vs IH]; intros seen; simpl; [done|].
  unfold version_key. cbv zeta.
  destruct (PyStr.truthy _); cbn [andb]; [|apply IH].
  case_bool_decide; cbn [negb]; [apply IH|]. by rewrite IH.
Qed.

Lemma clean_references_loop_dedup (seen : gset string) (rs : list Reference.t) :
  CleanerService.clean_references_loop seen rs
  = dedup_by reference_key Reference.set_url seen rs.
Proof.
  revert seen. induction rs as [|r rs IH]; intros seen; simpl; [done|].
  unfold reference_key. cbv zeta.
  destruct (PyStr.truthy _); cbn [negb]; [|apply IH].
  case_bool_decide; [apply IH|]. by rewrite IH.
Qed.

Lemma clean_patches_idem (ps : list (gmap string string)) :
  CleanerService.clean_patches_loop ∅ (CleanerService.clean_patches_loop ∅ ps)
  = CleanerService.clean_patches_loop ∅ ps.
Proof.
  rewrite !clean_patches_loop_dedup.
  apply (dedup_by_idem _ _ (fun _ => True)); [|by apply Forall_true].
  intros x k _ Hk. done.
Qed.

Lemma clean_versions_idem (vs : list Version.t) :
  CleanerService.clean_versions_loop ∅ (CleanerService.clean_versions_loop ∅ vs)
  = CleanerService.clean_versions_loop ∅ vs.
Proof.
  rewrite !clean_versions_loop_dedup.
  apply (dedup_by_idem _ _ (fun _ => True)); [|by apply Forall_true].
  intros x k _ Hk. unfold version_key in *. cbv zeta in *.
  destruct (PyStr.truthy (PyStr.strip (Version.version x))) eqn:E; [|done].
  injection Hk as <-. cbn [Version.set_version Version.version].
  rewrite strip_idem, E. done.
Qed.

Lemma clean_notes_idem (notes : list string) :
  CleanerService.clean_notes (CleanerService.clean_notes notes)
  = CleanerService.clean_notes notes.
Proof.
  unfold CleanerService.clean_notes.
  induction notes as [|x notes IH]; [done|].
  rewrite filter_cons. case_decide as Hx; [|exact IH].
  cbn [map]. rewrite filter_cons. rewrite strip_idem.
  rewrite decide_True by done. cbn [map]. by rewrite strip_idem, IH.
Qed.

Lemma clean_version_strings_idem (vs : list string) :
  CleanerService.clean_version_strings (CleanerService.clean_version_strings vs)
  = CleanerService.clean_version_strings vs.
Proof.
  unfold CleanerService.clean_version_strings. f_equal.
  apply set_eq. intros x.
  rewrite !elem_of_list_to_set. rewrite !list_elem_of_In, !in_map_iff.
  split.
  - intros (y & <- & Hy). apply list_elem_of_In, list_elem_of_filter in Hy as [Hy Hin].
    apply elem_of_elements, elem_of_list_to_set in Hin.
    apply list_elem_of_In, in_map_iff in Hin as (z & <- & Hz).
    exists z. by rewrite strip_idem.
  - intros (y & <- & Hy). exists (PyStr.strip y). split; [apply strip_idem|].
    apply list_elem_of_In, list_elem_of_filter. split.
    + rewrite strip_idem. apply list_elem_of_In, list_elem_of_filter in Hy. tauto.
    + apply elem_of_elements, elem_of_list_to_set, list_elem_of_In, in_map_iff.
      by exists y.
Qed.

(** ** Markup and whitespace *)

Lemma after_gt_none_tag_free (s : string) : after_gt s = None -> tag_free s.
Proof.
  induction s as [|c r IH]; simpl; [done|].
  destruct (Ascii.eqb c ">") eqn:Egt; [done|]. intros Hr.
  destruct (Ascii.eqb c "<"); [|by apply IH].
  destruct r as [|c1 r1]; [done|].
  destruct (Ascii.eqb c1 ">") eqn:E1; [|done]. simpl in Hr. by rewrite E1 in Hr.
Qed.

Lemma after_gt_length (s t : string) :
  after_gt s = Some t -> (String.length t < String.length s)%nat.
Proof.
  revert t. induction s as [|c r IH]; intros t; simpl; [done|].
  destruct (Ascii.eqb c ">"); [intros [= ->]; lia|].
  intros H. apply IH in H. lia.
Qed.

Lemma strip_tags_from_fixed (fuel : nat) (s : string) :
  tag_free s -> strip_tags_from fuel s = s.
Proof.
  revert s. induction fuel as [|fuel IH]; intros s; [done|].
  destruct s as [|c r]; [done|]. cbn [strip_tags_from tag_free].
  destruct (Ascii.eqb c "<").
  - destruct r as [|c1 r1]; [done|].
    destruct (Ascii.eqb c1 ">") eqn:E1.
    + intros H. by rewrite IH.
    + intros H. assert (H1 : after_gt r1 = None).
      { simpl in H. by rewrite E1 in H. }
      rewrite H1. rewrite IH; [done|]. by apply after_gt_none_tag_free.
  - intros H. by rewrite IH.
Qed.

Lemma strip_tags_from_tag_free (fuel : nat) (s : string) :
  (String.length s <= fuel)%nat -> tag_free (strip_tags_from fuel s).
Proof.
  revert s. induction fuel as [|fuel IH]; intros s Hlen.
  - destruct s; [done|simpl in Hlen; lia].
  - destruct s as [|c r]; [done|]. simpl in Hlen. cbn [strip_tags_from].
    destruct (Ascii.eqb c "<") eqn:Ec.
    + destruct r as [|c1 r1]; [by simpl; rewrite Ec|].
      destruct (Ascii.eqb c1 ">") eqn:E1.
      * pose proof (IH (String c1 r1) ltac:(lia)) as Hr.
        destruct fuel as [|fuel']; [simpl in Hlen; lia|].
        cbn [strip_tags_from] in *.
        apply Ascii.eqb_eq in E1 as ->. cbn [Ascii.eqb Bool.eqb andb] in *.
        cbn [tag_free]. rewrite Ec. cbn [Ascii.eqb Bool.eqb andb]. exact Hr.
      * destruct (after_gt r1) as [rest|] eqn:Er.
        -- apply IH. apply after_gt_length in Er. simpl in Hlen. lia.
        -- assert (Hnone : after_gt (String c1 r1) = None).
           { simpl. by rewrite E1. }
           rewrite strip_tags_from_fixed by (by apply after_gt_none_tag_free).
           cbn [tag_free]. by rewrite Ec, E1.
    + cbn [tag_free]. rewrite Ec. apply IH. lia.
Qed.

(** The scan consumes a character at every step: any fuel from the length
    of the text upwards gives the same result. *)
Lemma strip_tags_from_enough (fuel fuel' : nat) (s : string) :
  (String.length s <= fuel)%nat -> (String.length s <= fuel')%nat ->
  strip_tags_from fuel s = strip_tags_from fuel' s.
Proof.
  revert fuel' s. induction fuel as [|fuel IH]; intros fuel' s H H'.
  - destruct s; [by destruct fuel'|simpl in H; lia].
  - destruct s as [|c r]; [by destruct fuel'|].
    destruct fuel' as [|fuel']; [simpl in H'; lia|].
    simpl in H, H'. cbn [strip_tags_from].
    destruct (Ascii.eqb c "<").
    + destruct r as [|c1 r1]; [done|].
      destruct (Ascii.eqb c1 ">").
      * f_equal. apply IH; lia.
      * destruct (after_gt r1) as [rest|] eqn:Er.
        -- apply after_gt_length in Er. simpl in H, H'. apply IH; lia.
        -- f_equal. apply IH; lia.
    + f_equal. apply IH; lia.
Qed.

Lemma strip_tags_tag_free (s : string) : tag_free (strip_tags s).
Proof. by apply strip_tags_from_tag_free. Qed.

Lemma strip_tags_fixed (s : string) : tag_free s -> strip_tags s = s.
Proof. apply strip_tags_from_fixed. Qed.

(** ** Whitespace *)

Lemma isspace_gt : PyStr.isspace ">" = false.
Proof. reflexivity. Qed.

Lemma isspace_lt : PyStr.isspace "<" = false.
Proof. reflexivity. Qed.

Lemma not_space_neq (c d : ascii) :
  PyStr.isspace c = true -> PyStr.isspace d = false -> Ascii.eqb c d = false.
Proof. intros Hc Hd. apply Ascii.eqb_neq. intros ->. congruence. Qed.

Lemma squeezed_after_gt (t s : string) :
  squeezed t s -> after_gt t = None -> after_gt s = None.
Proof.
  induction 1 as [|c t s Hc _ IH|c t s Hc _ IH|c t s Hc _ IH]; simpl; [done| | |].
  - destruct (Ascii.eqb c ">"); [done|exact IH].
  - rewrite (not_space_neq c ">" Hc isspace_gt). exact IH.
  - rewrite (not_space_neq c ">" Hc isspace_gt). exact IH.
Qed.

Lemma squeezed_tag_free (t s : string) :
  squeezed t s -> tag_free t -> tag_free s.
Proof.
  induction 1 as [|c t s Hc Hsq IH|c t s Hc _ IH|c t s Hc _ IH];
    cbn [tag_free]; [done| | |].
  - destruct (Ascii.eqb c "<") eqn:Ec; [|exact IH].
    destruct t as [|c1 t1].
    + inversion Hsq; subst. done.
    + destruct (Ascii.eqb c1 ">") eqn:E1.
      * intros Ht. apply Ascii.eqb_eq in E1 as ->.
        inversion Hsq; subst; try discriminate.
        cbn [Ascii.eqb Bool.eqb andb]. by apply IH.
      * intros Ht. pose proof (squeezed_after_gt _ _ Hsq Ht) as Hs.
        destruct s as [|d1 s1]; [done|].
        destruct (Ascii.eqb d1 ">") eqn:Ed; [|done].
        simpl in Hs. by rewrite Ed in Hs.
  - rewrite (not_space_neq c "<" Hc isspace_lt). exact IH.
  - rewrite (not_space_neq c "<" Hc isspace_lt). exact IH.
Qed.

Lemma squeezed_printable (t s : string) :
  squeezed t s ->
  all_chars (fun c => PyStr.isprintable c || PyStr.isspace c) t = true ->
  all_chars PyStr.isprintable s = true.
Proof.
  induction 1 as [|c t s Hc _ IH|c t s Hc _ IH|c t s Hc _ IH];
    cbn [all_chars]; [done| | |];
    rewrite andb_true_iff; intros [H1 H2].
  - rewrite IH by done. rewrite Hc, orb_false_r in H1. by rewrite H1.
  - by apply IH.
  - by rewrite IH.
Qed.

Lemma filter_chars_all (p : ascii -> bool) (s : string) :
  all_chars p s = true -> PyStr.filter_chars p s = s.
Proof.
  induction s as [|c s IH]; simpl; [done|].
  rewrite andb_true_iff. intros [-> H]. by rewrite IH.
Qed.

Lemma split_head_nonempty (c : ascii) (r : string) :
  PyStr.isspace c = false -> PyStr.split (String c r) <> [].
Proof.
  intros Hc. simpl. rewrite Hc. destruct r as [|c' r']; [done|].
  destruct (PyStr.isspace c'); [done|]. by destruct (PyStr.split _).
Qed.

Lemma join_cons_word (c : ascii) (w : string) (ws : list string) :
  PyStr.join " " (String c w :: ws) = String c (PyStr.join " " (w :: ws)).
Proof. by destruct ws. Qed.

Lemma split_space (c : ascii) (r : string) :
  PyStr.isspace c = true -> PyStr.split (String c r) = PyStr.split r.
Proof. intros Hc. simpl. by rewrite Hc. Qed.

Lemma split_last (c : ascii) :
  PyStr.isspace c = false -> PyStr.split (String c "") = [String c ""].
Proof. intros Hc. simpl. by rewrite Hc. Qed.

Lemma split_word_end (c c' : ascii) (r : string) :
  PyStr.isspace c = false -> PyStr.isspace c' = true ->
  PyStr.split (String c (String c' r)) = String c "" :: PyStr.split r.
Proof. intros Hc Hc'. simpl. by rewrite Hc, Hc'. Qed.

Lemma split_word_cont (c c' : ascii) (r : string) :
  PyStr.isspace c = false -> PyStr.isspace c' = false ->
  exists w ws, PyStr.split (String c' r) = w :: ws
               /\ PyStr.split (String c (String c' r)) = String c w :: ws.
Proof.
  intros Hc Hc'.
  destruct (PyStr.split (String c' r)) as [|w ws] eqn:E.
  - by apply split_head_nonempty in E.
  - exists w, ws. split; [done|].
    change (PyStr.split (String c (String c' r)))
      with (if PyStr.isspace c then PyStr.split (String c' r)
            else if PyStr.isspace c' then String c "" :: PyStr.split (String c' r)
                 else match PyStr.split (String c' r) with
                      | w :: ws => String c w :: ws
                      | [] => [String c ""]
                      end).
    by rewrite Hc, Hc', E.
Qed.

Lemma string_length_ind (P : string -> Prop) :
  (forall s, (forall t, (String.length t < String.length s)%nat -> P t) -> P s) ->
  forall s, P s.
Proof.
  intros H s. remember (String.length s) as n eqn:Hn.
  revert s Hn. induction n as [n IH] using lt_wf_ind. intros s ->.
  apply H. intros t Ht. by apply (IH (String.length t)).
Qed.

Lemma squeezed_collapse (t : string) : squeezed t (collapse_whitespace t).
Proof.
  induction t as [t IH] using string_length_ind.
  destruct t as [|c r]; [constructor|].
  destruct (PyStr.isspace c) eqn:Hc.
  { unfold collapse_whitespace. rewrite split_space by done.
    apply squeezed_drop; [done|]. apply IH. simpl. lia. }
  destruct r as [|c' r'].
  { unfold collapse_whitespace. rewrite split_last by done.
    apply squeezed_keep; [done|constructor]. }
  destruct (PyStr.isspace c') eqn:Hc'.
  - unfold collapse_whitespace. rewrite split_word_end by done.
    pose proof (IH r' ltac:(simpl; lia)) as Hr'. unfold collapse_whitespace in Hr'.
    destruct (PyStr.split r') as [|w ws].
    + apply squeezed_keep; [done|]. by apply squeezed_drop.
    + change (PyStr.join " " (String c "" :: w :: ws))
        with (String c (String " " (PyStr.join " " (w :: ws)))).
      apply squeezed_keep; [done|]. by apply squeezed_space.
  - destruct (split_word_cont c c' r' Hc Hc') as (w & ws & Hr & Hs).
    unfold collapse_whitespace. rewrite Hs, join_cons_word, <- Hr.
    apply squeezed_keep; [done|]. apply IH. simpl. lia.
Qed.

Lemma split_words (s : string) : Forall word (PyStr.split s).
Proof.
  induction s as [s IH] using string_length_ind.
  destruct s as [|c r]; [constructor|].
  destruct (PyStr.isspace c) eqn:Hc.
  { rewrite split_space by done. apply IH. simpl. lia. }
  destruct r as [|c' r'].
  { rewrite split_last by done. constructor; [|constructor].
    split; [done|]. simpl. by rewrite Hc. }
  destruct (PyStr.isspace c') eqn:Hc'.
  - rewrite split_word_end by done. constructor; [|apply IH; simpl; lia].
    split; [done|]. simpl. by rewrite Hc.
  - destruct (split_word_cont c c' r' Hc Hc') as (w & ws & Hr & ->).
    pose proof (IH (String c' r') ltac:(simpl; lia)) as Hall.
    rewrite Hr in Hall. apply Forall_cons in Hall as [[_ Hw] Hws].
    constructor; [|done]. split; [done|]. simpl. by rewrite Hc, Hw.
Qed.

Lemma split_word_app (w : string) (c : ascii) (rest : string) :
  word w -> PyStr.isspace c = true ->
  PyStr.split (w +:+ String c rest) = w :: PyStr.split rest.
Proof.
  intros [Hne Hw] Hc. induction w as [|a w IH]; [done|].
  simpl in Hw. apply andb_true_iff in Hw as [Ha Hw]. apply negb_true_iff in Ha.
  destruct w as [|a' w'].
  - simpl String.append. by apply split_word_end.
  - assert (Ha' : PyStr.isspace a' = false).
    { simpl in Hw. apply andb_true_iff in Hw as [Ha' _]. by apply negb_true_iff. }
    change (String a (String a' w') +:+ String c rest)
      with (String a (String a' (w' +:+ String c rest))).
    destruct (split_word_cont a a' (w' +:+ String c rest) Ha Ha')
      as (x & xs & Hr & ->).
    change (String a' (w' +:+ String c rest))
      with (String a' w' +:+ String c rest) in Hr.
    rewrite IH in Hr by done. by injection Hr as <- <-.
Qed.

Lemma split_word (w : string) : word w -> PyStr.split w = [w].
Proof.
  intros [Hne Hw]. induction w as [|a w IH]; [done|].
  simpl in Hw. apply andb_true_iff in Hw as [Ha Hw]. apply negb_true_iff in Ha.
  destruct w as [|a' w'].
  - by apply split_last.
  - assert (Ha' : PyStr.isspace a' = false).
    { simpl in Hw. apply andb_true_iff in Hw as [Ha' _]. by apply negb_true_iff. }
    destruct (split_word_cont a a' w' Ha Ha') as (x & xs & Hr & ->).
    rewrite IH in Hr by done. by injection Hr as <- <-.
Qed.

Lemma split_join (ws : list string) :
  Forall word ws -> PyStr.split (PyStr.join " " ws) = ws.
Proof.
  induction 1 as [|w ws Hw Hws IH]; [done|].
  destruct ws as [|w2 ws']; [by apply split_word|].
  change (PyStr.join " " (w :: w2 :: ws'))
    with (w +:+ String " " (PyStr.join " " (w2 :: ws'))).
  rewrite split_word_app by done. by rewrite IH.
Qed.

Lemma collapse_idem (s : string) :
  collapse_whitespace (collapse_whitespace s) = collapse_whitespace s.
Proof.
  unfold collapse_whitespace. by rewrite split_join by apply split_words.
Qed.

(** ** Cleaning twice *)

(** ** Description *)

Lemma after_gt_all_chars (p : ascii -> bool) (s t : string) :
  after_gt s = Some t -> all_chars p s = true -> all_chars p t = true.
Proof.
  revert t. induction s as [|c r IH]; intros t; simpl; [done|].
  rewrite andb_true_iff. destruct (Ascii.eqb c ">").
  - intros [= ->] [_ H]. done.
  - intros Ht [_ H]. by apply IH.
Qed.

Lemma strip_tags_from_all_chars (p : ascii -> bool) (fuel : nat) (s : string) :
  all_chars p s = true -> all_chars p (strip_tags_from fuel s) = true.
Proof.
  revert s. induction fuel as [|fuel IH]; intros s Hs; [done|].
  destruct s as [|c r]; [done|]. cbn [strip_tags_from].
  simpl in Hs. apply andb_true_iff in Hs as [Hc Hr].
  destruct (Ascii.eqb c "<").
  - destruct r as [|c1 r1]; [by simpl; rewrite Hc|].
    destruct (Ascii.eqb c1 ">").
    + simpl. by rewrite Hc, IH.
    + destruct (after_gt r1) as [rest|] eqn:Er.
      * apply IH. simpl in Hr. apply andb_true_iff in Hr as [_ Hr].
        by eapply after_gt_all_chars.
      * simpl. by rewrite Hc, IH.
  - simpl. by rewrite Hc, IH.
Qed.

Lemma truthy_true (s : string) : PyStr.truthy s = true <-> s <> "".
Proof. destruct s; simpl; split; done. Qed.

Lemma clean_description_idem (d : option string) :
  description_stable d ->
  clean_description (clean_description d) = clean_description d.
Proof.
  destruct d as [s|]; [|done]. intros [Hchars Hne].
  unfold clean_description in *. cbn [PyStr.truthy_opt] in *.
  destruct (PyStr.truthy s) eqn:Hs; cbn [negb] in *; [|done].
  cbv zeta in *.
  set (s1 := strip_tags s) in *.
  set (s2 := collapse_whitespace s1) in *.
  assert (Hsq : squeezed s1 s2) by apply squeezed_collapse.
  assert (Hp : all_chars PyStr.isprintable s2 = true).
  { apply (squeezed_printable s1); [done|]. by apply strip_tags_from_all_chars. }
  rewrite (filter_chars_all _ s2 Hp) in *.
  cbn [PyStr.truthy_opt].
  assert (Ht : PyStr.truthy s2 = true).
  { apply truthy_true. intros E. apply Hne. by rewrite E. }
  rewrite Ht. cbn [negb].
  assert (Hfree : tag_free s2).
  { apply (squeezed_tag_free s1); [done|]. apply strip_tags_tag_free. }
  rewrite (strip_tags_fixed s2 Hfree).
  unfold s2 at 1 2. rewrite collapse_idem. fold s2.
  by rewrite (filter_chars_all _ s2 Hp).
Qed.

(** ** References *)

Lemma rstrip_by_app (p : ascii -> bool) (a w : string) :
  PyStr.rstrip_by p w <> "" ->
  PyStr.rstrip_by p (a +:+ w) = a +:+ PyStr.rstrip_by p w.
Proof.
  intros Hw. induction a as [|c a IH]; [done|].
  change (String c a +:+ w) with (String c (a +:+ w)).
  change (String c a +:+ PyStr.rstrip_by p w)
    with (String c (a +:+ PyStr.rstrip_by p w)).
  cbn [PyStr.rstrip_by]. rewrite IH.
  destruct (a +:+ PyStr.rstrip_by p w) eqn:E; [|reflexivity].
  destruct a; simpl in E; [done|discriminate].
Qed.

Lemma scheme_head (w : string) :
  PyStr.startswith "http://" w || PyStr.startswith "https://" w = true ->
  exists t, w = String "h" t.
Proof.
  unfold PyStr.startswith. rewrite orb_true_iff, !prefix_app.
  intros [[post ->]|[post ->]]; by eexists.
Qed.

Lemma normalize_url_stable (u : string) :
  url_stable u ->
  normalize_url (normalize_url u) = normalize_url u
  /\ PyStr.truthy (normalize_url u) = true.
Proof.
  intros [Hne Hsp]. unfold normalize_url at 2 3 4. cbv zeta.
  set (w := PyStr.rstrip_slash (PyStr.strip u)) in *.
  assert (Hsl : PyStr.rstrip_slash w = w) by apply rstrip_by_idem.
  destruct (PyStr.startswith "http://" w || PyStr.startswith "https://" w) eqn:Hs;
    cbn [negb].
  - split; [|by apply truthy_true].
    destruct (scheme_head w Hs) as [t Ht].
    unfold normalize_url. cbv zeta.
    assert (Hst : PyStr.strip w = w).
    { unfold PyStr.strip. rewrite Ht at 1. rewrite lstrip_by_fixed by done.
      by rewrite <- Ht. }
    by rewrite Hst, Hsl, Hs.
  - split; [|done].
    unfold normalize_url. cbv zeta.
    assert (Hst : PyStr.strip ("https://" +:+ w) = "https://" +:+ w).
    { unfold PyStr.strip.
      change (PyStr.lstrip_by PyStr.isspace ("https://" +:+ w))
        with ("https://" +:+ w).
      rewrite rstrip_by_app by (by rewrite Hsp). by rewrite Hsp. }
    rewrite Hst. unfold PyStr.rstrip_slash in *.
    rewrite rstrip_by_app by (by rewrite Hsl). rewrite Hsl.
    assert (Hpre : PyStr.startswith "https://" ("https://" +:+ w) = true).
    { apply prefix_app. by exists w. }
    rewrite Hpre, orb_true_r. done.
Qed.

Lemma clean_references_idem (refs : list Reference.t) :
  references_stable refs ->
  clean_references (clean_references refs) = clean_references refs.
Proof.
  intros Hst. unfold clean_references. rewrite !clean_references_loop_dedup.
  refine (dedup_by_idem _ _ _ _ refs Hst).
  intros r k Hr Hk. unfold reference_key in *.
  destruct (PyStr.truthy (Reference.url r)) eqn:Et; [|done].
  injection Hk as <-. destruct (normalize_url_stable _ (Hr eq_refl)) as [Hn Htr].
  cbn [Reference.set_url Reference.url]. by rewrite Htr, Hn.
Qed.

(** ** Packages *)

Lemma clean_package_idem (p : Package.t) :
  clean_package (clean_package p) = clean_package p.
Proof.
  unfold clean_package. cbv zeta.
  cbn [Package.name Package.ecosystem Package.platform Package.versions
       Package.affected_versions Package.fixed_versions].
  rewrite clean_name_idem, clean_versions_idem, !clean_version_strings_idem.
  f_equal.
  destruct (Package.ecosystem p) as [e|]; [|done]. cbn [PyStr.truthy_opt fmap option_fmap option_map].
  destruct (PyStr.truthy e) eqn:Ee; cbn [PyStr.truthy_opt fmap option_fmap option_map].
  - destruct (PyStr.truthy (PyStr.lower (PyStr.strip e))); [|done].
    cbn. by rewrite clean_name_idem.
  - by rewrite Ee.
Qed.

(** C6, amended: cleaning a cleaned record changes neither its patches
    nor its notes, and leaves every affected package as it is up to the
    order of its affected-version and fixed-version lists.  It leaves the
    description unchanged when the original description has no
    non-printable character other than whitespace and does not clean to
    the empty text, and the references unchanged when every non-empty URL,
    once trimmed and without trailing slashes, is non-empty and does not
    end in whitespace. *)
Theorem clean_vulnerability_idempotent (v : Vulnerability.t) :
  let c := clean_vulnerability v in
  let cc := clean_vulnerability c in
  Vulnerability.patches cc = Vulnerability.patches c
  /\ Vulnerability.notes cc = Vulnerability.notes c
  /\ Forall2 Package.same_up_to_order
       (Vulnerability.affected_packages cc) (Vulnerability.affected_packages c)
  /\ (description_stable (Vulnerability.description v) ->
      Vulnerability.description cc = Vulnerability.description c)
  /\ (references_stable (Vulnerability.references v) ->
      Vulnerability.references cc = Vulnerability.references c).
Proof.
  cbv zeta. unfold clean_vulnerability.
  cbn [Vulnerability.patches Vulnerability.notes Vulnerability.affected_packages
       Vulnerability.description Vulnerability.references].
  split; [apply clean_patches_idem|].
  split; [apply clean_notes_idem|].
  split; [|split].
  - rewrite map_map. induction (Vulnerability.affected_packages v) as [|p ps IH];
      [constructor|].
    cbn [map]. constructor; [|exact IH].
    rewrite clean_package_idem. by repeat split.
  - apply clean_description_idem.
  - apply clean_references_idem.
Qed.

(** The description and the references of [Samples.tidy] are stable. *)
Lemma clean_vulnerability_idempotent_witness :
  let c := clean_vulnerability Samples.tidy in
  let cc := clean_vulnerability c in
  Vulnerability.description cc = Vulnerability.description c
  /\ Vulnerability.references cc = Vulnerability.references c.
Proof.
  destruct (clean_vulnerability_idempotent Samples.tidy)
    as (_ & _ & _ & Hd & Hr).
  split.
  - apply Hd. split; [reflexivity|discriminate].
  - apply Hr. repeat constructor; discriminate.
Defined.

(** C6, as stated, fails: a description that is a single tag cleans to the
    empty text and then to no description; a control character between
    two spaces leaves a double space that the second cleaning removes; the
    URL [/] becomes [https://] and then [https://https:]. *)
Lemma second_cleaning_changes_record :
  Vulnerability.description
    (clean_vulnerability (clean_vulnerability Samples.tag_only))
  <> Vulnerability.description (clean_vulnerability Samples.tag_only)
  /\ Vulnerability.description
       (clean_vulnerability (clean_vulnerability Samples.control_char))
     <> Vulnerability.description (clean_vulnerability Samples.control_char)
  /\ Vulnerability.references
       (clean_vulnerability (clean_vulnerability Samples.slash_only))
     <> Vulnerability.references (clean_vulnerability Samples.slash_only).
Proof.
  repeat split; vm_compute; discriminate.
Qed.

(** * Further properties *)

Import Merging CleanAll Extraction Reports.

(** ** Merging two records (entities.py, [Vulnerability.merge]) *)

Lemma patch_urls_inv (ps : list (gmap string string)) (us : list string) :
  Vulnerability.patch_urls ps = Ok us ->
  Forall2 (fun (p : gmap string string) u => p !! "url" = Some u) ps us.
Proof.
  revert us. induction ps as [|p ps IH]; intros us; simpl.
  - intros [= <-]. constructor.
  - destruct (p !! "url") as [u|] eqn:Hu; [|done].
    destruct (Vulnerability.patch_urls ps) as [us'|e]; cbn; [|done].
    intros [= <-]. constructor; [done|]. by apply IH.
Qed.

Lemma patch_urls_raise (ps : list (gmap string string)) :
  ~ Forall (fun p : gmap string string => is_Some (p !! "url")) ps ->
  Vulnerability.patch_urls ps = Raise (KeyError "url").
Proof.
  induction ps as [|p ps IH]; simpl; intros H.
  - exfalso. apply H. constructor.
  - destruct (p !! "url") as [u|] eqn:Hu; [|done].
    rewrite IH; [done|]. intros HF. apply H. constructor; [by eexists|done].
Qed.

Lemma merge_patches_loop_raise (existing : gset string)
    (acc theirs : list (gmap string string)) :
  ~ Forall (fun p : gmap string string => is_Some (p !! "url")) theirs ->
  Vulnerability.merge_patches_loop existing acc theirs = Raise (KeyError "url").
Proof.
  revert acc. induction theirs as [|p ps IH]; intros acc H; simpl.
  - exfalso. apply H. constructor.
  - destruct (p !! "url") as [u|] eqn:Hu; [|done].
    assert (H' : ~ Forall (fun p : gmap string string => is_Some (p !! "url")) ps).
    { intros HF. apply H. constructor; [by eexists|done]. }
    destruct (bool_decide (u ∈ existing)); by apply IH.
Qed.

Lemma Forall_url_dec (ps : list (gmap string string)) :
  Decision (Forall (fun p : gmap string string => is_Some (p !! "url")) ps).
Proof. apply Forall_dec. intros p. apply _. Qed.


Lemma merge_different_ids (a b : Vulnerability.t) :
  Vulnerability.id a <> Vulnerability.id b ->
  Vulnerability.merge a b
  = Raise (ValueError "Cannot merge vulnerabilities with different IDs").
Proof.
  intros Hid. unfold Vulnerability.merge. apply String.eqb_neq in Hid.
  by rewrite Hid.
Qed.

Lemma merge_same_id (a b : Vulnerability.t) :
  Vulnerability.id a = Vulnerability.id b ->
  Vulnerability.patches_have_url a -> Vulnerability.patches_have_url b ->
  exists r, Vulnerability.merge a b = Ok r.
Proof.
  unfold Vulnerability.merge, Vulnerability.patches_have_url.
  intros Hid Ha Hb. rewrite Hid, String.eqb_refl. cbn [negb]. cbv zeta.
  destruct (merge_patches_ok _ _ Ha Hb) as [ps ->]. cbn [mbind result_bind].
  by eexists.
Qed.

(** X1: what [merge] answers.  Records with different identifiers are
    refused with a [ValueError]; records with the same identifier merge
    when every patch entry of both has a [url] key, and raise
    [KeyError('url')] when some patch entry lacks it. *)
Theorem merge_outcome (a b : Vulnerability.t) :
  (Vulnerability.id a <> Vulnerability.id b ->
   Vulnerability.merge a b
   = Raise (ValueError "Cannot merge vulnerabilities with different IDs"))
  /\ (Vulnerability.id a = Vulnerability.id b ->
      ~ (Vulnerability.patches_have_url a /\ Vulnerability.patches_have_url b) ->
      Vulnerability.merge a b = Raise (KeyError "url"))
  /\ (Vulnerability.id a = Vulnerability.id b ->
      Vulnerability.patches_have_url a -> Vulnerability.patches_have_url b ->
      exists r, Vulnerability.merge a b = Ok r).
Proof.
  split; [apply merge_different_ids|]. split; [|apply merge_same_id].
  unfold Vulnerability.merge, Vulnerability.patches_have_url.
  intros Hid Hno. rewrite Hid, String.eqb_refl. cbn [negb]. cbv zeta.
  unfold Vulnerability.merge_patches.
  destruct (Forall_url_dec (Vulnerability.patches a)) as [Ha|Ha].
  2:{ by rewrite patch_urls_raise. }
  destruct (patch_urls_ok _ Ha) as [us ->]. cbn [mbind result_bind].
  rewrite merge_patches_loop_raise; [done|]. intros Hb. by apply Hno.
Qed.

(** The two records of [Examples] have the same identifier and no patch
    without URL. *)
Lemma merge_outcome_witness :
  exists r, Vulnerability.merge Examples.record_a Examples.record_b = Ok r.
Proof.
  destruct (merge_outcome Examples.record_a Examples.record_b) as (_ & _ & H).
  apply H; [reflexivity|constructor|constructor].
Defined.

(** *** Merging a record with a copy of itself *)

Lemma merge_title_same (t : option string) : Vulnerability.merge_title t t = t.
Proof. unfold Vulnerability.merge_title. by destruct (PyStr.truthy_opt t). Qed.

Lemma merge_last_modified_same (d : option Z) :
  Vulnerability.merge_last_modified d d = d.
Proof. destruct d as [x|]; simpl; [|done]. by rewrite Z.ltb_irrefl. Qed.

Lemma merge_cvss_same (c : option CVSSMetrics.t) : Vulnerability.merge_cvss c c = c.
Proof. unfold Vulnerability.merge_cvss. by destruct c. Qed.

Lemma filter_none {A} (P : A -> Prop) `{!forall x, Decision (P x)} (l : list A) :
  Forall (fun x => ~ P x) l -> filter P l = [].
Proof.
  induction 1 as [|x l Hx _ IH]; [done|].
  rewrite filter_cons, decide_False by done. exact IH.
Qed.

Lemma merge_references_loop_known (existing : gset string)
    (acc theirs : list Reference.t) :
  Forall (fun r => Reference.url r ∈ existing) theirs ->
  Vulnerability.merge_references_loop existing acc theirs = acc.
Proof.
  induction 1 as [|r rs Hr _ IH]; simpl; [done|].
  by rewrite bool_decide_eq_true_2.
Qed.

Lemma merge_patches_loop_known (existing : gset string)
    (acc theirs : list (gmap string string)) :
  Forall (fun p : gmap string string =>
            exists u, p !! "url" = Some u /\ u ∈ existing) theirs ->
  Vulnerability.merge_patches_loop existing acc theirs = Ok acc.
Proof.
  induction 1 as [|p ps (u & Hu & Hin) _ IH]; simpl; [done|].
  rewrite Hu. by rewrite bool_decide_eq_true_2.
Qed.

(** X2: merging a record with a copy of itself changes nothing, provided
    every patch entry has a [url] key. *)
Theorem merge_with_copy (a : Vulnerability.t) :
  Vulnerability.patches_have_url a -> Vulnerability.merge a a = Ok a.
Proof.
  intros Ha. unfold Vulnerability.merge. rewrite String.eqb_refl. cbn [negb].
  cbv zeta.
  assert (Hp : Vulnerability.merge_patches (Vulnerability.patches a)
                 (Vulnerability.patches a) = Ok (Vulnerability.patches a)).
  { unfold Vulnerability.merge_patches.
    destruct (patch_urls_ok _ Ha) as [us Hus]. rewrite Hus. cbn [mbind result_bind].
    apply merge_patches_loop_known. apply patch_urls_inv in Hus.
    apply Forall_forall. intros p Hp.
    apply list_elem_of_lookup in Hp as [i Hi].
    destruct (Forall2_lookup_l _ _ _ _ _ Hus Hi) as (u & Hu & Hpu).
    exists u. split; [done|]. apply elem_of_list_to_set.
    by eapply list_elem_of_lookup_2. }
  rewrite Hp. cbn [mbind result_bind].
  rewrite !merge_title_same, merge_last_modified_same, !merge_cvss_same.
  assert (Hpk : Vulnerability.merge_packages (Vulnerability.affected_packages a)
                  (Vulnerability.affected_packages a)
                = Vulnerability.affected_packages a).
  { unfold Vulnerability.merge_packages. cbv zeta. rewrite filter_none.
    - apply app_nil_r.
    - apply Forall_forall. intros p Hin Hn. apply Hn.
      apply elem_of_list_to_set, list_elem_of_In, in_map, list_elem_of_In. done. }
  assert (Hr : Vulnerability.merge_references (Vulnerability.references a)
                 (Vulnerability.references a) = Vulnerability.references a).
  { unfold Vulnerability.merge_references. apply merge_references_loop_known.
    apply Forall_forall. intros r Hin.
    apply elem_of_list_to_set, list_elem_of_In, in_map, list_elem_of_In. done. }
  assert (Hn : Vulnerability.merge_notes (Vulnerability.notes a)
                 (Vulnerability.notes a) = Vulnerability.notes a).
  { unfold Vulnerability.merge_notes. rewrite filter_none.
    - apply app_nil_r.
    - apply Forall_forall. intros n Hin Hf.
      apply mem_spec in Hin. congruence. }
  rewrite Hpk, Hr, Hn, (idemp_L (∪) (Vulnerability.raw_data a)). by destruct a.
Qed.

Lemma merge_with_copy_witness :
  Vulnerability.merge Examples.patched Examples.patched = Ok Examples.patched.
Proof.
  apply (merge_with_copy Examples.patched).
  apply Forall_singleton. by eexists.
Defined.

(** The fields of a successful merge. *)
Lemma merge_fields (a b r : Vulnerability.t) :
  Vulnerability.merge a b = Ok r ->
  Vulnerability.id r = Vulnerability.id a
  /\ Vulnerability.title r
     = Vulnerability.merge_title (Vulnerability.title a) (Vulnerability.title b)
  /\ Vulnerability.description r
     = Vulnerability.merge_title (Vulnerability.description a)
         (Vulnerability.description b)
  /\ Vulnerability.last_modified_date r
     = Vulnerability.merge_last_modified (Vulnerability.last_modified_date a)
         (Vulnerability.last_modified_date b)
  /\ Vulnerability.cvss_v3 r
     = Vulnerability.merge_cvss (Vulnerability.cvss_v3 a) (Vulnerability.cvss_v3 b)
  /\ Vulnerability.cvss_v2 r
     = Vulnerability.merge_cvss (Vulnerability.cvss_v2 a) (Vulnerability.cvss_v2 b)
  /\ Vulnerability.affected_packages r
     = Vulnerability.merge_packages (Vulnerability.affected_packages a)
         (Vulnerability.affected_packages b)
  /\ Vulnerability.references r
     = Vulnerability.merge_references (Vulnerability.references a)
         (Vulnerability.references b)
  /\ Vulnerability.merge_patches (Vulnerability.patches a) (Vulnerability.patches b)
     = Ok (Vulnerability.patches r)
  /\ Vulnerability.notes r
     = Vulnerability.merge_notes (Vulnerability.notes a) (Vulnerability.notes b)
  /\ Vulnerability.raw_data r = Vulnerability.raw_data b ∪ Vulnerability.raw_data a.
Proof.
  unfold Vulnerability.merge.
  destruct (negb _); [done|]. cbv zeta.
  destruct (Vulnerability.merge_patches _ _) as [ps|e]; [|done].
  cbn [mbind result_bind]. intros [= <-]. cbn. repeat split.
Qed.

(** X3: the packages of a merge are those of the first record followed by
    the packages of the second whose name the first does not have; so the
    names of the result are the names of both, and they are distinct when
    they are distinct in each record. *)
Theorem merge_packages_by_name (a b r : Vulnerability.t) :
  Vulnerability.merge a b = Ok r ->
  Vulnerability.affected_packages r
  = Vulnerability.affected_packages a
    ++ filter (fun p => Package.name p
                        ∉ package_names (Vulnerability.affected_packages a))
              (Vulnerability.affected_packages b)
  /\ (forall n, n ∈ package_names (Vulnerability.affected_packages r)
                <-> n ∈ package_names (Vulnerability.affected_packages a)
                    \/ n ∈ package_names (Vulnerability.affected_packages b))
  /\ (NoDup (package_names (Vulnerability.affected_packages a)) ->
      NoDup (package_names (Vulnerability.affected_packages b)) ->
      NoDup (package_names (Vulnerability.affected_packages r))).
Proof.
  intros Hm. apply merge_fields in Hm as (_ & _ & _ & _ & _ & _ & Hp & _).
  rewrite Hp. unfold Vulnerability.merge_packages, package_names. cbv zeta.
  set (pa := Vulnerability.affected_packages a).
  set (pb := Vulnerability.affected_packages b).
  assert (Hset : forall x, x ∈ (list_to_set (map Package.name pa) : gset string)
                           <-> x ∈ Package.name <$> pa).
  { intros x. by rewrite elem_of_list_to_set. }
  assert (Hf : filter (fun p => Package.name p
                         ∉ (list_to_set (map Package.name pa) : gset string)) pb
               = filter (fun p => Package.name p ∉ Package.name <$> pa) pb).
  { apply list_filter_iff. intros p. by rewrite Hset. }
  rewrite Hf. split; [done|]. split.
  - intros n. rewrite fmap_app, elem_of_app, !list_elem_of_fmap. split.
    + intros [H|(p & -> & Hp')]; [by left|].
      apply list_elem_of_filter in Hp' as [_ Hp']. right. by exists p.
    + intros [H|(p & -> & Hp')]; [by left|].
      destruct (decide (Package.name p ∈ Package.name <$> pa)) as [Hin|Hin].
      * left. by apply list_elem_of_fmap in Hin.
      * right. exists p. split; [done|]. by apply list_elem_of_filter.
  - intros Ha Hb. rewrite fmap_app. apply NoDup_app. split; [done|]. split.
    + intros n Hn Hn'. apply list_elem_of_fmap in Hn' as (p & -> & Hp').
      apply list_elem_of_filter in Hp' as [Hp' _]. done.
    + revert Hb. generalize pb. clear. intros pb Hb.
      induction pb as [|p pb IH]; [constructor|].
      cbn in Hb. apply NoDup_cons in Hb as [Hp Hb].
      rewrite filter_cons. case_decide; [|by apply IH].
      cbn. apply NoDup_cons. split; [|by apply IH].
      intros Hin. apply Hp. apply list_elem_of_fmap in Hin as (q & Hq & Hin).
      apply list_elem_of_filter in Hin as [_ Hin].
      apply list_elem_of_fmap. by exists q.
Qed.

Lemma merge_packages_by_name_witness :
  Vulnerability.affected_packages Examples.merged_ab
  = [Samples.pkg "lodash" (Some "npm") None; Samples.pkg "minimist" (Some "npm") None]
  /\ NoDup (package_names (Vulnerability.affected_packages Examples.merged_ab)).
Proof.
  destruct (merge_packages_by_name Examples.record_a Examples.record_b
              Examples.merged_ab) as (H1 & _ & H3); [reflexivity|].
  split; [reflexivity|]. apply H3.
  - apply NoDup_singleton.
  - apply NoDup_cons. split; [|apply NoDup_singleton].
    intros H. apply list_elem_of_singleton in H. discriminate.
Defined.

Lemma merge_references_loop_spec (existing : gset string)
    (acc theirs : list Reference.t) :
  (forall u, u ∈ existing <-> u ∈ reference_urls acc) ->
  exists added,
    Vulnerability.merge_references_loop existing acc theirs = acc ++ added
    /\ (forall r, r ∈ added -> r ∈ theirs)
    /\ (forall u, u ∈ reference_urls (acc ++ added)
                  <-> u ∈ reference_urls acc \/ u ∈ reference_urls theirs)
    /\ (NoDup (reference_urls acc) -> NoDup (reference_urls (acc ++ added))).
Proof.
  revert existing acc. induction theirs as [|r rs IH]; intros existing acc Hex; simpl.
  - exists []. rewrite app_nil_r. split; [done|]. split; [done|]. split; [|done].
    intros u. split; [by left|]. intros [?|H]; [done|]. by apply elem_of_nil in H.
  - case_bool_decide as Hin.
    + destruct (IH existing acc Hex) as (added & -> & Hsub & Hmem & Hnd).
      exists added. split; [done|]. split; [|split; [|done]].
      * intros x Hx. apply elem_of_cons. right. by apply Hsub.
      * intros u. rewrite Hmem. unfold reference_urls at 4. cbn.
        rewrite elem_of_cons. split; [intros [?|?]; tauto|].
        intros [?|[->|?]]; [tauto| |tauto]. left. by apply Hex.
    + destruct (IH ({[Reference.url r]} ∪ existing) (acc ++ [r])) as
        (added & -> & Hsub & Hmem & Hnd).
      { intros u. unfold reference_urls. rewrite fmap_app, elem_of_app.
        rewrite elem_of_union, elem_of_singleton, Hex. cbn.
        rewrite list_elem_of_singleton. tauto. }
      exists (r :: added). rewrite <- app_assoc. split; [done|]. split; [|split].
      * intros x Hx. apply elem_of_cons in Hx as [->|Hx]; apply elem_of_cons;
          [by left|right; by apply Hsub].
      * intros u. rewrite <- app_assoc in Hmem. cbn in Hmem. rewrite Hmem.
        unfold reference_urls. rewrite fmap_app, elem_of_app. cbn.
        rewrite list_elem_of_singleton, elem_of_cons. tauto.
      * intros Hacc. rewrite <- app_assoc in Hnd. apply Hnd.
        unfold reference_urls. rewrite fmap_app. apply NoDup_app.
        split; [done|]. split; [|apply NoDup_singleton].
        intros u Hu Hu'. cbn in Hu'. apply list_elem_of_singleton in Hu' as ->.
        apply Hin. by apply Hex.
Qed.

(** X4: the references of a merge are those of the first record followed
    by references of the second; the URLs of the result are the URLs of
    both, and no URL is repeated when none is repeated in the first
    record. *)
Theorem merge_references_by_url (a b r : Vulnerability.t) :
  Vulnerability.merge a b = Ok r ->
  exists added,
    Vulnerability.references r = Vulnerability.references a ++ added
    /\ (forall x, x ∈ added -> x ∈ Vulnerability.references b)
    /\ (forall u, u ∈ reference_urls (Vulnerability.references r)
                  <-> u ∈ reference_urls (Vulnerability.references a)
                      \/ u ∈ reference_urls (Vulnerability.references b))
    /\ (NoDup (reference_urls (Vulnerability.references a)) ->
        NoDup (reference_urls (Vulnerability.references r))).
Proof.
  intros Hm. apply merge_fields in Hm as (_ & _ & _ & _ & _ & _ & _ & Hr & _).
  rewrite Hr. unfold Vulnerability.merge_references.
  destruct (merge_references_loop_spec
              (list_to_set (map Reference.url (Vulnerability.references a)))
              (Vulnerability.references a) (Vulnerability.references b))
    as (added & -> & H).
  { intros u. by rewrite elem_of_list_to_set. }
  by exists added.
Qed.

Lemma merge_references_by_url_witness :
  NoDup (reference_urls (Vulnerability.references Examples.merged_ab)).
Proof.
  destruct (merge_references_by_url Examples.record_a Examples.record_b
              Examples.merged_ab) as (added & _ & _ & _ & H); [reflexivity|].
  apply H, NoDup_singleton.
Defined.

(** X5: the notes of a merge are those of the first record followed by
    the notes of the second that the first does not have, and in the raw
    data the second record wins on a common key. *)
Theorem merge_notes_and_raw_data (a b r : Vulnerability.t) :
  Vulnerability.merge a b = Ok r ->
  Vulnerability.notes r
  = Vulnerability.notes a
    ++ filter (fun n => n ∉ Vulnerability.notes a) (Vulnerability.notes b)
  /\ (forall n, n ∈ Vulnerability.notes r
                <-> n ∈ Vulnerability.notes a \/ n ∈ Vulnerability.notes b)
  /\ (forall k, Vulnerability.raw_data r !! k
                = match Vulnerability.raw_data b !! k with
                  | Some v => Some v
                  | None => Vulnerability.raw_data a !! k
                  end).
Proof.
  intros Hm. apply merge_fields in Hm as (_ & _ & _ & _ & _ & _ & _ & _ & _ & Hn & Hd).
  rewrite Hn, Hd. unfold Vulnerability.merge_notes.
  assert (Hf : filter (fun n => PyStr.mem n (Vulnerability.notes a) = false)
                 (Vulnerability.notes b)
               = filter (fun n => n ∉ Vulnerability.notes a) (Vulnerability.notes b)).
  { apply list_filter_iff. intros n. rewrite <- mem_spec.
    destruct (PyStr.mem n (Vulnerability.notes a)); split; congruence. }
  rewrite Hf. split; [done|]. split.
  - intros n. rewrite elem_of_app, list_elem_of_filter. split.
    + intros [?|[_ ?]]; tauto.
    + intros [?|?]; [tauto|].
      destruct (decide (n ∈ Vulnerability.notes a)); tauto.
  - intros k. rewrite lookup_union.
    destruct (Vulnerability.raw_data b !! k), (Vulnerability.raw_data a !! k); done.
Qed.

Lemma merge_notes_and_raw_data_witness :
  Vulnerability.notes Examples.merged_ab = ["first seen"; "confirmed"].
Proof.
  destruct (merge_notes_and_raw_data Examples.record_a Examples.record_b
              Examples.merged_ab) as (H & _); [reflexivity|].
  rewrite H. reflexivity.
Defined.

(** ** Merging a group (cleaner.py, [merge_vulnerabilities]) *)

Lemma fold_merge_title (t0 : option string) (rest : list (option string)) :
  fold_left Vulnerability.merge_title rest t0 = first_text t0 rest.
Proof.
  unfold first_text. cbn [List.find].
  destruct (PyStr.truthy_opt t0) eqn:E0.
  - induction rest as [|t rest IH]; [done|]. cbn [fold_left].
    rewrite merge_title_keeps by done. exact IH.
  - revert t0 E0. induction rest as [|t rest IH]; intros t0 E0; [done|].
    cbn [fold_left List.find]. unfold Vulnerability.merge_title at 2. rewrite E0.
    destruct (PyStr.truthy_opt t) eqn:Et; cbn [andb negb].
    + clear IH. induction rest as [|t' rest IH]; [done|]. cbn [fold_left].
      rewrite merge_title_keeps by done. exact IH.
    + by apply IH.
Qed.

Lemma fold_merge_cvss (c0 : option CVSSMetrics.t) (rest : list (option CVSSMetrics.t)) :
  fold_left Vulnerability.merge_cvss rest c0 = first_cvss (c0 :: rest).
Proof.
  unfold first_cvss. revert c0. induction rest as [|c rest IH]; intros c0.
  - by destruct c0.
  - cbn [fold_left]. rewrite IH. destruct c0, c; reflexivity.
Qed.

Lemma max_date_assoc (a b c : option Z) :
  Spec.max_date a (Spec.max_date b c) = Spec.max_date (Spec.max_date a b) c.
Proof. destruct a, b, c; simpl; try done. f_equal; lia. Qed.

Lemma fold_merge_last_modified (d0 : option Z) (rest : list (option Z)) :
  fold_left Vulnerability.merge_last_modified rest d0 = latest_date (d0 :: rest).
Proof.
  unfold latest_date. revert d0. induction rest as [|d rest IH]; intros d0.
  - cbn. by destruct d0.
  - cbn [fold_left]. rewrite IH, merge_last_modified_max. cbn [foldr].
    by rewrite max_date_assoc.
Qed.

Lemma merge_patches_loop_Forall (P : gmap string string -> Prop)
    (existing : gset string) (acc theirs r : list (gmap string string)) :
  Forall P acc -> Forall P theirs ->
  Vulnerability.merge_patches_loop existing acc theirs = Ok r -> Forall P r.
Proof.
  intros Hacc Hth. revert acc Hacc. induction Hth as [|p ps Hp _ IH];
    intros acc Hacc; simpl.
  - intros [= <-]. exact Hacc.
  - destruct (p !! "url"); [|done]. destruct (bool_decide _).
    + by apply IH.
    + apply IH. apply Forall_app. split; [done|]. by apply Forall_singleton.
Qed.

Lemma merge_keeps_patch_urls (a b r : Vulnerability.t) :
  Vulnerability.patches_have_url a -> Vulnerability.patches_have_url b ->
  Vulnerability.merge a b = Ok r -> Vulnerability.patches_have_url r.
Proof.
  intros Ha Hb Hm. apply merge_fields in Hm as (_&_&_&_&_&_&_&_& Hp & _).
  unfold Vulnerability.merge_patches in Hp.
  destruct (Vulnerability.patch_urls _); cbn in Hp; [|done].
  eapply merge_patches_loop_Forall; [exact Ha|exact Hb|exact Hp].
Qed.

Lemma merge_into_ok (base : Vulnerability.t) (rest : list Vulnerability.t) :
  Forall (fun v => Vulnerability.id v = Vulnerability.id base) rest ->
  Vulnerability.patches_have_url base ->
  Forall Vulnerability.patches_have_url rest ->
  exists r,
    merge_into base rest = Ok r
    /\ Vulnerability.id r = Vulnerability.id base
    /\ Vulnerability.patches_have_url r
    /\ Vulnerability.title r
       = fold_left Vulnerability.merge_title (Vulnerability.title <$> rest)
           (Vulnerability.title base)
    /\ Vulnerability.description r
       = fold_left Vulnerability.merge_title (Vulnerability.description <$> rest)
           (Vulnerability.description base)
    /\ Vulnerability.last_modified_date r
       = fold_left Vulnerability.merge_last_modified
           (Vulnerability.last_modified_date <$> rest)
           (Vulnerability.last_modified_date base)
    /\ Vulnerability.cvss_v3 r
       = fold_left Vulnerability.merge_cvss (Vulnerability.cvss_v3 <$> rest)
           (Vulnerability.cvss_v3 base)
    /\ Vulnerability.cvss_v2 r
       = fold_left Vulnerability.merge_cvss (Vulnerability.cvss_v2 <$> rest)
           (Vulnerability.cvss_v2 base).
Proof.
  intros Hid Hb Hrest. revert base Hid Hb.
  induction Hrest as [|v rest Hv _ IH]; intros base Hid Hb.
  - exists base. by repeat split.
  - apply Forall_cons in Hid as [Hvid Hid]. cbn [merge_into].
    destruct (merge_same_id base v (eq_sym Hvid) Hb Hv) as [r1 Hr1]. rewrite Hr1.
    cbn [mbind result_bind].
    pose proof (merge_keeps_patch_urls _ _ _ Hb Hv Hr1) as Hp1.
    apply merge_fields in Hr1 as (Hi & Ht & Hd & Hl & H3 & H2 & _).
    destruct (IH r1) as (r & Hr & Hri & Hrp & Hrt & Hrd & Hrl & Hr3 & Hr2).
    { eapply Forall_impl; [exact Hid|]. intros x Hx. cbn in Hx. congruence. }
    { done. }
    exists r. split; [done|]. split; [congruence|]. split; [done|].
    cbn [fmap list_fmap fold_left].
    rewrite <- Ht, <- Hd, <- Hl, <- H3, <- H2. by repeat split.
Qed.

(** X6: a group of records with one identifier, none with a patch
    without URL, merges into a record that has the first non-empty title
    and description of the group, its latest modification date and its
    first CVSS v3 and v2 scores. *)
Theorem merge_vulnerabilities_first_wins (v0 : Vulnerability.t)
    (rest : list Vulnerability.t) :
  Forall (fun v => Vulnerability.id v = Vulnerability.id v0) rest ->
  Forall Vulnerability.patches_have_url (v0 :: rest) ->
  exists r,
    merge_vulnerabilities (v0 :: rest) = Ok r
    /\ Vulnerability.id r = Vulnerability.id v0
    /\ Vulnerability.title r
       = first_text (Vulnerability.title v0) (Vulnerability.title <$> rest)
    /\ Vulnerability.description r
       = first_text (Vulnerability.description v0)
           (Vulnerability.description <$> rest)
    /\ Vulnerability.last_modified_date r
       = latest_date (Vulnerability.last_modified_date <$> v0 :: rest)
    /\ Vulnerability.cvss_v3 r = first_cvss (Vulnerability.cvss_v3 <$> v0 :: rest)
    /\ Vulnerability.cvss_v2 r = first_cvss (Vulnerability.cvss_v2 <$> v0 :: rest).
Proof.
  intros Hid Hp. apply Forall_cons in Hp as [Hp0 Hp].
  destruct (merge_into_ok v0 rest Hid Hp0 Hp)
    as (r & Hr & Hi & _ & Ht & Hd & Hl & H3 & H2).
  exists r. cbn [merge_vulnerabilities]. split; [done|].
  split; [done|].
  rewrite Ht, Hd, Hl, H3, H2.
  rewrite !fold_merge_title, fold_merge_last_modified, !fold_merge_cvss.
  by repeat split.
Qed.

Lemma merge_vulnerabilities_first_wins_witness :
  exists r,
    merge_vulnerabilities [Samples.first_a; Samples.first_b] = Ok r
    /\ Vulnerability.title r = Some "A".
Proof.
  destruct (merge_vulnerabilities_first_wins Samples.first_a [Samples.first_b])
    as (r & Hr & _ & Ht & _).
  - by repeat constructor.
  - by repeat constructor.
  - exists r. split; [exact Hr|]. rewrite Ht. reflexivity.
Defined.

Lemma merge_into_mismatch (base : Vulnerability.t) (rest : list Vulnerability.t) :
  Vulnerability.patches_have_url base ->
  Forall Vulnerability.patches_have_url rest ->
  ~ Forall (fun v => Vulnerability.id v = Vulnerability.id base) rest ->
  merge_into base rest
  = Raise (ValueError "Cannot merge vulnerabilities with different IDs").
Proof.
  intros Hb Hrest. revert base Hb.
  induction Hrest as [|v rest Hv _ IH]; intros base Hb Hno.
  - exfalso. apply Hno. constructor.
  - cbn [merge_into].
    destruct (decide (Vulnerability.id base = Vulnerability.id v)) as [Hid|Hid].
    + destruct (merge_same_id base v Hid Hb Hv) as [r1 Hr1]. rewrite Hr1.
      cbn [mbind result_bind].
      pose proof (merge_keeps_patch_urls _ _ _ Hb Hv Hr1) as Hp1.
      apply merge_fields in Hr1 as (Hi & _).
      apply IH; [done|]. intros HF. apply Hno. constructor; [done|].
      eapply Forall_impl; [exact HF|]. intros x Hx. cbn in Hx. congruence.
    + by rewrite (merge_different_ids base v Hid).
Qed.

(** X7: when no record has a patch without URL, [merge_vulnerabilities]
    raises [ValueError] on the empty list, merges a non-empty list exactly
    when all its records have the identifier of the first, keeps that
    identifier, and fails with nothing but a [ValueError]. *)
Theorem merge_vulnerabilities_failures (vs : list Vulnerability.t) :
  Forall Vulnerability.patches_have_url vs ->
  match vs with
  | [] =>
      merge_vulnerabilities vs
      = Raise (ValueError "Empty vulnerability list")
  | v0 :: rest =>
      (exists r, merge_vulnerabilities vs = Ok r)
      <-> Forall (fun v => Vulnerability.id v = Vulnerability.id v0) rest
  end
  /\ (forall r, merge_vulnerabilities vs = Ok r ->
                exists v0, head vs = Some v0
                           /\ Vulnerability.id r = Vulnerability.id v0)
  /\ (forall e, merge_vulnerabilities vs = Raise e ->
                exists msg, e = ValueError msg).
Proof.
  intros Hp. destruct vs as [|v0 rest].
  { split; [done|]. split; [done|]. intros e [= <-]. by eexists. }
  apply Forall_cons in Hp as [Hp0 Hp].
  destruct (decide (Forall (fun v => Vulnerability.id v = Vulnerability.id v0) rest))
    as [Hid|Hid].
  - destruct (merge_into_ok v0 rest Hid Hp0 Hp) as (r & Hr & Hi & _).
    cbn [merge_vulnerabilities]. rewrite Hr.
    split; [split; [done|by exists r]|]. split.
    + intros r' [= <-]. by exists v0.
    + done.
  - cbn [merge_vulnerabilities].
    rewrite (merge_into_mismatch v0 rest Hp0 Hp Hid).
    split; [split; [by intros [r ?]|done]|]. split; [done|].
    intros e [= <-]. by eexists.
Qed.

Lemma merge_vulnerabilities_failures_witness :
  exists r, merge_vulnerabilities [Samples.first_a; Samples.first_b] = Ok r.
Proof.
  destruct (merge_vulnerabilities_failures [Samples.first_a; Samples.first_b])
    as (H & _); [by repeat constructor|].
  apply H. by repeat constructor.
Defined.

(** ** What the cleaning loops return (cleaner.py) *)

Section DedupOutput.

Context {A : Type}.
Variable key : A -> option string.
Variable upd : A -> string -> A.
Variable okey : A -> string.
Hypothesis okey_upd : forall x k, key x = Some k -> okey (upd x k) = k.

Lemma dedup_by_origin (seen : gset string) (xs : list A) (y : A) :
  y ∈ dedup_by key upd seen xs ->
  exists x k, x ∈ xs /\ key x = Some k /\ (k ∉ seen) /\ y = upd x k.
Proof.
  revert seen. induction xs as [|x xs IH]; intros seen; simpl.
  - intros H. by apply elem_of_nil in H.
  - assert (Hlift : (exists x' k, x' ∈ xs /\ key x' = Some k /\ (k ∉ seen) /\ y = upd x' k)
                    -> exists x' k, x' ∈ x :: xs /\ key x' = Some k /\ (k ∉ seen)
                                    /\ y = upd x' k).
    { intros (x' & k & Hx' & H). exists x', k. split; [|done].
      apply elem_of_cons. by right. }
    destruct (key x) as [k|] eqn:Ek; [|by intros H; apply Hlift, IH].
    case_bool_decide as Hk; [by intros H; apply Hlift, IH|].
    intros Hy. apply elem_of_cons in Hy as [->|Hy].
    + exists x, k. split; [apply elem_of_cons; by left|done].
    + apply IH in Hy as (x' & k' & Hx' & Hk' & Hns & ->). apply Hlift.
      exists x', k'. repeat split; try done.
      intros Hin. apply Hns, elem_of_union. by right.
Qed.

Lemma dedup_by_distinct (seen : gset string) (xs : list A) :
  NoDup (okey <$> dedup_by key upd seen xs)
  /\ forall y, y ∈ dedup_by key upd seen xs -> okey y ∉ seen.
Proof.
  revert seen. induction xs as [|x xs IH]; intros seen; simpl.
  - split; [constructor|]. intros y H. by apply elem_of_nil in H.
  - destruct (key x) as [k|] eqn:Ek; [|apply IH].
    case_bool_decide as Hk; [apply IH|].
    destruct (IH ({[k]} ∪ seen)) as [Hnd Hout]. split.
    + cbn. rewrite (okey_upd x k Ek). apply NoDup_cons. split; [|done].
      intros Hin. apply list_elem_of_fmap in Hin as (y & -> & Hy).
      apply (Hout y Hy), elem_of_union. left. by apply elem_of_singleton.
    + intros y Hy. apply elem_of_cons in Hy as [->|Hy].
      * by rewrite (okey_upd x k Ek).
      * intros Hin. apply (Hout y Hy), elem_of_union. by right.
Qed.

Lemma dedup_by_complete (seen : gset string) (xs : list A) (x : A) (k : string) :
  x ∈ xs -> key x = Some k ->
  k ∈ seen \/ k ∈ okey <$> dedup_by key upd seen xs.
Proof.
  revert seen. induction xs as [|x0 xs IH]; intros seen Hx Hk.
  - by apply elem_of_nil in Hx.
  - simpl. apply elem_of_cons in Hx as [<-|Hx].
    + rewrite Hk. case_bool_decide; [by left|]. right. cbn.
      rewrite (okey_upd x k Hk). apply elem_of_cons. by left.
    + destruct (key x0) as [k0|] eqn:E0; [|by apply IH].
      case_bool_decide as H0; [by apply IH|].
      destruct (IH ({[k0]} ∪ seen) Hx Hk) as [Hin|Hin].
      * apply elem_of_union in Hin as [Hin|Hin]; [|by left].
        apply elem_of_singleton in Hin as ->. right. cbn.
        rewrite (okey_upd x0 k0 E0). apply elem_of_cons. by left.
      * right. cbn. apply elem_of_cons. by right.
Qed.

Lemma dedup_by_first (seen : gset string) (pre post : list A) (x : A) (k : string) :
  key x = Some k -> k ∉ seen ->
  (forall q, q ∈ pre -> key q <> Some k) ->
  upd x k ∈ dedup_by key upd seen (pre ++ x :: post).
Proof.
  revert seen. induction pre as [|q pre IH]; intros seen Hk Hns Hpre; simpl.
  - rewrite Hk. rewrite bool_decide_eq_false_2 by done. apply elem_of_cons. by left.
  - assert (Hpre' : forall q', q' ∈ pre -> key q' <> Some k).
    { intros q' Hq'. apply Hpre, elem_of_cons. by right. }
    destruct (key q) as [kq|] eqn:Eq; [|by apply IH].
    case_bool_decide; [by apply IH|].
    apply elem_of_cons. right. apply IH; try done.
    rewrite elem_of_union, elem_of_singleton. intros [->|?]; [|done].
    apply (Hpre q); [apply elem_of_cons; by left|done].
Qed.

Lemma dedup_by_length (seen : gset string) (xs : list A) :
  (length (dedup_by key upd seen xs) <= length xs)%nat.
Proof.
  revert seen. induction xs as [|x xs IH]; intros seen; simpl; [done|].
  destruct (key x); [|by etrans; [apply IH|lia]].
  case_bool_decide; [by etrans; [apply IH|lia]|]. simpl. specialize (IH ({[s]} ∪ seen)). lia.
Qed.

End DedupOutput.

Lemma normalize_url_scheme (u : string) :
  PyStr.startswith "http://" (normalize_url u)
  || PyStr.startswith "https://" (normalize_url u) = true.
Proof.
  unfold normalize_url. cbv zeta.
  set (w := PyStr.rstrip_slash (PyStr.strip u)).
  destruct (PyStr.startswith "http://" w || PyStr.startswith "https://" w) eqn:E;
    cbn [negb]; [done|].
  apply orb_true_iff. right. apply prefix_app. by eexists.
Qed.


(** X8: the list returned by [clean_references] has no two entries with
    the same URL and is no longer than its input; every entry is an input
    reference with a non-empty URL, carrying the normalised form of that
    URL, which starts with [http://] or [https://]; the normalised URL of
    every input reference with a non-empty URL occurs in the result, and
    the entry kept for a URL is the first input reference that normalises
    to it. *)
Theorem clean_references_output (refs : list Reference.t) :
  NoDup (Reference.url <$> clean_references refs)
  /\ (length (clean_references refs) <= length refs)%nat
  /\ (forall r, r ∈ clean_references refs ->
        (PyStr.startswith "http://" (Reference.url r)
         || PyStr.startswith "https://" (Reference.url r) = true)
        /\ exists r0, r0 ∈ refs /\ PyStr.truthy (Reference.url r0) = true
                      /\ r = Reference.set_url r0 (normalize_url (Reference.url r0)))
  /\ (forall r0, r0 ∈ refs -> PyStr.truthy (Reference.url r0) = true ->
        normalize_url (Reference.url r0) ∈ Reference.url <$> clean_references refs)
  /\ (forall pre r0 post,
        refs = pre ++ r0 :: post -> PyStr.truthy (Reference.url r0) = true ->
        (forall q, q ∈ pre -> PyStr.truthy (Reference.url q) = true ->
                   normalize_url (Reference.url q) <> normalize_url (Reference.url r0)) ->
        Reference.set_url r0 (normalize_url (Reference.url r0)) ∈ clean_references refs).
Proof.
  unfold clean_references. rewrite clean_references_loop_dedup.
  assert (Hokey : forall (x : Reference.t) k,
            reference_key x = Some k -> Reference.url (Reference.set_url x k) = k)
    by done.
  split; [apply (dedup_by_distinct _ _ _ Hokey)|].
  split; [apply dedup_by_length|]. split; [|split].
  - intros r Hr. apply dedup_by_origin in Hr as (r0 & k & Hr0 & Hk & _ & ->).
    unfold reference_key in Hk.
    destruct (PyStr.truthy (Reference.url r0)) eqn:Et; [|done].
    injection Hk as <-. split; [apply normalize_url_scheme|]. by exists r0.
  - intros r0 Hr0 Ht.
    assert (Hk : reference_key r0 = Some (normalize_url (Reference.url r0))).
    { unfold reference_key. by rewrite Ht. }
    destruct (dedup_by_complete _ _ _ Hokey ∅ refs r0 _ Hr0 Hk) as [Hin|Hin]; [|done].
    by apply not_elem_of_empty in Hin.
  - intros pre r0 post -> Ht Hpre. apply dedup_by_first.
    + unfold reference_key. by rewrite Ht.
    + apply not_elem_of_empty.
    + intros q Hq. unfold reference_key.
      destruct (PyStr.truthy (Reference.url q)) eqn:Eq; [|done].
      intros [= E]. by apply (Hpre q).
Qed.

Lemma clean_references_output_witness :
  normalize_url "example.com/a" ∈ Reference.url <$> clean_references Samples.two_schemes.
Proof.
  destruct (clean_references_output Samples.two_schemes) as (_ & _ & _ & H & _).
  apply (H (Samples.ref "example.com/a")); [|reflexivity].
  apply elem_of_cons. by left.
Defined.

Lemma filter_chars_all_chars (p : ascii -> bool) (s : string) :
  all_chars p (PyStr.filter_chars p s) = true.
Proof.
  induction s as [|c s IH]; simpl; [done|].
  destruct (p c) eqn:E; [|done]. simpl. by rewrite E.
Qed.

Lemma after_gt_filter (p : ascii -> bool) (s : string) :
  after_gt s = None -> after_gt (PyStr.filter_chars p s) = None.
Proof.
  induction s as [|c s IH]; simpl; [done|].
  destruct (Ascii.eqb c ">") eqn:E; [done|]. intros H.
  destruct (p c); [|by apply IH]. simpl. rewrite E. by apply IH.
Qed.

Lemma tag_free_filter (p : ascii -> bool) (s : string) :
  p "<"%char = true -> p ">"%char = true ->
  tag_free s -> tag_free (PyStr.filter_chars p s).
Proof.
  intros Hlt Hgt. induction s as [|c r IH]; [done|].
  cbn [tag_free PyStr.filter_chars].
  destruct (Ascii.eqb c "<") eqn:Ec.
  - apply Ascii.eqb_eq in Ec as ->. rewrite Hlt. cbn [tag_free].
    change (Ascii.eqb "<" "<") with true. cbv iota.
    destruct r as [|c1 r1]; [done|].
    destruct (Ascii.eqb c1 ">") eqn:E1.
    + apply Ascii.eqb_eq in E1 as ->. intros Hr. specialize (IH Hr).
      cbn [PyStr.filter_chars] in *. rewrite Hgt in *.
      change (Ascii.eqb ">" ">") with true. exact IH.
    + intros Hr. pose proof (after_gt_filter p _ Hr) as Hf.
      destruct (PyStr.filter_chars p (String c1 r1)) as [|d1 t1]; [done|].
      destruct (Ascii.eqb d1 ">") eqn:Ed; [|exact Hf].
      simpl in Hf. by rewrite Ed in Hf.
  - intros Hr. specialize (IH Hr). destruct (p c); [|exact IH].
    cbn [tag_free]. by rewrite Ec.
Qed.

(** X9: [clean_description] answers [None] exactly for a missing or empty
    description; any other answer consists of printable characters only
    and contains no tag, so that removing tags from it again changes
    nothing. *)
Theorem clean_description_output (desc : option string) :
  match clean_description desc with
  | None => desc = None \/ desc = Some ""
  | Some d =>
      PyStr.truthy_opt desc = true
      /\ all_chars PyStr.isprintable d = true
      /\ strip_tags d = d
  end.
Proof.
  unfold clean_description. destruct desc as [s|]; cbn [PyStr.truthy_opt negb].
  - destruct (PyStr.truthy s) eqn:Es; cbn [negb].
    + cbv zeta. split; [done|]. split; [apply filter_chars_all_chars|].
      apply strip_tags_fixed, tag_free_filter; [done|done|].
      eapply squeezed_tag_free; [apply squeezed_collapse|apply strip_tags_tag_free].
    + right. by destruct s.
  - by left.
Qed.

(** X10: a cleaned package has a trimmed, lower-case name and its
    platform unchanged.  Its version entries have distinct, non-empty,
    trimmed version strings, each entry being an input entry with its
    version trimmed, and every non-blank input version is represented.
    Its affected and fixed version lists have no duplicates and hold
    exactly the non-empty trimmed forms of the input entries. *)
Theorem clean_package_output (pkg : Package.t) :
  let p := clean_package pkg in
  PyStr.strip (Package.name p) = Package.name p
  /\ PyStr.lower (Package.name p) = Package.name p
  /\ Package.platform p = Package.platform pkg
  /\ NoDup (Version.version <$> Package.versions p)
  /\ (forall v, v ∈ Package.versions p ->
        Version.version v <> "" /\ PyStr.strip (Version.version v) = Version.version v
        /\ exists v0, v0 ∈ Package.versions pkg
                      /\ v = Version.set_version v0 (PyStr.strip (Version.version v0)))
  /\ (forall v0, v0 ∈ Package.versions pkg -> PyStr.strip (Version.version v0) <> "" ->
        PyStr.strip (Version.version v0) ∈ Version.version <$> Package.versions p)
  /\ NoDup (Package.affected_versions p)
  /\ NoDup (Package.fixed_versions p)
  /\ (forall s, s ∈ Package.affected_versions p <->
        s <> "" /\ exists s0, s0 ∈ Package.affected_versions pkg /\ s = PyStr.strip s0)
  /\ (forall s, s ∈ Package.fixed_versions p <->
        s <> "" /\ exists s0, s0 ∈ Package.fixed_versions pkg /\ s = PyStr.strip s0).
Proof.
  assert (Hset : forall vs s, s ∈ clean_version_strings vs <->
            s <> "" /\ exists s0, s0 ∈ vs /\ s = PyStr.strip s0).
  { intros vs s. unfold clean_version_strings.
    rewrite elem_of_elements, elem_of_list_to_set, list_elem_of_fmap. split.
    - intros (s0 & -> & Hs0). apply list_elem_of_filter in Hs0 as [Ht Hs0].
      split; [by apply truthy_true|]. by exists s0.
    - intros (Hne & s0 & Hs0 & ->). exists s0. split; [done|].
      apply list_elem_of_filter. split; [by apply truthy_true|done]. }
  assert (Hokey : forall (x : Version.t) k,
            version_key x = Some k -> Version.version (Version.set_version x k) = k)
    by done.
  cbv zeta. unfold clean_package. cbv zeta. cbn [Package.name Package.platform
    Package.versions Package.affected_versions Package.fixed_versions].
  rewrite clean_versions_loop_dedup.
  split; [by rewrite <- strip_lower, strip_idem|].
  split; [apply lower_idem|]. split; [done|].
  split; [apply (dedup_by_distinct _ _ _ Hokey)|].
  split; [|split; [|split; [|split; [|split]]]].
  - intros v Hv. apply dedup_by_origin in Hv as (v0 & k & Hv0 & Hk & _ & ->).
    unfold version_key in Hk. cbv zeta in Hk.
    destruct (PyStr.truthy (PyStr.strip (Version.version v0))) eqn:Et; [|done].
    injection Hk as <-. cbn [Version.version Version.set_version].
    split; [by apply truthy_true|]. split; [apply strip_idem|]. by exists v0.
  - intros v0 Hv0 Hne.
    assert (Hk : version_key v0 = Some (PyStr.strip (Version.version v0))).
    { unfold version_key. cbv zeta. apply truthy_true in Hne. by rewrite Hne. }
    destruct (dedup_by_complete _ _ _ Hokey ∅ _ v0 _ Hv0 Hk) as [Hin|Hin]; [|done].
    by apply not_elem_of_empty in Hin.
  - unfold clean_version_strings. apply NoDup_elements.
  - unfold clean_version_strings. apply NoDup_elements.
  - apply Hset.
  - apply Hset.
Qed.

Lemma clean_package_output_witness :
  "1.0" ∈ Version.version <$> Package.versions (clean_package Examples.untidy_package).
Proof.
  destruct (clean_package_output Examples.untidy_package)
    as (_ & _ & _ & _ & _ & H & _).
  apply (H (Version.mk " 1.0 " None None "affected" [])); [|discriminate].
  apply elem_of_cons. by left.
Defined.

(** X11: after cleaning, [is_affected] answers for a version exactly when
    the version is not empty and is the trimmed form of an entry of the
    affected-version list. *)
Theorem cleaned_package_is_affected (pkg : Package.t) (version : string) :
  Package.is_affected (clean_package pkg) version = true
  <-> version <> ""
      /\ exists s0, s0 ∈ Package.affected_versions pkg /\ version = PyStr.strip s0.
Proof.
  unfold Package.is_affected. rewrite mem_spec.
  unfold clean_package. cbv zeta. cbn [Package.affected_versions].
  unfold clean_version_strings.
  rewrite elem_of_elements, elem_of_list_to_set, list_elem_of_fmap. split.
  - intros (s0 & -> & Hs0). apply list_elem_of_filter in Hs0 as [Ht Hs0].
    split; [by apply truthy_true|]. by exists s0.
  - intros (Hne & s0 & Hs0 & ->). exists s0. split; [done|].
    apply list_elem_of_filter. split; [by apply truthy_true|done].
Qed.

Lemma clean_patches_loop_sublist (seen : gset string) (ps : list (gmap string string)) :
  sublist (clean_patches_loop seen ps) ps.
Proof.
  revert seen. induction ps as [|p ps IH]; intros seen; simpl; [constructor|].
  destruct (_ && _); [apply sublist_skip, IH|apply sublist_cons, IH].
Qed.

Lemma clean_patches_have_url (seen : gset string) (ps : list (gmap string string)) :
  Forall (fun p : gmap string string => is_Some (p !! "url"))
         (clean_patches_loop seen ps).
Proof.
  rewrite clean_patches_loop_dedup. apply Forall_forall. intros p Hp.
  apply dedup_by_origin in Hp as (p0 & k & _ & Hk & _ & ->).
  unfold patch_key in Hk. cbv zeta in Hk. destruct (p0 !! "url"); [done|].
  by cbn in Hk.
Qed.

(** X12: the patches of a cleaned record are a sub-list of the input
    patches, each with a [url] key whose value is not blank, no two with
    the same trimmed URL, and every non-blank trimmed URL of the input is
    represented; the notes are the non-blank input notes, trimmed, in
    order and with their repetitions. *)
Theorem clean_patches_and_notes_output (vuln : Vulnerability.t) :
  let v := clean_vulnerability vuln in
  sublist (Vulnerability.patches v) (Vulnerability.patches vuln)
  /\ NoDup (patch_url <$> Vulnerability.patches v)
  /\ Forall (fun p => exists u, p !! "url" = Some u /\ PyStr.strip u <> "")
            (Vulnerability.patches v)
  /\ (forall p, p ∈ Vulnerability.patches vuln -> patch_url p <> "" ->
        patch_url p ∈ patch_url <$> Vulnerability.patches v)
  /\ Vulnerability.notes v
     = PyStr.strip <$> filter (fun n => PyStr.strip n <> "") (Vulnerability.notes vuln).
Proof.
  assert (Hokey : forall (x : gmap string string) k,
            patch_key x = Some k -> patch_url ((fun p (_ : string) => p) x k) = k).
  { intros x k. unfold patch_key, patch_url. cbv zeta.
    destruct (PyStr.truthy _); [|done]. by intros [= <-]. }
  cbv zeta. cbn [clean_vulnerability Vulnerability.patches Vulnerability.notes].
  split; [apply clean_patches_loop_sublist|].
  rewrite clean_patches_loop_dedup.
  split; [apply (dedup_by_distinct _ _ _ Hokey)|]. split; [|split].
  - apply Forall_forall. intros p Hp.
    apply dedup_by_origin in Hp as (p0 & k & _ & Hk & _ & ->).
    unfold patch_key in Hk. cbv zeta in Hk.
    destruct (p0 !! "url") as [u|] eqn:Eu; [|by cbn in Hk].
    cbn [default from_option] in Hk. unfold Datatypes.id in Hk.
    exists u. split; [done|].
    destruct (PyStr.truthy (PyStr.strip u)) eqn:Et; [|done]. by apply truthy_true.
  - intros p Hp Hne.
    assert (Hk : patch_key p = Some (patch_url p)).
    { unfold patch_key, patch_url in *. cbv zeta. apply truthy_true in Hne.
      by rewrite Hne. }
    destruct (dedup_by_complete _ _ _ Hokey ∅ _ p _ Hp Hk) as [Hin|Hin]; [|done].
    by apply not_elem_of_empty in Hin.
  - unfold clean_notes. f_equal. apply list_filter_iff. intros n.
    apply truthy_true.
Qed.

Lemma clean_patches_and_notes_output_witness :
  "https://example.com/fix.diff"
  ∈ patch_url <$> Vulnerability.patches (clean_vulnerability Examples.patched).
Proof.
  destruct (clean_patches_and_notes_output Examples.patched) as (_ & _ & _ & H & _).
  apply (H (Examples.patch "https://example.com/fix.diff")); [|discriminate].
  apply elem_of_cons. by left.
Defined.

(** ** Cleaning before merging (cleaner.py, [clean_all]) *)

Lemma clean_vulnerability_patches_have_url (v : Vulnerability.t) :
  Vulnerability.patches_have_url (clean_vulnerability v).
Proof. apply clean_patches_have_url. Qed.

Lemma cleaned_group_merges (v0 : Vulnerability.t) (rest : list Vulnerability.t) :
  Forall (fun v => Vulnerability.id v = Vulnerability.id v0) rest ->
  exists r,
    merge_vulnerabilities (clean_vulnerability <$> v0 :: rest) = Ok r
    /\ Vulnerability.id r = Vulnerability.id v0
    /\ Vulnerability.patches_have_url r.
Proof.
  intros Hid. cbn [fmap list_fmap merge_vulnerabilities].
  destruct (merge_into_ok (clean_vulnerability v0) (clean_vulnerability <$> rest))
    as (r & Hr & Hi & Hp & _).
  - apply Forall_fmap. eapply Forall_impl; [exact Hid|]. by intros v Hv.
  - apply clean_vulnerability_patches_have_url.
  - apply Forall_fmap, Forall_forall. intros v _.
    apply clean_vulnerability_patches_have_url.
  - exists r. by repeat split.
Qed.

(** X13: records with one identifier always merge once they are cleaned,
    whatever their patches were: cleaning drops every patch without URL.
    The merge keeps the identifier and the first non-empty cleaned
    description. *)
Theorem merge_after_cleaning (v0 : Vulnerability.t) (rest : list Vulnerability.t) :
  Forall (fun v => Vulnerability.id v = Vulnerability.id v0) rest ->
  exists r,
    merge_vulnerabilities (clean_vulnerability <$> v0 :: rest) = Ok r
    /\ Vulnerability.id r = Vulnerability.id v0
    /\ Vulnerability.patches_have_url r
    /\ Vulnerability.description r
       = first_text (clean_description (Vulnerability.description v0))
           ((fun v => clean_description (Vulnerability.description v)) <$> rest).
Proof.
  intros Hid. cbn [fmap list_fmap merge_vulnerabilities].
  destruct (merge_into_ok (clean_vulnerability v0) (clean_vulnerability <$> rest))
    as (r & Hr & Hi & Hp & _ & Hd & _).
  - apply Forall_fmap. eapply Forall_impl; [exact Hid|]. by intros v Hv.
  - apply clean_vulnerability_patches_have_url.
  - apply Forall_fmap, Forall_forall. intros v _.
    apply clean_vulnerability_patches_have_url.
  - exists r. split; [done|]. split; [done|]. split; [done|].
    rewrite Hd, fold_merge_title. f_equal. by rewrite <- list_fmap_compose.
Qed.

Lemma merge_after_cleaning_witness :
  exists r,
    merge_vulnerabilities (clean_vulnerability <$> [Samples.first_a; Samples.first_b])
    = Ok r
    /\ Vulnerability.description r = Some "first".
Proof.
  destruct (merge_after_cleaning Samples.first_a [Samples.first_b])
    as (r & Hr & _ & _ & Hd); [by repeat constructor|].
  exists r. split; [exact Hr|]. rewrite Hd. reflexivity.
Defined.

(** ** Grouping and statistics (cleaner.py, [clean_all]) *)

Lemma group_append_keys (groups : list (string * list Vulnerability.t))
    (v : Vulnerability.t) :
  fst <$> group_append groups v
  = if bool_decide (Vulnerability.id v ∈ fst <$> groups) then fst <$> groups
    else (fst <$> groups) ++ [Vulnerability.id v].
Proof.
  induction groups as [|[k g] groups IH]; cbn [group_append].
  - case_bool_decide as H; [|done]. by apply elem_of_nil in H.
  - destruct (String.eqb k (Vulnerability.id v)) eqn:E.
    + apply String.eqb_eq in E as ->. rewrite bool_decide_eq_true_2; [done|].
      cbn. apply elem_of_cons. by left.
    + apply String.eqb_neq in E. rewrite !fmap_cons, IH. cbn [fst].
      case_bool_decide as H1; case_bool_decide as H2; try done.
      * exfalso. apply H2, elem_of_cons. by right.
      * apply elem_of_cons in H2 as [?|?]; congruence.
Qed.

Lemma group_append_elem (groups : list (string * list Vulnerability.t))
    (v : Vulnerability.t) (k : string) (g : list Vulnerability.t) :
  NoDup (fst <$> groups) -> (k, g) ∈ group_append groups v ->
  (exists g0, (k, g0) ∈ groups
              /\ g = g0 ++ (if bool_decide (k = Vulnerability.id v) then [v] else []))
  \/ ((k ∉ fst <$> groups) /\ k = Vulnerability.id v /\ g = [v]).
Proof.
  induction groups as [|[k0 g0] groups IH]; intros Hnd Hin; cbn [group_append] in Hin.
  - apply list_elem_of_singleton in Hin. injection Hin as -> ->. right.
    split; [apply not_elem_of_nil|done].
  - rewrite fmap_cons in Hnd. apply NoDup_cons in Hnd as [Hk0 Hnd]. cbn [fst] in Hk0.
    assert (Hfresh : forall g', (k0, g') ∈ groups -> False).
    { intros g' Hg'. apply Hk0, list_elem_of_fmap. by exists (k0, g'). }
    destruct (String.eqb k0 (Vulnerability.id v)) eqn:E.
    + apply String.eqb_eq in E. apply elem_of_cons in Hin as [Heq|Hin].
      * injection Heq as -> ->. left. exists g0. split; [apply elem_of_cons; by left|].
        by rewrite bool_decide_eq_true_2.
      * left. exists g. split; [apply elem_of_cons; by right|].
        rewrite bool_decide_eq_false_2, app_nil_r; [done|].
        intros ->. subst k0. by apply (Hfresh g).
    + apply String.eqb_neq in E. apply elem_of_cons in Hin as [Heq|Hin].
      * injection Heq as -> ->. left. exists g0. split; [apply elem_of_cons; by left|].
        by rewrite bool_decide_eq_false_2, app_nil_r.
      * destruct (IH Hnd Hin) as [(g1 & Hg1 & ->)|(Hno & -> & ->)].
        -- left. exists g1. split; [apply elem_of_cons; by right|done].
        -- right. split; [|done]. rewrite fmap_cons, elem_of_cons. cbn [fst].
           intros [?|?]; [congruence|done].
Qed.

Lemma group_append_NoDup (groups : list (string * list Vulnerability.t))
    (v : Vulnerability.t) :
  NoDup (fst <$> groups) -> NoDup (fst <$> group_append groups v).
Proof.
  intros Hnd. rewrite group_append_keys. case_bool_decide as H; [done|].
  apply NoDup_app. split; [done|]. split; [|apply NoDup_singleton].
  intros x Hx Hx'. apply list_elem_of_singleton in Hx'. by subst.
Qed.


Lemma with_id_snoc (k : string) (pre : list Vulnerability.t) (v : Vulnerability.t) :
  with_id k (pre ++ [v])
  = with_id k pre ++ (if bool_decide (k = Vulnerability.id v) then [v] else []).
Proof.
  unfold with_id. rewrite filter_app. f_equal.
  case_bool_decide as H.
  - by rewrite filter_cons_True.
  - by rewrite filter_cons_False by congruence.
Qed.

Lemma with_id_nil_iff (k : string) (vulns : list Vulnerability.t) :
  with_id k vulns = [] <-> k ∉ Vulnerability.id <$> vulns.
Proof.
  unfold with_id. induction vulns as [|v vulns IH].
  - split; [intros _; apply not_elem_of_nil|done].
  - rewrite fmap_cons, elem_of_cons. destruct (decide (Vulnerability.id v = k)) as [Hk|Hk].
    + rewrite filter_cons_True by done. split; [done|]. intros H. exfalso. apply H. by left.
    + rewrite filter_cons_False by done. rewrite IH. split.
      * intros H [?|?]; [congruence|done].
      * intros H ?. apply H. by right.
Qed.

Lemma group_by_id_inv (vulns : list Vulnerability.t) :
  NoDup (fst <$> group_by_id vulns)
  /\ (forall k, k ∈ fst <$> group_by_id vulns <-> k ∈ Vulnerability.id <$> vulns)
  /\ (forall k g, (k, g) ∈ group_by_id vulns -> g = with_id k vulns)
  /\ sum_list (group_sizes (group_by_id vulns)) = length vulns.
Proof.
  unfold group_by_id.
  assert (H : forall groups pre,
    (NoDup (fst <$> groups)
     /\ (forall k, k ∈ fst <$> groups <-> k ∈ Vulnerability.id <$> pre)
     /\ (forall k g, (k, g) ∈ groups -> g = with_id k pre)
     /\ sum_list (group_sizes groups) = length pre) ->
    let groups' := fold_left group_append vulns groups in
    NoDup (fst <$> groups')
    /\ (forall k, k ∈ fst <$> groups' <-> k ∈ Vulnerability.id <$> pre ++ vulns)
    /\ (forall k g, (k, g) ∈ groups' -> g = with_id k (pre ++ vulns))
    /\ sum_list (group_sizes groups') = length (pre ++ vulns)).
  { induction vulns as [|v vulns IH]; intros groups pre Hg; cbn zeta.
    - by rewrite app_nil_r.
    - cbn [fold_left].
      replace (pre ++ v :: vulns) with ((pre ++ [v]) ++ vulns)
        by (by rewrite <- app_assoc).
      apply IH. destruct Hg as (Hnd & Hkeys & Hgrp & Hsum).
      split; [by apply group_append_NoDup|]. split; [|split].
      + intros k. rewrite group_append_keys, fmap_app, elem_of_app. cbn.
        rewrite list_elem_of_singleton. case_bool_decide as Hin.
        * rewrite Hkeys. split; [by left|]. intros [?| ->]; [done|by apply Hkeys].
        * by rewrite elem_of_app, list_elem_of_singleton, Hkeys.
      + intros k g Hin. apply (group_append_elem groups v k g Hnd) in Hin.
        rewrite with_id_snoc.
        destruct Hin as [(g0 & Hg0 & ->)|(Hno & -> & ->)].
        * by rewrite (Hgrp k g0 Hg0).
        * rewrite Hkeys in Hno. apply with_id_nil_iff in Hno. rewrite Hno.
          by rewrite bool_decide_eq_true_2.
      + rewrite length_app. cbn. rewrite <- Hsum. clear.
        induction groups as [|[k g] groups IHg]; [done|]. cbn.
        destruct (String.eqb k (Vulnerability.id v)); cbn.
        * rewrite length_app. cbn. unfold group_sizes. lia.
        * unfold group_sizes in *. cbn in IHg. lia. }
  apply (H [] []). split; [constructor|]. split; [done|]. split; [|done].
  intros k g Hin. by apply elem_of_nil in Hin.
Qed.

(** X14: the grouping step of [clean_all] partitions its input: the keys
    are distinct, a key has a group exactly when a record carries it, the
    group of a key holds the records with that identifier in input order,
    and the sizes of the groups add up to the number of records. *)
Theorem group_by_id_partitions (vulns : list Vulnerability.t) :
  NoDup (fst <$> group_by_id vulns)
  /\ (forall k g, (k, g) ∈ group_by_id vulns
        <-> k ∈ Vulnerability.id <$> vulns
            /\ g = filter (fun v => Vulnerability.id v = k) vulns)
  /\ sum_list (group_sizes (group_by_id vulns)) = length vulns.
Proof.
  destruct (group_by_id_inv vulns) as (Hnd & Hkeys & Hgrp & Hsum).
  split; [done|]. split; [|done]. intros k g. split.
  - intros Hin. split; [|by apply Hgrp]. apply Hkeys, list_elem_of_fmap.
    by exists (k, g).
  - intros [Hk ->]. apply Hkeys, list_elem_of_fmap in Hk as ([k' g'] & -> & Hin).
    pose proof (Hgrp _ _ Hin) as Hg. unfold with_id in Hg. cbn [fst].
    by rewrite <- Hg.
Qed.

Section CleanAllProperties.

Context {DB : Type}.
Variable get_vulnerabilities :
  DB -> option string -> option Z -> option Z -> result (list Vulnerability.t).
Variable update_vulnerability : DB -> Vulnerability.t -> result DB.

Local Abbreviation step := (clean_group update_vulnerability).
Local Abbreviation write := (apply_update update_vulnerability).

Lemma clean_group_step (stats : Stats) (db : DB) (kg : string * list Vulnerability.t) :
  uniform kg ->
  exists r stats',
    written kg r
    /\ step (stats, db) (snd kg) = (stats', write db r)
    /\ total stats' = total stats
    /\ cleaned stats' = (cleaned stats + length (snd kg))%nat
    /\ merged stats'
       = (merged stats + if bool_decide (1 < length (snd kg))%nat then 1 else 0)%nat
    /\ (failed stats <= failed stats' <= failed stats + 1)%nat
    /\ ((forall db0 r0, exists db1, update_vulnerability db0 r0 = Ok db1) ->
        failed stats' = failed stats).
Proof.
  destruct kg as [k g]. intros [Hne Hid]. cbn [fst snd] in *.
  destruct g as [|v0 rest]; [done|]. apply Forall_cons in Hid as [Hk Hid].
  destruct (cleaned_group_merges v0 rest) as (r & Hr & Hi & _).
  { eapply Forall_impl; [exact Hid|]. intros v Hv. congruence. }
  exists r. unfold written, clean_group, apply_update. cbn [fst snd].
  rewrite length_fmap. cbv zeta.
  destruct rest as [|v1 rest].
  - cbn in Hr. injection Hr as <-. cbn [length Nat.ltb Nat.leb fmap list_fmap].
    rewrite bool_decide_eq_false_2 by lia.
    destruct (update_vulnerability db (clean_vulnerability v0)) as [db'|e] eqn:Eu;
      eexists; (split; [split; [reflexivity|exact Hk]|]);
      (split; [reflexivity|]); cbn; repeat split; try lia.
    intros Htot. destruct (Htot db (clean_vulnerability v0)) as [db1 H1]. congruence.
  - change (1 <? length (v0 :: v1 :: rest))%nat with true. cbv iota.
    rewrite Hr. rewrite bool_decide_eq_true_2 by (cbn; lia).
    destruct (update_vulnerability db r) as [db'|e] eqn:Eu;
      eexists; (split; [split; [reflexivity|congruence]|]);
      (split; [reflexivity|]); cbn; repeat split; try lia.
    intros Htot. destruct (Htot db r) as [db1 H1]. congruence.
Qed.

Lemma clean_groups_fold (gs : list (string * list Vulnerability.t))
    (stats : Stats) (db : DB) :
  Forall uniform gs ->
  exists records stats',
    Forall2 written gs records
    /\ fold_left step (snd <$> gs) (stats, db) = (stats', fold_left write records db)
    /\ total stats' = total stats
    /\ cleaned stats' = (cleaned stats + sum_list (group_sizes gs))%nat
    /\ merged stats'
       = (merged stats
          + length (filter (fun kg => (1 < length (snd kg))%nat) gs))%nat
    /\ (failed stats <= failed stats' <= failed stats + length gs)%nat
    /\ ((forall db0 r0, exists db1, update_vulnerability db0 r0 = Ok db1) ->
        failed stats' = failed stats).
Proof.
  intros Hgs. revert stats db. induction Hgs as [|kg gs Hkg _ IH]; intros stats db.
  - exists [], stats. cbn. repeat split; try lia. constructor.
  - destruct (clean_group_step stats db kg Hkg)
      as (r & stats1 & Hw & Hstep & Ht & Hc & Hm & Hf & Hz).
    destruct (IH stats1 (write db r))
      as (records & stats2 & Hws & Hfold & Ht2 & Hc2 & Hm2 & Hf2 & Hz2).
    exists (r :: records), stats2. split; [by constructor|].
    split; [cbn [fmap list_fmap fold_left]; by rewrite Hstep|].
    split; [congruence|]. split.
    { rewrite Hc2, Hc. unfold group_sizes. rewrite fmap_cons. simpl. lia. }
    split.
    + rewrite Hm2, Hm. rewrite filter_cons. destruct (decide _) as [H|H].
      * rewrite bool_decide_eq_true_2 by done. cbn. lia.
      * rewrite bool_decide_eq_false_2 by done. lia.
    + split; [cbn [length]; lia|]. intros Htot. rewrite (Hz2 Htot). by apply Hz.
Qed.

Lemma group_by_id_uniform (vulns : list Vulnerability.t) :
  Forall uniform (group_by_id vulns).
Proof.
  destruct (group_by_id_inv vulns) as (_ & Hkeys & Hgrp & _).
  apply Forall_forall. intros [k g] Hin. pose proof (Hgrp k g Hin) as ->.
  split; cbn [fst snd].
  - intros Hnil. apply with_id_nil_iff in Hnil. apply Hnil, Hkeys.
    apply list_elem_of_fmap. by eexists (k, _).
  - apply Forall_forall. intros v Hv. by apply list_elem_of_filter in Hv as [? _].
Qed.

(** X15: [clean_all] passes on an exception of the query.  Otherwise it
    answers: for every group it sends to the database exactly one record,
    the merge of the cleaned group, which always exists; [total] and
    [cleaned] are both the number of records read, [merged] is the number
    of identifiers with more than one record, and [failed] is at most the
    number of identifiers and is 0 when no update raises. *)
Theorem clean_all_outcome (db : DB) (start_date end_date : option Z)
    (source : option string) :
  match get_vulnerabilities db source start_date end_date with
  | Raise e =>
      clean_all get_vulnerabilities update_vulnerability db start_date end_date source
      = Raise e
  | Ok vulns =>
      exists records stats,
        clean_all get_vulnerabilities update_vulnerability db start_date end_date source
        = Ok (stats, fold_left write records db)
        /\ Forall2 written (group_by_id vulns) records
        /\ total stats = length vulns
        /\ cleaned stats = length vulns
        /\ merged stats
           = length (filter (fun kg => (1 < length (snd kg))%nat) (group_by_id vulns))
        /\ (failed stats <= length (group_by_id vulns))%nat
        /\ ((forall db0 r0, exists db1, update_vulnerability db0 r0 = Ok db1) ->
            failed stats = 0%nat)
  end.
Proof.
  unfold clean_all.
  destruct (get_vulnerabilities db source start_date end_date) as [vulns|e]; [|done].
  cbn [mbind result_bind]. cbv zeta.
  destruct (clean_groups_fold (group_by_id vulns)
              (mk_stats (length vulns) 0 0 0) db (group_by_id_uniform vulns))
    as (records & stats & Hw & Hfold & Ht & Hc & Hm & Hf & Hz).
  exists records, stats. rewrite Hfold. split; [done|]. split; [done|].
  cbn in Ht, Hc, Hm, Hf, Hz.
  destruct (group_by_id_inv vulns) as (_ & _ & _ & Hsum).
  repeat split; try done; lia.
Qed.

End CleanAllProperties.

(** Two records of one vulnerability in a database whose updates never
    raise. *)
Lemma clean_all_outcome_witness :
  exists stats db,
    clean_all Examples.log_query Examples.log_update [] None None None = Ok (stats, db)
    /\ failed stats = 0%nat.
Proof.
  pose proof (clean_all_outcome Examples.log_query Examples.log_update [] None None None)
    as H.
  cbn [Examples.log_query] in H. destruct H as (records & stats & Heq & _ & _ & _ & _ & _ & Hz).
  do 2 eexists. split; [exact Heq|]. apply Hz. intros db0 r0. by eexists.
Defined.

(** ** Package extraction (models/nvd.py, [_extract_affected_packages]) *)

Lemma Node_ind_nested (P : Raw.Node -> Prop) :
  (forall cpeMatch children, Forall P children -> P (Raw.mk_node cpeMatch children)) ->
  forall node, P node.
Proof.
  intros H. fix IH 1. intros [ms cs]. apply H.
  induction cs as [|c cs IHcs]; constructor; [apply IH|exact IHcs].
Qed.

Lemma process_node_matches (node : Raw.Node) (packages : list Package.t) :
  NVD.process_node node packages
  = fold_left NVD.process_cpe_match (node_matches node) packages.
Proof.
  revert packages. induction node as [ms cs IH] using Node_ind_nested.
  intros packages. cbn [NVD.process_node node_matches].
  rewrite fold_left_app. generalize (fold_left NVD.process_cpe_match ms packages).
  induction IH as [|c cs Hc _ IHcs]; intros acc; [done|].
  cbn [fold_left flat_map]. rewrite fold_left_app, Hc. apply IHcs.
Qed.

Lemma extract_matches (configurations : list Raw.Configuration) :
  NVD._extract_affected_packages configurations
  = fold_left NVD.process_cpe_match (all_matches configurations) [].
Proof.
  unfold NVD._extract_affected_packages, all_matches.
  generalize (@nil Package.t).
  induction configurations as [|c cs IH]; intros acc; [done|].
  cbn [fold_left flat_map]. rewrite fold_left_app, IH. f_equal.
  generalize (Raw.nodes c). clear. intros ns. revert acc.
  induction ns as [|n ns IH]; intros acc; [done|].
  cbn [fold_left flat_map]. by rewrite fold_left_app, IH, process_node_matches.
Qed.

Lemma existsb_name (pkg_name : string) (packages : list Package.t) :
  existsb (fun p => String.eqb (Package.name p) pkg_name) packages = true
  <-> pkg_name ∈ Package.name <$> packages.
Proof.
  rewrite existsb_exists, list_elem_of_fmap. split.
  - intros (p & Hin & Hp). apply String.eqb_eq in Hp. exists p.
    split; [done|]. by apply list_elem_of_In.
  - intros (p & -> & Hin). exists p. split; [by apply list_elem_of_In|].
    apply String.eqb_refl.
Qed.

Lemma append_version_names (pkg_name : string) (ver : Version.t)
    (packages : list Package.t) :
  Package.name <$> NVD.append_version pkg_name ver packages
  = Package.name <$> packages.
Proof.
  induction packages as [|p ps IH]; [done|]. cbn [NVD.append_version].
  destruct (String.eqb _ _); [done|]. by rewrite !fmap_cons, IH.
Qed.

Lemma append_version_Forall (P : Package.t -> Prop) (pkg_name : string)
    (ver : Version.t) (packages : list Package.t) :
  (forall p, P p ->
     P (Package.mk (Package.name p) (Package.ecosystem p) (Package.platform p)
          (Package.versions p ++ [ver])
          (Package.affected_versions p) (Package.fixed_versions p))) ->
  Forall P packages -> Forall P (NVD.append_version pkg_name ver packages).
Proof.
  intros HP. induction 1 as [|p ps Hp Hps IH]; [constructor|].
  cbn [NVD.append_version]. destruct (String.eqb _ _); constructor; auto.
Qed.

Lemma process_cpe_match_inv (packages : list Package.t) (m : Raw.CpeMatch) :
  NoDup (Package.name <$> packages) -> Forall cpe_package packages ->
  NoDup (Package.name <$> NVD.process_cpe_match packages m)
  /\ Forall cpe_package (NVD.process_cpe_match packages m)
  /\ (Package.name <$> packages) `prefix_of`
       (Package.name <$> NVD.process_cpe_match packages m).
Proof.
  intros Hnd Hall. unfold NVD.process_cpe_match. cbv zeta.
  destruct (negb _); [done|].
  destruct (PyStr.split_on ":" _) as [|? [|? [|part [|vendor [|product rest]]]]];
    try done.
  set (pkg_name := vendor +:+ "/" +:+ product).
  set (version := match rest with v :: _ => v | [] => "*" end).
  set (packages1 := if existsb _ packages then packages else _).
  assert (H1 : NoDup (Package.name <$> packages1) /\ Forall cpe_package packages1
               /\ (Package.name <$> packages) `prefix_of` (Package.name <$> packages1)).
  { unfold packages1.
    destruct (existsb _ packages) eqn:E; [done|].
    split; [|split].
    - rewrite fmap_app. apply NoDup_app. split; [done|].
      split; [|apply NoDup_singleton]. intros x Hx Hx'.
      apply list_elem_of_singleton in Hx'. cbn in Hx'. subst x.
      apply existsb_name in Hx. congruence.
    - apply Forall_app. split; [done|]. apply Forall_singleton.
      repeat split; done.
    - rewrite fmap_app. by apply prefix_app_r. }
  destruct H1 as (Hnd1 & Hall1 & Hpre1).
  destruct (String.eqb_spec version "*") as [Hv|Hv]; cbn [negb]; [done|].
  rewrite append_version_names. split; [done|]. split; [|done].
  apply append_version_Forall; [|done].
  intros p (He & Hp & Ha & Hf & Hvs). repeat split; try done.
  apply Forall_app. split; [done|]. apply Forall_singleton. cbn.
  split; [done|]. destruct (default true _); by auto.
Qed.

(** X16: the packages that [_extract_affected_packages] returns have
    distinct names; each has the ecosystem [cpe], a platform, no affected
    or fixed version list, and version entries that are never [*] and have
    the status [affected] or [fixed].  So [is_affected] answers [False]
    for every extracted package and every version. *)
Theorem extracted_packages_invariants (configurations : list Raw.Configuration) :
  let packages := NVD._extract_affected_packages configurations in
  NoDup (Package.name <$> packages)
  /\ Forall cpe_package packages
  /\ (forall p version, p ∈ packages -> Package.is_affected p version = false).
Proof.
  cbv zeta. rewrite extract_matches.
  assert (H : forall ms acc,
            NoDup (Package.name <$> acc) -> Forall cpe_package acc ->
            NoDup (Package.name <$> fold_left NVD.process_cpe_match ms acc)
            /\ Forall cpe_package (fold_left NVD.process_cpe_match ms acc)).
  { induction ms as [|m ms IH]; intros acc Hnd Hall; [done|].
    cbn [fold_left]. destruct (process_cpe_match_inv acc m Hnd Hall) as (? & ? & _).
    by apply IH. }
  destruct (H (all_matches configurations) []) as [Hnd Hall]; [constructor|constructor|].
  split; [done|]. split; [done|]. intros p version Hp.
  rewrite Forall_forall in Hall. destruct (Hall p Hp) as (_ & _ & Ha & _).
  unfold Package.is_affected. by rewrite Ha.
Qed.

Lemma extracted_packages_invariants_witness :
  Forall (fun p => Package.is_affected p "1.2" = false)
         (NVD._extract_affected_packages
            (Samples.one_match "cpe:2.3:a:acme:widget:1.2:*:*:*:*:*:*:*")).
Proof.
  destruct (extracted_packages_invariants
              (Samples.one_match "cpe:2.3:a:acme:widget:1.2:*:*:*:*:*:*:*"))
    as (_ & _ & H).
  apply Forall_singleton. apply H. apply elem_of_cons. by left.
Defined.

Lemma process_cpe_match_prefix (packages : list Package.t) (m : Raw.CpeMatch) :
  (Package.name <$> packages) `prefix_of`
    (Package.name <$> NVD.process_cpe_match packages m).
Proof.
  unfold NVD.process_cpe_match. cbv zeta.
  destruct (negb _); [done|].
  destruct (PyStr.split_on ":" _) as [|? [|? [|part [|vendor [|product rest]]]]];
    try done.
  assert (H : forall ps : list Package.t,
            (Package.name <$> packages) `prefix_of` (Package.name <$> ps) ->
            (Package.name <$> packages) `prefix_of`
              (Package.name <$> (if negb (String.eqb
                                   (match rest with v :: _ => v | [] => "*" end) "*")
                                 then NVD.append_version (vendor +:+ "/" +:+ product)
                                        (Version.mk
                                           (match rest with v :: _ => v | [] => "*" end)
                                           None None
                                           (if default true (Raw.vulnerable m)
                                            then "affected" else "fixed") [])
                                        ps
                                 else ps))).
  { intros ps Hps. destruct (negb _); [|done]. by rewrite append_version_names. }
  apply H. destruct (existsb _ packages); [done|].
  rewrite fmap_app. by apply prefix_app_r.
Qed.

(** X17: [_extract_affected_packages] depends only on the matches of the
    configurations read in pre-order (a node before its children): it is
    the loop body folded over that list.  Reading further configurations
    keeps the packages found so far, in their order. *)
Theorem extraction_visits_preorder (configurations more : list Raw.Configuration) :
  NVD._extract_affected_packages configurations
  = fold_left NVD.process_cpe_match (all_matches configurations) []
  /\ (Package.name <$> NVD._extract_affected_packages configurations)
       `prefix_of`
     (Package.name <$> NVD._extract_affected_packages (configurations ++ more)).
Proof.
  split; [apply extract_matches|].
  rewrite !extract_matches. unfold all_matches. rewrite flat_map_app, fold_left_app.
  generalize (fold_left NVD.process_cpe_match
                (flat_map (fun config => flat_map node_matches (Raw.nodes config))
                   configurations) []).
  generalize (flat_map (fun config => flat_map node_matches (Raw.nodes config)) more).
  intros ms. induction ms as [|m ms IH]; intros acc; [done|].
  cbn [fold_left]. etrans; [apply (process_cpe_match_prefix acc m)|apply IH].
Qed.

(** ** Reading a raw record (models/nvd.py, NVD_OBJ.py) *)

Lemma split_on_nonempty (sep : ascii) (s : string) : PyStr.split_on sep s <> [].
Proof.
  induction s as [|c s IH]; simpl; [done|].
  destruct (Ascii.eqb c sep); [done|]. by destruct (PyStr.split_on sep s).
Qed.

Lemma split_on_hd_cons (sep c : ascii) (s : string) :
  c <> sep ->
  hd "" (PyStr.split_on sep (String c s)) = String c (hd "" (PyStr.split_on sep s)).
Proof.
  intros Hne. simpl. rewrite (proj2 (Ascii.eqb_neq c sep) Hne).
  pose proof (split_on_nonempty sep s). by destruct (PyStr.split_on sep s).
Qed.

Lemma split_on_hd_free (sep : ascii) (s : string) :
  PyStr.char_free sep (hd "" (PyStr.split_on sep s)).
Proof.
  unfold PyStr.char_free. induction s as [|c s IH]; [by intros []|].
  destruct (Ascii.eqb_spec c sep) as [->|Hne].
  - simpl. rewrite Ascii.eqb_refl. by intros [].
  - rewrite split_on_hd_cons by done. simpl. intros [?|?]; [congruence|done].
Qed.

Lemma rstrip_by_keep (p : ascii -> bool) (c : ascii) (s : string) :
  p c = false -> PyStr.rstrip_by p (String c s) = String c (PyStr.rstrip_by p s).
Proof. intros Hc. simpl. destruct (PyStr.rstrip_by p s); by rewrite ?Hc. Qed.

Lemma lstrip_by_incl (p : ascii -> bool) (s : string) (c : ascii) :
  In c (list_ascii_of_string (PyStr.lstrip_by p s)) -> In c (list_ascii_of_string s).
Proof.
  induction s as [|d s IH]; simpl; [done|]. destruct (p d); [|done].
  intros H. right. by apply IH.
Qed.

Lemma rstrip_by_incl (p : ascii -> bool) (s : string) (c : ascii) :
  In c (list_ascii_of_string (PyStr.rstrip_by p s)) -> In c (list_ascii_of_string s).
Proof.
  induction s as [|d s IH]; simpl; [done|].
  destruct (PyStr.rstrip_by p s) as [|e r].
  - destruct (p d); simpl; [done|]. intros [?|[]]. by left.
  - simpl. simpl in IH. intros [?|H]; [by left|]. right. by apply IH.
Qed.

Lemma strip_char_free (c : ascii) (s : string) :
  PyStr.char_free c s -> PyStr.char_free c (PyStr.strip s).
Proof.
  unfold PyStr.char_free, PyStr.strip. intros H Hin.
  by apply H, (lstrip_by_incl PyStr.isspace), (rstrip_by_incl PyStr.isspace).
Qed.

Lemma first_cwe_shape (ws : list Raw.Weakness) (c : string) :
  NVD_OBJ.first_cwe ws = Some c ->
  PyStr.startswith "CWE-" c = true /\ PyStr.char_free ":" c
  /\ PyStr.strip c = c.
Proof.
  unfold NVD_OBJ.first_cwe.
  destruct (List.find _ _) as [d|] eqn:Ef; [|done]. intros [= <-].
  apply find_some in Ef as [_ Hd]. apply andb_true_iff in Hd as [_ Hpre].
  unfold PyStr.startswith in *. apply prefix_app in Hpre as [post Hv].
  rewrite Hv. split; [|split].
  - change ("CWE-" +:+ post) with (String "C" (String "W" (String "E" (String "-" post)))).
    rewrite !split_on_hd_cons by done.
    unfold PyStr.strip. rewrite lstrip_by_fixed by done.
    rewrite !rstrip_by_keep by done. apply prefix_app. by eexists.
  - apply strip_char_free, split_on_hd_free.
  - apply strip_idem.
Qed.

(** X18: [NVD_OBJ.from_json] raises, an [IndexError], exactly when the key
    [cvssMetricV31] is present with an empty list, and answers otherwise.
    Without that key the vector is empty and the score 0, whatever other
    metrics the record has.  A CWE identifier, when there is one, starts
    with [CWE-], has no colon and is trimmed; there is one reference per
    raw reference. *)
Theorem from_json_outcome (data : Raw.Record_) :
  (NVD_OBJ.from_json data = Raise IndexError <-> Raw.metrics_v31 data = Some [])
  /\ ((exists d, NVD_OBJ.from_json data = Ok d) <-> Raw.metrics_v31 data <> Some [])
  /\ (forall d, NVD_OBJ.from_json data = Ok d ->
        (Raw.metrics_v31 data = None ->
         NVD_OBJ.cvss_v3_vector d = "" /\ NVD_OBJ.cvss_v3_base_score d = 0%Q)
        /\ (forall c, NVD_OBJ.cwe_id d = Some c ->
              PyStr.startswith "CWE-" c = true /\ PyStr.char_free ":" c
              /\ PyStr.strip c = c)
        /\ length (NVD_OBJ.references d)
           = length (default [] (Raw.references (default Raw.empty_cve (Raw.cve data))))).
Proof.
  unfold Raw.metrics_v31, NVD_OBJ.from_json. cbv zeta.
  destruct (Raw.cvssMetricV31 _) as [[|m ms]|] eqn:E;
    cbn [default from_option mbind result_bind]; unfold Datatypes.id.
  - split; [done|]. split; [split; [by intros [d ?]|done]|]. done.
  - split; [done|]. split; [split; [done|by eexists]|].
    intros d [= <-]. cbn [NVD_OBJ.cwe_id NVD_OBJ.references].
    split; [done|]. split; [apply first_cwe_shape|]. by rewrite length_map.
  - split; [done|]. split; [split; [done|by eexists]|].
    intros d [= <-]. cbn [NVD_OBJ.cwe_id NVD_OBJ.references NVD_OBJ.cvss_v3_vector
                            NVD_OBJ.cvss_v3_base_score].
    split; [done|]. split; [apply first_cwe_shape|]. by rewrite length_map.
Qed.

Lemma from_json_outcome_witness :
  exists d, NVD_OBJ.from_json Samples.no_id_record = Ok d.
Proof.
  destruct (from_json_outcome Samples.no_id_record) as (_ & H & _).
  apply H. discriminate.
Defined.

(** X19: [NVDData.from_dict] answers exactly when both dates are present
    and parse; it raises a [TypeError] exactly when the publication date
    is missing, or parses while the modification date is missing, hence
    for every record without [cve] key.  When it answers, identifier,
    status and configurations are those of the record. *)
Theorem from_dict_outcome (fromisoformat : string -> option Z) (data : Raw.Record_) :
  let cve := default Raw.empty_cve (Raw.cve data) in
  ((exists d, NVD.from_dict fromisoformat data = Ok d) <->
   exists s1 t1 s2 t2,
     Raw.published cve = Some s1 /\ fromisoformat s1 = Some t1
     /\ Raw.lastModified cve = Some s2 /\ fromisoformat s2 = Some t2)
  /\ (NVD.from_dict fromisoformat data = Raise TypeError <->
      Raw.published cve = None
      \/ (exists s1 t1, Raw.published cve = Some s1 /\ fromisoformat s1 = Some t1
                        /\ Raw.lastModified cve = None))
  /\ (Raw.cve data = None -> NVD.from_dict fromisoformat data = Raise TypeError)
  /\ (forall d, NVD.from_dict fromisoformat data = Ok d ->
        NVD.id d = Raw.id cve /\ NVD.vulnStatus d = Raw.vulnStatus cve
        /\ NVD.configurations d = default [] (Raw.configurations cve)).
Proof.
  cbv zeta. unfold NVD.from_dict, NVD.parse_date. cbv zeta.
  split; [|split; [|split]].
  - split.
    + intros [d Hd].
      destruct (Raw.published _) as [s1|]; [|done].
      destruct (fromisoformat s1) as [t1|] eqn:E1; [|done].
      destruct (Raw.lastModified _) as [s2|]; [|done].
      destruct (fromisoformat s2) as [t2|] eqn:E2; [|done].
      by exists s1, t1, s2, t2.
    + intros (s1 & t1 & s2 & t2 & -> & H1 & -> & H2). rewrite H1, H2. by eexists.
  - split.
    + destruct (Raw.published _) as [s1|]; [|by left].
      destruct (fromisoformat s1) as [t1|] eqn:E1; [|done].
      destruct (Raw.lastModified _) as [s2|]; [|right; by exists s1, t1].
      by destruct (fromisoformat s2).
    + intros [->|(s1 & t1 & -> & H1 & ->)]; [done|]. by rewrite H1.
  - by intros ->.
  - intros d.
    destruct (Raw.published _) as [s1|]; [|done].
    destruct (fromisoformat s1) as [t1|]; [|done].
    destruct (Raw.lastModified _) as [s2|]; [|done].
    destruct (fromisoformat s2) as [t2|]; [|done].
    by intros [= <-].
Qed.

Lemma from_dict_outcome_witness :
  exists d, NVD.from_dict Examples.any_date Samples.no_id_record = Ok d.
Proof.
  destruct (from_dict_outcome Examples.any_date Samples.no_id_record) as (H & _).
  apply H.
  by exists "2024-01-01T00:00:00", 0, "2024-01-02T00:00:00", 0.
Defined.

(** ** Risk assessment (analyzer.py, [assess_risk]) *)

Lemma round_half_even_mono (p q : Q) :
  (p <= q)%Q -> round_half_even p <= round_half_even q.
Proof.
  intros Hpq. pose proof (Qfloor_resp_le p q Hpq) as Hf.
  unfold round_half_even. cbv zeta.
  destruct (Z.eq_dec (Qfloor p) (Qfloor q)) as [E|E].
  - rewrite <- E.
    destruct (Qcompare_spec (p - inject_Z (Qfloor p)) (1 # 2)) as [H1|H1|H1];
      destruct (Qcompare_spec (q - inject_Z (Qfloor p)) (1 # 2)) as [H2|H2|H2];
      try destruct (Z.even (Qfloor p)); try lia; exfalso; lra.
  - assert (Qfloor p + 1 <= Qfloor q) by lia.
    destruct (_ ?= _)%Q; destruct (_ ?= _)%Q;
      try destruct (Z.even (Qfloor p)); try destruct (Z.even (Qfloor q)); lia.
Qed.

Lemma round2_mono (p q : Q) : (p <= q)%Q -> (round2 p <= round2 q)%Q.
Proof.
  intros H. unfold round2, Qle. cbn [Qnum Qden].
  apply Z.mul_le_mono_nonneg_r; [done|]. apply round_half_even_mono.
  apply Qmult_le_compat_r; [exact H|done].
Qed.

Lemma risk_fold_counts (package_name : string) (vulns : list Vulnerability.t)
    (st : RiskState) :
  let st' := fold_left (risk_step package_name) vulns st in
  fixed_count st'
  = (fixed_count st
     + length (List.filter (is_fixed package_name) vulns))%nat
  /\ (active_count st' + fixed_count st'
      = active_count st + fixed_count st + length vulns)%nat.
Proof.
  cbv zeta. revert st. induction vulns as [|v vs IH]; intros st.
  - cbn. lia.
  - cbn [fold_left List.filter]. destruct (IH (risk_step package_name st v)) as [-> ->].
    unfold risk_step. cbv zeta. cbn [fixed_count active_count].
    destruct (is_fixed package_name v); cbn [length]; lia.
Qed.


Lemma considered_nil (package_name : string) (version : option string) :
  considered [] package_name version = [].
Proof. destruct version as [[|c s]|]; reflexivity. Qed.

Lemma assess_risk_unfold (db_vulns : list Vulnerability.t) (package_name : string)
    (version : option string) :
  db_vulns <> [] ->
  assess_risk db_vulns package_name version
  = let vulns := considered db_vulns package_name version in
    let st := fold_left (risk_step package_name) vulns (mk_state 0 0 0 0 None) in
    let score :=
      match vulns with
      | [] => 0%Q
      | _ => (total_score st / inject_Z (Z.of_nat (length vulns)))%Q
      end in
    mk_risk (level_of score) (round2 score) (Some (round2 (max_score st)))
            (active_count st) (fixed_count st)
            (Vulnerability.id <$> latest_vuln st)
            (recommendation_of (level_of score)).
Proof. destruct db_vulns; [done|]. reflexivity. Qed.

(** X20: in the report of [assess_risk] the active and the fixed
    vulnerabilities add up to the number of records scored, and the fixed
    ones are those with a package of the given name that lists a fixed
    version. *)
Theorem assess_risk_counts (db_vulns : list Vulnerability.t) (package_name : string)
    (version : option string) :
  let r := assess_risk db_vulns package_name version in
  let vulns := considered db_vulns package_name version in
  (active_vulnerabilities r + fixed_vulnerabilities r = length vulns)%nat
  /\ fixed_vulnerabilities r = length (List.filter (is_fixed package_name) vulns).
Proof.
  cbv zeta. destruct (decide (db_vulns = [])) as [->|Hne].
  - by rewrite considered_nil.
  - rewrite assess_risk_unfold by done. cbv zeta.
    cbn [active_vulnerabilities fixed_vulnerabilities].
    destruct (risk_fold_counts package_name
                (considered db_vulns package_name version) (mk_state 0 0 0 0 None))
      as [H1 H2].
    cbn [fixed_count active_count] in H1, H2. rewrite H2. split; [lia|]. rewrite H1. lia.
Qed.


Lemma risk_fold_latest (package_name : string) (vulns : list Vulnerability.t)
    (st : RiskState) (l : Vulnerability.t) :
  latest_vuln st = Some l ->
  exists l',
    latest_vuln (fold_left (risk_step package_name) vulns st) = Some l'
    /\ l' ∈ l :: vulns
    /\ (Vulnerability.published_date l = None -> l' = l)
    /\ (forall dl, Vulnerability.published_date l = Some dl ->
          exists dl', Vulnerability.published_date l' = Some dl' /\ dl <= dl'
            /\ forall v d, v ∈ vulns -> Vulnerability.published_date v = Some d ->
                           d <= dl').
Proof.
  revert st l. induction vulns as [|v vs IH]; intros st l Hl.
  - exists l. split; [done|]. split; [apply elem_of_cons; by left|].
    split; [done|]. intros dl Hdl. exists dl. split; [done|]. split; [lia|].
    intros v d Hv. by apply elem_of_nil in Hv.
  - cbn [fold_left].
    assert (Hstep : latest_vuln (risk_step package_name st v)
                    = Some (if newer v l then v else l)).
    { unfold risk_step. cbv zeta. cbn [latest_vuln]. rewrite Hl.
      by destruct (newer v l). }
    destruct (IH _ _ Hstep) as (l' & Hfold & Hin & Hnone & Hsome).
    exists l'. split; [exact Hfold|]. split.
    { apply elem_of_cons in Hin as [->|Hin].
      - destruct (newer v l).
        + apply elem_of_cons. right. apply elem_of_cons. by left.
        + apply elem_of_cons. by left.
      - apply elem_of_cons. right. apply elem_of_cons. by right. }
    unfold newer in *. split.
    + intros Hd. rewrite Hd in *. destruct (Vulnerability.published_date v); by apply Hnone.
    + intros dl Hdl. rewrite Hdl in *.
      destruct (Vulnerability.published_date v) as [dv|] eqn:Hdv.
      * destruct (dl <? dv) eqn:Hlt.
        -- apply Z.ltb_lt in Hlt. destruct (Hsome dv Hdv) as (dl' & H1 & H2 & H3).
           exists dl'. split; [done|]. split; [lia|]. intros w d Hw Hd.
           apply elem_of_cons in Hw as [->|Hw]; [|by eapply H3].
           rewrite Hdv in Hd. injection Hd as <-. lia.
        -- apply Z.ltb_ge in Hlt. destruct (Hsome dl Hdl) as (dl' & H1 & H2 & H3).
           exists dl'. split; [done|]. split; [lia|]. intros w d Hw Hd.
           apply elem_of_cons in Hw as [->|Hw]; [|by eapply H3].
           rewrite Hdv in Hd. injection Hd as <-. lia.
      * destruct (Hsome dl Hdl) as (dl' & H1 & H2 & H3).
        exists dl'. split; [done|]. split; [lia|]. intros w d Hw Hd.
        apply elem_of_cons in Hw as [->|Hw]; [|by eapply H3]. congruence.
Qed.

(** X22: without version filter the latest vulnerability reported is one
    of the records.  When the first record has no publication date it is
    the one reported, whatever the dates of the others; when it has one,
    the record reported has a date and no dated record is later. *)
Theorem assess_risk_latest (v0 : Vulnerability.t) (rest : list Vulnerability.t)
    (package_name : string) :
  exists l,
    l ∈ v0 :: rest
    /\ latest_vulnerability (assess_risk (v0 :: rest) package_name None)
       = Some (Vulnerability.id l)
    /\ (Vulnerability.published_date v0 = None -> l = v0)
    /\ (is_Some (Vulnerability.published_date v0) ->
        exists dl, Vulnerability.published_date l = Some dl
          /\ forall v d, v ∈ v0 :: rest -> Vulnerability.published_date v = Some d ->
                         d <= dl).
Proof.
  rewrite assess_risk_unfold by done. cbv zeta. cbn [latest_vulnerability considered].
  cbn [fold_left].
  destruct (risk_fold_latest package_name rest
              (risk_step package_name (mk_state 0 0 0 0 None) v0) v0)
    as (l & Hfold & Hin & Hnone & Hsome); [done|].
  exists l. split; [done|]. rewrite Hfold. split; [done|]. split; [done|].
  intros [d0 Hd0]. destruct (Hsome d0 Hd0) as (dl & H1 & H2 & H3).
  exists dl. split; [done|]. intros v d Hv Hd.
  apply elem_of_cons in Hv as [->|Hv]; [|by eapply H3]. congruence.
Qed.

Lemma assess_risk_latest_witness :
  latest_vulnerability (assess_risk Samples.scored_9_5_none "lodash" None)
  = Some "CVE-1".
Proof.
  destruct (assess_risk_latest
              (Samples.with_v3
                 (Samples.with_packages (Samples.vuln "CVE-1")
                    [Samples.pkg "lodash" (Some "npm") None]) 9)
              (tail Samples.scored_9_5_none) "lodash")
    as (l & _ & Heq & Hnone & _).
  change (latest_vulnerability (assess_risk Samples.scored_9_5_none "lodash" None)
          = Some (Vulnerability.id l)) in Heq.
  rewrite Heq, (Hnone eq_refl). reflexivity.
Defined.

Lemma version_vulns_none (package_name version : string)
    (vulns : list Vulnerability.t) :
  Forall (fun v =>
            Forall (fun p => Package.name p = package_name ->
                             version ∉ Package.affected_versions p)
                   (Vulnerability.affected_packages v)) vulns ->
  version_vulns package_name version vulns = [].
Proof.
  unfold version_vulns. induction 1 as [|v vs Hv _ IH]; [done|].
  cbn [flat_map]. rewrite IH, app_nil_r.
  induction Hv as [|p ps Hp _ IHp]; [done|]. cbn [List.filter].
  destruct (String.eqb_spec (Package.name p) package_name) as [Hn|Hn]; [|exact IHp].
  destruct (Package.is_affected p version) eqn:Ea; [|exact IHp].
  apply mem_spec in Ea. by destruct (Hp Hn).
Qed.

(** X23: when the database knows vulnerabilities of the package but none
    lists the given version as affected, the report has level [unknown],
    score 0, maximal score 0, no counted and no latest vulnerability, and
    the recommendation of the level [unknown]; when the database knows no
    vulnerability of the package the report has no maximal score and a
    shorter recommendation. *)
Theorem assess_risk_without_match (db_vulns : list Vulnerability.t)
    (package_name version : string) :
  db_vulns <> [] -> version <> "" ->
  Forall (fun v =>
            Forall (fun p => Package.name p = package_name ->
                             version ∉ Package.affected_versions p)
                   (Vulnerability.affected_packages v)) db_vulns ->
  assess_risk db_vulns package_name (Some version)
  = mk_risk "unknown" (0 # 100) (Some (0 # 100)%Q) 0 0 None
      "No known vulnerabilities. Continue monitoring for new security advisories."
  /\ assess_risk [] package_name (Some version)
     = mk_risk "unknown" 0 None 0 0 None "No known vulnerabilities".
Proof.
  intros Hne Hver Hnone. split; [|done].
  rewrite assess_risk_unfold by done. unfold considered.
  apply truthy_true in Hver. rewrite Hver, (version_vulns_none _ _ _ Hnone).
  reflexivity.
Qed.

Lemma assess_risk_without_match_witness :
  risk_level (assess_risk Samples.scored_9_5_none "lodash" (Some "4.17.0")) = "unknown".
Proof.
  destruct (assess_risk_without_match Samples.scored_9_5_none "lodash" "4.17.0")
    as [H _].
  - discriminate.
  - discriminate.
  - repeat constructor; intros _; apply not_elem_of_nil.
  - rewrite H. reflexivity.
Defined.

(** ** Impact analysis and score distribution (analyzer.py) *)

Lemma lookup_increment (counts : gmap string nat) (key k : string) :
  default 0%nat (increment counts key !! k)
  = (default 0%nat (counts !! k) + if String.eqb k key then 1 else 0)%nat.
Proof.
  unfold increment. destruct (String.eqb_spec k key) as [->|Hne].
  - rewrite lookup_insert_eq. cbn. lia.
  - rewrite lookup_insert_ne by done. lia.
Qed.

Lemma increment_positive (counts : gmap string nat) (key : string) :
  map_Forall (fun _ n => (0 < n)%nat) counts ->
  map_Forall (fun _ n => (0 < n)%nat) (increment counts key).
Proof.
  intros H. unfold increment. apply map_Forall_insert_2; [lia|done].
Qed.

Lemma fold_increment (keys : list string) (counts : gmap string nat) (k : string) :
  default 0%nat (fold_left increment keys counts !! k)
  = (default 0%nat (counts !! k) + occurrences k keys)%nat.
Proof.
  unfold occurrences. revert counts.
  induction keys as [|x xs IH]; intros counts; cbn [fold_left List.filter length].
  - lia.
  - rewrite IH, lookup_increment. destruct (String.eqb k x); cbn [length]; lia.
Qed.

Lemma fold_increment_positive (keys : list string) (counts : gmap string nat) :
  map_Forall (fun _ n => (0 < n)%nat) counts ->
  map_Forall (fun _ n => (0 < n)%nat) (fold_left increment keys counts).
Proof.
  revert counts. induction keys as [|x xs IH]; intros counts H; [done|].
  cbn [fold_left]. by apply IH, increment_positive.
Qed.

Lemma counts_spec (keys : list string) (k : string) :
  fold_left increment keys ∅ !! k
  = if (0 <? occurrences k keys)%nat then Some (occurrences k keys) else None.
Proof.
  pose proof (fold_increment keys ∅ k) as H. rewrite lookup_empty in H. cbn in H.
  pose proof (fold_increment_positive keys ∅ (map_Forall_empty _)) as Hpos.
  destruct (fold_left increment keys ∅ !! k) as [n|] eqn:E; cbn in H.
  - subst n. specialize (Hpos k _ E). cbn in Hpos.
    by rewrite (proj2 (Nat.ltb_lt _ _) Hpos).
  - by rewrite <- H.
Qed.

Lemma bucket_label (score : Q) : bucket score ∈ bucket_labels.
Proof.
  unfold bucket, bucket_labels. repeat destruct (Qle_bool _ _);
    repeat (first [apply list_elem_of_here | apply list_elem_of_further]).
Qed.

Lemma get_score_distribution_counts (scores : list Q) :
  get_score_distribution scores = fold_left increment (bucket <$> scores) ∅.
Proof.
  unfold get_score_distribution. generalize (∅ : gmap string nat).
  induction scores as [|s ss IH]; intros acc; [done|]. cbn [fold_left fmap list_fmap].
  apply IH.
Qed.

Lemma occurrences_cons (key x : string) (xs : list string) :
  occurrences key (x :: xs)
  = ((if String.eqb key x then 1 else 0) + occurrences key xs)%nat.
Proof. unfold occurrences. cbn [List.filter]. by destruct (String.eqb key x). Qed.

Lemma occurrences_buckets (scores : list Q) :
  (occurrences "0-3.9" (bucket <$> scores) + occurrences "4.0-6.9" (bucket <$> scores)
   + occurrences "7.0-8.9" (bucket <$> scores)
   + occurrences "9.0-10.0" (bucket <$> scores))%nat = length scores.
Proof.
  induction scores as [|s ss IH]; [done|].
  cbn [fmap list_fmap length]. rewrite !occurrences_cons, <- IH.
  generalize (occurrences "0-3.9" (bucket <$> ss)),
    (occurrences "4.0-6.9" (bucket <$> ss)),
    (occurrences "7.0-8.9" (bucket <$> ss)),
    (occurrences "9.0-10.0" (bucket <$> ss)).
  intros a b c d. unfold bucket. repeat destruct (Qle_bool _ _); cbn; lia.
Qed.

Lemma occurrences_bucket (key : string) (scores : list Q) :
  occurrences key (bucket <$> scores)
  = length (List.filter (fun s => String.eqb key (bucket s)) scores).
Proof.
  unfold occurrences. induction scores as [|s ss IH]; [done|].
  cbn [fmap list_fmap List.filter]. destruct (String.eqb key (bucket s)); cbn [length];
    by rewrite IH.
Qed.

(** X24: [get_score_distribution] counts every score once: the counts of
    the four labels add up to the number of scores, whatever their values.
    A label is a key only when a score fell under it, and its count is the
    number of those scores; the first label counts the scores up to 3.9
    and the last every score above 8.9. *)
Theorem score_distribution_counts_every_score (scores : list Q) :
  let dist := get_score_distribution scores in
  (default 0 (dist !! "0-3.9") + default 0 (dist !! "4.0-6.9")
   + default 0 (dist !! "7.0-8.9") + default 0 (dist !! "9.0-10.0"))%nat
  = length scores
  /\ (forall key n, dist !! key = Some n ->
        (0 < n)%nat /\ key ∈ bucket_labels
        /\ n = length (List.filter (fun s => String.eqb key (bucket s)) scores))
  /\ default 0%nat (dist !! "0-3.9")
     = length (List.filter (fun s => Qle_bool s (39 # 10)) scores)
  /\ default 0%nat (dist !! "9.0-10.0")
     = length (List.filter (fun s => negb (Qle_bool s (89 # 10))) scores).
Proof.
  cbv zeta. rewrite get_score_distribution_counts.
  assert (Hd : forall k, default 0%nat (fold_left increment (bucket <$> scores) ∅ !! k)
                         = occurrences k (bucket <$> scores)).
  { intros k. rewrite fold_increment, lookup_empty. cbn. lia. }
  split; [rewrite !Hd; apply occurrences_buckets|]. split; [|split].
  - intros key n Hn. rewrite counts_spec in Hn.
    destruct (0 <? _)%nat eqn:E; [|done]. injection Hn as <-.
    apply Nat.ltb_lt in E. split; [done|]. split; [|apply occurrences_bucket].
    rewrite occurrences_bucket in E.
    destruct (List.filter _ scores) as [|s ss] eqn:Ef; [cbn in E; lia|].
    assert (Hin : In s (List.filter (fun s => String.eqb key (bucket s)) scores))
      by (rewrite Ef; by left).
    apply filter_In in Hin as [_ Hs]. apply String.eqb_eq in Hs as ->.
    apply bucket_label.
  - rewrite Hd, occurrences_bucket. f_equal. apply List.filter_ext. intros s.
    unfold bucket. by repeat destruct (Qle_bool _ _).
  - rewrite Hd, occurrences_bucket. f_equal. apply List.filter_ext. intros s.
    unfold bucket. destruct (Qle_bool s (39 # 10)) eqn:E1.
    + assert (Qle_bool s (89 # 10) = true) as ->; [|done].
      apply Qle_bool_iff in E1. apply Qle_bool_iff. lra.
    + destruct (Qle_bool s (69 # 10)) eqn:E2.
      * assert (Qle_bool s (89 # 10) = true) as ->; [|done].
        apply Qle_bool_iff in E2. apply Qle_bool_iff. lra.
      * by destruct (Qle_bool s (89 # 10)).
Qed.

Lemma score_distribution_counts_every_score_witness :
  "9.0-10.0" ∈ bucket_labels
  /\ 1%nat = length (List.filter (fun s => String.eqb "9.0-10.0" (bucket s))
                                [95 # 10; 39 # 10]%Q).
Proof.
  destruct (score_distribution_counts_every_score [95 # 10; 39 # 10]%Q)
    as (_ & H & _).
  destruct (H "9.0-10.0" 1%nat) as (_ & H1 & H2); [reflexivity|].
  by split.
Defined.

Lemma round2_comp (p q : Q) : (p == q)%Q -> round2 p = round2 q.
Proof.
  intros H. unfold round2, round_half_even. cbv zeta.
  assert (H100 : (p * 100 == q * 100)%Q) by (by rewrite H).
  rewrite (Qfloor_comp _ _ H100).
  assert (Hc : ((p * 100 - inject_Z (Qfloor (q * 100)) ?= 1 # 2)
                = (q * 100 - inject_Z (Qfloor (q * 100)) ?= 1 # 2))%Q).
  { apply Qcompare_comp; [by rewrite H100|done]. }
  by rewrite Hc.
Qed.

Lemma impact_step_score (acc : Q * nat) (vuln : Vulnerability.t) :
  impact_step acc vuln
  = match cvss_score vuln with
    | Some s => (fst acc + s, S (snd acc))%Q
    | None => acc
    end.
Proof.
  unfold impact_step, cvss_score.
  by destruct (Vulnerability.cvss_v3 vuln), (Vulnerability.cvss_v2 vuln).
Qed.

Lemma impact_fold (vulns : list Vulnerability.t) (t : Q) (c : nat) :
  let scores := omap cvss_score vulns in
  (fst (fold_left impact_step vulns (t, c)) == t + sum_scores scores)%Q
  /\ snd (fold_left impact_step vulns (t, c)) = (c + length scores)%nat.
Proof.
  cbv zeta. revert t c. induction vulns as [|v vs IH]; intros t c.
  - cbn. split; [lra|lia].
  - cbn [fold_left omap list_omap]. rewrite impact_step_score. cbn [fst snd].
    destruct (cvss_score v) as [s|].
    + destruct (IH (t + s)%Q (S c)) as [H1 H2].
      rewrite H1, H2. cbn [sum_scores fold_right length]. split; [|lia].
      unfold sum_scores. lra.
    + apply IH.
Qed.


Lemma impact_score_mean
    (get_affected_packages : string -> list Vulnerability.t)
    (get_vulnerabilities : list Vulnerability.t)
    (package_name ecosystem : option string) :
  (impact_score (analyze_impacts get_affected_packages get_vulnerabilities
                   package_name ecosystem)
   == round2 (Spec.risk_score
                (impact_vulns get_affected_packages get_vulnerabilities
                   package_name ecosystem)))%Q.
Proof.
  unfold analyze_impacts. cbv zeta.
  set (vulns := impact_vulns _ _ _ _).
  destruct (decide (vulns = [])) as [Hnil|Hne]; [by rewrite Hnil|].
  assert (Hbody : forall (A : Type) (x y : A),
            match vulns with [] => x | _ :: _ => y end = y).
  { intros A x y. by destruct vulns. }
  rewrite Hbody. clear Hbody.
  destruct (impact_fold vulns 0 0) as [Ht Hc].
  destruct (fold_left impact_step vulns (0%Q, 0%nat)) as [total_score count].
  cbn [fst snd] in Ht, Hc. cbn [impact_score].
  unfold Spec.risk_score. cbv zeta. fold (sum_scores (omap cvss_score vulns)).
  rewrite Hc. cbn [Nat.add]. clear Hc. revert Ht.
  generalize (omap cvss_score vulns). intros [|s0 ss] Ht; [done|].
  cbn [length Nat.ltb Nat.leb].
  erewrite round2_comp; [reflexivity|]. rewrite Ht.
  assert (Hnz : ~ (inject_Z (Z.of_nat (S (length ss))) == 0)%Q).
  { unfold Qeq. cbn. lia. }
  field. exact Hnz.
Qed.


Lemma risk_fold_total (package_name : string) (vulns : list Vulnerability.t)
    (st : RiskState) :
  (total_score (fold_left (risk_step package_name) vulns st)
   == total_score st + sum_scores (omap cvss_score vulns))%Q.
Proof.
  revert st. induction vulns as [|v vs IH]; intros st.
  - cbn. lra.
  - cbn [fold_left omap list_omap]. rewrite IH. unfold risk_step. cbv zeta.
    cbn [total_score]. destruct (cvss_score v) as [s|]; cbn [default from_option];
      unfold sum_scores; cbn [fold_right]; unfold Datatypes.id; lra.
Qed.

Lemma sum_scores_nonneg (scores : list Q) :
  Forall (fun s => (0 <= s)%Q) scores -> (0 <= sum_scores scores)%Q.
Proof.
  induction 1 as [|s ss Hs _ IH]; cbn; [lra|]. unfold sum_scores in IH. lra.
Qed.

Lemma omap_length_le {A B : Type} (f : A -> option B) (xs : list A) :
  (length (omap f xs) <= length xs)%nat.
Proof.
  induction xs as [|x xs IH]; [done|]. cbn [omap list_omap].
  destruct (f x); cbn [length]; lia.
Qed.

Lemma mean_le_mean (total : Q) (count n : nat) :
  (0 <= total)%Q -> (0 < count)%nat -> (count <= n)%nat ->
  (total / inject_Z (Z.of_nat n) <= total / inject_Z (Z.of_nat count))%Q.
Proof.
  intros Ht Hc Hn.
  assert (H0 : (0 < inject_Z (Z.of_nat count))%Q).
  { unfold Qlt. cbn. lia. }
  assert (H1 : (inject_Z (Z.of_nat count) <= inject_Z (Z.of_nat n))%Q).
  { rewrite <- Zle_Qle. lia. }
  apply Qle_shift_div_r; [lra|].
  set (k := (total / inject_Z (Z.of_nat count))%Q).
  assert (Hk : (total == k * inject_Z (Z.of_nat count))%Q).
  { unfold k. field. lra. }
  assert (Hk0 : (0 <= k)%Q).
  { unfold k. apply Qle_shift_div_l; lra. }
  rewrite Hk at 1. rewrite (Qmult_comm k), (Qmult_comm k).
  by apply Qmult_le_compat_r.
Qed.

(** X26: for one package whose vulnerabilities have no negative score,
    the risk score of [assess_risk] (taken without version) never exceeds
    the impact score of [analyze_impacts]: the first divides the sum of
    the scores by the number of all vulnerabilities, the second by the
    number of the scored ones. *)
Theorem risk_score_below_impact_score
    (get_affected_packages : string -> list Vulnerability.t)
    (get_vulnerabilities : list Vulnerability.t)
    (package_name : string) (ecosystem : option string) :
  package_name <> "" ->
  Forall (fun v => (0 <= score_of v)%Q) (get_affected_packages package_name) ->
  (risk_score (assess_risk (get_affected_packages package_name) package_name None)
   <= impact_score (analyze_impacts get_affected_packages get_vulnerabilities
                      (Some package_name) ecosystem))%Q.
Proof.
  intros Hname Hpos.
  assert (Hvulns : impact_vulns get_affected_packages get_vulnerabilities
                     (Some package_name) ecosystem
                   = get_affected_packages package_name).
  { unfold impact_vulns. cbn [PyStr.truthy_opt]. apply truthy_true in Hname.
    by rewrite Hname. }
  rewrite (impact_score_mean get_affected_packages get_vulnerabilities
             (Some package_name) ecosystem), Hvulns.
  set (vulns := get_affected_packages package_name) in *.
  destruct (decide (vulns = [])) as [->|Hne]; [done|].
  rewrite assess_risk_unfold by done. cbv zeta. cbn [risk_score considered].
  apply round2_mono. unfold Spec.risk_score. cbv zeta.
  fold (sum_scores (omap cvss_score vulns)).
  pose proof (risk_fold_total package_name vulns (mk_state 0 0 0 0 None)) as Ht.
  cbn [total_score] in Ht.
  assert (Hsum : (0 <= sum_scores (omap cvss_score vulns))%Q).
  { apply sum_scores_nonneg. clear -Hpos. induction Hpos as [|v vs Hv _ IH]; [constructor|].
    cbn [omap list_omap]. unfold score_of in Hv.
    destruct (cvss_score v); [constructor; done|done]. }
  pose proof (omap_length_le cvss_score vulns) as Hlen.
  assert (Hn : (0 < inject_Z (Z.of_nat (length vulns)))%Q).
  { destruct vulns; [done|]. unfold Qlt. cbn. lia. }
  destruct vulns as [|v0 vs] eqn:Ev; [done|]. rewrite <- Ev in *.
  destruct (omap cvss_score vulns) as [|s0 ss] eqn:Es.
  - rewrite Ht. cbn. apply Qle_shift_div_r; [done|]. lra.
  - rewrite <- Es in *. rewrite Ht. 
    assert (H0 : (0 + sum_scores (omap cvss_score vulns)
                  == sum_scores (omap cvss_score vulns))%Q) by lra.
    rewrite H0. apply mean_le_mean; [done| |done]. rewrite Es. cbn. lia.
Qed.

Lemma risk_score_below_impact_score_witness :
  (risk_score (assess_risk Samples.scored_9_5_none "lodash" None)
   <= impact_score (analyze_impacts (fun _ => Samples.scored_9_5_none) []
                      (Some "lodash") None))%Q.
Proof.
  apply (risk_score_below_impact_score (fun _ => Samples.scored_9_5_none) []
           "lodash" None).
  - discriminate.
  - repeat constructor; discriminate.
Defined.

(** ** Similar groups (analyzer.py, [analyze_correlations]) *)

Lemma cluster_step_pairs (vulns : list Vulnerability.t)
    (similarity_matrix : nat -> nat -> Q) (min_similarity : Q) (n i : nat)
    (st : option (list (list Vulnerability.t) * gset nat)) :
  (forall s, st = Some s -> Forall has_pair s.1) ->
  forall s', cluster_step vulns similarity_matrix min_similarity n st i = Some s' ->
             Forall has_pair s'.1.
Proof.
  intros Hst s'. unfold cluster_step. destruct st as [[groups used]|]; [|done].
  specialize (Hst _ eq_refl). cbn [fst] in Hst. cbn [mbind option_bind].
  case_bool_decide; [by intros [= <-]|]. cbv zeta.
  destruct (similar_indices similarity_matrix min_similarity n i) as [|j js] eqn:Es;
    [by intros [= <-]|].
  destruct (vulns !! i) as [anchor|]; [|done]. cbn [mbind option_bind].
  destruct (mapM _ (j :: js)) as [others|] eqn:Em; [|done]. cbn [mbind option_bind].
  intros [= <-]. cbn [fst]. apply Forall_app. split; [done|].
  apply Forall_singleton. unfold has_pair.
  apply length_mapM in Em. cbn [length] in *. lia.
Qed.

Lemma cluster_pairs (tfidf_cosine : list string -> option (nat -> nat -> Q))
    (min_similarity : Q) (vulns : list Vulnerability.t) :
  Forall has_pair (cluster tfidf_cosine min_similarity vulns).
Proof.
  unfold cluster. cbv zeta. destruct (tfidf_cosine _) as [m|]; [|constructor].
  assert (H : forall is_ st,
            (forall s, st = Some s -> Forall has_pair s.1) ->
            forall s', fold_left (cluster_step vulns m min_similarity
                                    (length (descriptions vulns))) is_ st = Some s' ->
                       Forall has_pair s'.1).
  { induction is_ as [|i is_ IH]; intros st Hst s'; [by apply Hst|].
    cbn [fold_left]. apply IH. by apply cluster_step_pairs. }
  destruct (fold_left _ _ _) as [[groups used]|] eqn:E; [|constructor].
  refine (H _ _ _ _ E). intros s Hs. injection Hs as <-. constructor.
Qed.

(** X27: [analyze_correlations] always answers, and every similar group
    it reports has at least two members.  When the vectoriser raises, no
    group is reported; the package graph is the same whatever the
    vectoriser and the threshold. *)
Theorem similar_groups_have_two_members
    (tfidf_cosine : list string -> option (nat -> nat -> Q))
    (min_similarity : Q) (vulns : list Vulnerability.t) :
  match analyze_correlations tfidf_cosine min_similarity vulns with
  | Raise _ => False
  | Ok r =>
      Forall has_pair (similar_groups r)
      /\ (tfidf_cosine (descriptions vulns) = None -> similar_groups r = [])
      /\ forall tfidf_cosine' min_similarity',
           match analyze_correlations tfidf_cosine' min_similarity' vulns with
           | Raise _ => False
           | Ok r' => package_graph r' = package_graph r
           end
  end.
Proof.
  unfold analyze_correlations.
  destruct (descriptions vulns) as [|d ds] eqn:Hd.
  - split; [constructor|]. split; [done|]. done.
  - assert (Hwf : nx.wf (build_graph vulns)) by apply wf_fold, wf_empty.
    destruct (nodes_data_ok _ Hwf) as (ns & Hns & _).
    rewrite Hns. cbn [mbind result_bind similar_groups package_graph].
    split; [|split; [|done]].
    + pose proof (cluster_pairs tfidf_cosine min_similarity vulns) as H.
      induction H as [|g gs Hg _ IH]; [constructor|]. cbn [map]. constructor; [|exact IH].
      unfold has_pair in *. by rewrite length_map.
    + intros Hnone. unfold cluster. cbv zeta. rewrite Hd in *. by rewrite Hnone.
Qed.

Lemma similar_groups_have_two_members_witness :
  match analyze_correlations Samples.failing_cosine (8 # 10) Samples.chain with
  | Ok r => similar_groups r = []
  | Raise _ => False
  end.
Proof.
  pose proof (similar_groups_have_two_members Samples.failing_cosine (8 # 10)
                Samples.chain) as H.
  destruct (analyze_correlations Samples.failing_cosine (8 # 10) Samples.chain)
    as [r|e]; [|exact H].
  destruct H as (_ & H & _). by apply H.
Defined.

(** ** Graph loader (source/model/entities.py) *)

Lemma process_cpe_match_triple (cve_id : string) (m : Raw.CpeMatch) :
  Loader.process_cpe_match cve_id m = []
  \/ Loader.affects_triple cve_id (Loader.process_cpe_match cve_id m).
Proof.
  unfold Loader.process_cpe_match.
  destruct (default true _); [|by left].
  destruct (Raw.criteria m) as [uri|]; [|by left].
  destruct (PyStr.truthy uri); [|by left].
  destruct (PyStr.split_on ":" uri) as [|a [|b [|c [|vendor [|product [|ver rest]]]]]] eqn:E;
    try by left.
  right. cbv zeta. unfold Loader.affects_triple. do 8 eexists. split; [reflexivity|].
  rewrite E. split; [|split; [cbn; lia|done]].
  destruct (String.eqb_spec ver "*"); [done|done].
Qed.

(** X28: the calls of [Loader.process_component] come in groups of three, one
    group per CPE name processed: the component is created, then its
    version, then the relationship [AFFECTS] from the vulnerability to
    that CPE name.  The name has more than five segments, vendor and
    product are its fourth and fifth, and the version stored is never
    [*]. *)
Theorem process_component_calls (nvd_obj : NVD_OBJ.NVDData) :
  exists groups,
    Loader.process_component nvd_obj = concat groups
    /\ Forall (Loader.affects_triple (NVD_OBJ.cve_id nvd_obj)) groups.
Proof.
  unfold Loader.process_component.
  assert (H : forall ms : list Raw.CpeMatch, exists groups,
            flat_map (Loader.process_cpe_match (NVD_OBJ.cve_id nvd_obj)) ms = concat groups
            /\ Forall (Loader.affects_triple (NVD_OBJ.cve_id nvd_obj)) groups).
  { induction ms as [|m ms (groups & Hg & Hall)].
    - exists []. split; [done|constructor].
    - cbn [flat_map]. rewrite Hg.
      destruct (process_cpe_match_triple (NVD_OBJ.cve_id nvd_obj) m) as [->|Ht].
      + by exists groups.
      + exists (Loader.process_cpe_match (NVD_OBJ.cve_id nvd_obj) m :: groups).
        split; [done|]. by constructor. }
  assert (H2 : forall ns : list Raw.Node, exists groups,
            flat_map (fun node =>
                        flat_map (Loader.process_cpe_match (NVD_OBJ.cve_id nvd_obj))
                                 (Loader.cpe_matches node)) ns = concat groups
            /\ Forall (Loader.affects_triple (NVD_OBJ.cve_id nvd_obj)) groups).
  { induction ns as [|n ns (groups & Hg & Hall)].
    - exists []. split; [done|constructor].
    - cbn [flat_map]. rewrite Hg. destruct (H (Loader.cpe_matches n)) as (g1 & -> & H1).
      exists (g1 ++ groups). split; [by rewrite concat_app|]. by apply Forall_app. }
  induction (NVD_OBJ.configurations nvd_obj) as [|c cs (groups & Hg & Hall)].
  - exists []. split; [done|constructor].
  - cbn [flat_map]. rewrite Hg. destruct (H2 (Raw.nodes c)) as (g1 & -> & H1).
    exists (g1 ++ groups). split; [by rewrite concat_app|]. by apply Forall_app.
Qed.


Lemma cpe_matches_sub (node : Raw.Node) (m : Raw.CpeMatch) :
  m ∈ Loader.cpe_matches node -> m ∈ node_matches node.
Proof.
  destruct node as [ms cs]. cbn [Loader.cpe_matches node_matches].
  destruct ms as [|m0 ms].
  - cbn [app]. induction cs as [|[ms' cs'] cs IH]; cbn [flat_map]; [done|].
    rewrite !elem_of_app. intros [H|H]; [|right; by apply IH].
    left. cbn [node_matches]. apply elem_of_app. by left.
  - intros H. apply elem_of_app. by left.
Qed.

(** X30: the two readers of a configuration look at different keys of a
    match.  [_extract_affected_packages] finds no package when no match
    has the key [cpe23Uri]; [Loader.process_component] makes no call when no
    match has the key [criteria]. *)
Theorem loaders_read_different_keys (nvd_obj : NVD_OBJ.NVDData) :
  (Forall (fun m => Raw.cpe23Uri m = None)
          (all_matches (NVD_OBJ.configurations nvd_obj)) ->
   NVD._extract_affected_packages (NVD_OBJ.configurations nvd_obj) = [])
  /\ (Forall (fun m => Raw.criteria m = None)
             (all_matches (NVD_OBJ.configurations nvd_obj)) ->
      Loader.process_component nvd_obj = []).
Proof.
  split.
  - rewrite extract_matches. generalize (all_matches (NVD_OBJ.configurations nvd_obj)).
    intros ms Hms. induction Hms as [|m ms Hm _ IH]; [done|].
    cbn [fold_left]. unfold NVD.process_cpe_match at 2. by rewrite Hm.
  - unfold Loader.process_component, all_matches.
    induction (NVD_OBJ.configurations nvd_obj) as [|c cs IH]; [done|].
    cbn [flat_map]. rewrite Forall_app. intros [Hc Hcs]. rewrite (IH Hcs), app_nil_r.
    clear IH Hcs. induction (Raw.nodes c) as [|n ns IH]; [done|].
    cbn [flat_map] in *. apply Forall_app in Hc as [Hn Hns]. rewrite (IH Hns), app_nil_r.
    clear IH Hns. rewrite Forall_forall in Hn.
    assert (Hall : forall m, m ∈ Loader.cpe_matches n -> Raw.criteria m = None).
    { intros m Hm. by apply Hn, cpe_matches_sub. }
    induction (Loader.cpe_matches n) as [|m ms IH]; [done|]. cbn [flat_map].
    rewrite IH by (intros m' Hm'; apply Hall, elem_of_cons; by right).
    unfold Loader.process_cpe_match. rewrite (Hall m) by (apply elem_of_cons; by left).
    by destruct (default true _).
Qed.

Lemma loaders_read_different_keys_witness :
  NVD._extract_affected_packages (NVD_OBJ.configurations Examples.api2_object) = []
  /\ Loader.process_component Examples.api2_object <> [].
Proof.
  destruct (loaders_read_different_keys Examples.api2_object) as [H _].
  split; [|discriminate]. apply H. by repeat constructor.
Defined.
